(** * Quick Diff -> JSONL: the change-record pipeline of [app.py]

    A shallow embedding of the non-UI core of [app.py]
    ([similarity_scores], [to_lines], [unified_diff_text],
    [parse_unified_diff], [simple_heuristics], [make_change_record],
    [save_jsonl], [read_bytes_as_text]) together with the parts of the
    Python runtime it calls ([str] methods, [re], [difflib], [float],
    [round], [json.dumps], the codecs), followed by the properties of
    the specification and further properties of the code.

    Conventions.
    - A Python [str] is a list of code points ([N]); a Python [int] is a
      [Z]; a Python [float] is a binary64 value of the Standard Library's
      [SpecFloat] (precision 53, maximal exponent 1024), so that every
      float operation below rounds exactly as IEEE 754 does.
    - Dictionaries are [gmap]s, sets are [gset]s; a [bytes] object is a
      list of [Byte.byte].
    - An exception is a value of [exn]; code that may raise returns
      [result]. *)

From Stdlib Require Import ZArith NArith List Bool Ascii String Lia.
From Stdlib Require Import Floats.SpecFloat.
From Stdlib Require Strings.Byte.
From stdpp Require Import base list sorting gmap.

Local Open Scope Z_scope.

(* ===================================================================== *)
(** * Python values                                                       *)
(* ===================================================================== *)

(** ** Strings *)

Abbreviation char := N (only parsing).
Abbreviation str := (list N) (only parsing).

(** Literals are written [u "text"]; the characters of a Rocq string are
    bytes, read here as the code points 0..255. *)
Definition u (s : string) : str :=
  map (fun a => N.of_nat (nat_of_ascii a)) (list_ascii_of_string s).

Definition LF : char := 10%N.
Definition CR : char := 13%N.

(** The Unicode character database is not part of the program.  The three
    tables the code consults are taken as an interface; the only facts
    used about them are that on ASCII the digits are [0-9]. *)
Definition ascii_decimal (c : char) : option Z :=
  if ((48 <=? c) && (c <=? 57))%N then Some (Z.of_N c - 48) else None.

Definition ascii_isalnum (c : char) : bool :=
  ((48 <=? c) && (c <=? 57) || (65 <=? c) && (c <=? 90) || (97 <=? c) && (c <=? 122))%N.

Definition ascii_lower (s : str) : str :=
  map (fun c => if ((65 <=? c) && (c <=? 90))%N then (c + 32)%N else c) s.

Class UnicodeData := {
  (** [Py_UNICODE_TODECIMAL]: the value of a decimal digit (category Nd),
      [None] on every other character; [\d], [int()] and [float()] use it. *)
  uc_decimal : char -> option Z;
  (** [Py_UNICODE_ISALNUM]; [\w] is this or an underscore. *)
  uc_isalnum : char -> bool;
  (** [str.lower()]. *)
  uc_lower : str -> str;
  uc_decimal_ascii : forall c, (c < 128)%N -> uc_decimal c = ascii_decimal c
}.

(** The tables restricted to ASCII: every character from 128 on is neither
    a digit nor alphanumeric and has no case.  On ASCII text they coincide
    with the full tables. *)
#[export] Instance ascii_tables : UnicodeData := {|
  uc_decimal := ascii_decimal;
  uc_isalnum := ascii_isalnum;
  uc_lower := ascii_lower;
  uc_decimal_ascii := fun c _ => eq_refl
|}.

Module Py.

(** The characters at which [str.splitlines] breaks a line. *)
Definition is_linebreak (c : char) : bool :=
  bool_decide (c ∈ [10; 11; 12; 13; 28; 29; 30; 133; 8232; 8233]%N).

(** [str.isspace] for one character; also [\s] and what [str.strip] removes. *)
Definition isspace (c : char) : bool :=
  bool_decide (c ∈ [9; 10; 11; 12; 13; 28; 29; 30; 31; 32; 133; 160; 5760;
                    8192; 8193; 8194; 8195; 8196; 8197; 8198; 8199; 8200;
                    8201; 8202; 8232; 8233; 8239; 8287; 12288]%N).

(** [s.splitlines()]: no line ends are kept, [\r\n] is one break, and a
    break at the very end opens no further line. *)
Fixpoint splitlines (s : str) : list str :=
  match s with
  | [] => []
  | c :: s' =>
      if is_linebreak c then
        [] :: (if N.eqb c CR
               then match s' with
                    | c' :: s'' => if N.eqb c' LF then splitlines s'' else splitlines s'
                    | [] => splitlines s'
                    end
               else splitlines s')
      else match splitlines s' with
           | [] => [[c]]
           | l :: ls => (c :: l) :: ls
           end
  end.

(** [sep.join(ls)]. *)
Fixpoint join (sep : str) (ls : list str) : str :=
  match ls with
  | [] => []
  | l :: ls' => match ls' with
                | [] => l
                | _ :: _ => l ++ sep ++ join sep ls'
                end
  end.

(** [s.startswith(p)]. *)
Fixpoint startswith (p s : str) : bool :=
  match p, s with
  | [], _ => true
  | _ :: _, [] => false
  | a :: p', b :: s' => N.eqb a b && startswith p' s'
  end.

(** [s.endswith(p)]. *)
Definition endswith (p s : str) : bool := startswith (rev p) (rev s).

(** [p in s] for strings. *)
Fixpoint contains (p s : str) : bool :=
  startswith p s || match s with [] => false | _ :: s' => contains p s' end.

Fixpoint lstrip (s : str) : str :=
  match s with
  | [] => []
  | c :: s' => if isspace c then lstrip s' else s
  end.

(** [s.strip()]. *)
Definition strip (s : str) : str := rev (lstrip (rev (lstrip s))).

(** ** Slices: [l[i:j]] with Python's treatment of negative and
    out-of-range bounds. *)
Definition clamp_index (len i : Z) : Z :=
  if i <? 0 then Z.max 0 (i + len) else Z.min i len.

Definition slice {A} (l : list A) (i j : Z) : list A :=
  let len := Z.of_nat (length l) in
  let lo := clamp_index len i in
  let hi := clamp_index len j in
  take (Z.to_nat (hi - lo)) (drop (Z.to_nat lo) l).

(** ** Integers *)

Definition digit_char (d : Z) : char := Z.to_N (48 + d).

Fixpoint digits_of (fuel : nat) (n : Z) (acc : str) : str :=
  match fuel with
  | O => acc
  | S f => let acc' := digit_char (n mod 10) :: acc in
           if n <? 10 then acc' else digits_of f (n / 10) acc'
  end.

(** [str(n)], also what ['{}'.format(n)] prints: decimal, a minus for
    negatives.  A number below 2^k has at most k digits. *)
Definition str_of_int (n : Z) : str :=
  if n <? 0 then 45%N :: digits_of (S (Z.to_nat (Z.log2 (- n)))) (- n) []
  else digits_of (S (Z.to_nat (Z.log2 n))) n [].

Section WithTables.
Context {U : UnicodeData}.

Definition isdecimal (c : char) : bool :=
  match uc_decimal c with Some _ => true | None => false end.

Fixpoint decimal_value (acc : Z) (s : str) : option Z :=
  match s with
  | [] => Some acc
  | c :: s' => match uc_decimal c with
               | Some d => decimal_value (10 * acc + d) s'
               | None => None
               end
  end.

End WithTables.

(** ** Exceptions *)
Inductive exn :=
| ValueError
| TypeError
| OSError (errno : Z).

Definition result (A : Type) := sum exn A.
Definition Ok {A} (a : A) : result A := inr a.
Definition Raise {A} (e : exn) : result A := inl e.
Definition bind {A B} (x : result A) (f : A -> result B) : result B :=
  match x with inl e => inl e | inr a => f a end.

End Py.

#[export] Instance result_ret : MRet Py.result := @Py.Ok.
#[export] Instance result_bind : MBind Py.result := fun A B f x => Py.bind x f.

(** ** Floats: binary64, every operation correctly rounded *)
Module PyFloat.

Abbreviation float := spec_float (only parsing).

Definition prec : Z := 53.
Definition emax : Z := 1024.

(** [float(n)] for an [int] *)
Definition of_int (n : Z) : float := binary_normalize prec emax n 0 false.

(** The double nearest to [p / q] (ties to even) for integers [p >= 0] and
    [q > 0] of any size, with the sign [neg]: [p / q] on two [int]s, and
    the value of a decimal numeral. *)
Definition of_ratio (neg : bool) (p q : Z) : float :=
  match p, q with
  | Zpos p', Zpos q' => SFdiv prec emax (S754_finite neg p' 0) (S754_finite false q' 0)
  | _, _ => S754_zero neg
  end.

Definition is_finite (x : float) : bool :=
  match x with S754_zero _ | S754_finite _ _ _ => true | _ => false end.

Definition mul : float -> float -> float := SFmul prec emax.
Definition sub : float -> float -> float := SFsub prec emax.
Definition div : float -> float -> float := SFdiv prec emax.
Definition ltb : float -> float -> bool := SFltb.

(** [round(x, ndigits)] for [ndigits >= 0]: the exact value of [x] is
    rounded to a multiple of [10^-ndigits], halves to the even multiple,
    and the result is the double nearest to that decimal. *)
Definition round (x : float) (ndigits : Z) : float :=
  match x with
  | S754_finite s m e =>
      let num := Zpos m * 10 ^ ndigits * 2 ^ (Z.max e 0) in
      let den := 2 ^ (Z.max (- e) 0) in
      let q := num / den in
      let r := num mod den in
      let n := if 2 * r <? den then q
               else if den <? 2 * r then q + 1
               else if Z.even q then q else q + 1 in
      of_ratio s n (10 ^ ndigits)
  | _ => x
  end.

End PyFloat.

(* ===================================================================== *)
(** * [re]: backtracking matching of the patterns the program uses        *)
(* ===================================================================== *)

Module Re.

(** The constructs that occur in the program's patterns.  Repetition is
    only ever applied to a single character class there. *)
Inductive regex :=
| Lit (s : str)                       (* literal text *)
| Set_ (p : char -> bool)             (* one character of a class *)
| Rep (p : char -> bool) (min : nat)  (* greedy [X*] (min 0) or [X+] (min 1) *)
| Cat (r1 r2 : regex)
| Alt (r1 r2 : regex)                 (* [r1|r2] *)
| Opt (r : regex)                     (* greedy [r?] *)
| Group (n : nat) (r : regex)         (* capture group number n *)
| Bol                                 (* [^] *)
| Eol                                 (* [$] *)
| WordB (w : char -> bool).           (* [\b], for the word class w *)

(** A position in the subject: the text behind it (latest first), the
    text ahead, and the groups captured so far. *)
Record state := State { seen : str; rest : str; caps : list (nat * str) }.

Definition start (s : str) : state := State [] s [].

(** All ways to match a greedy class repetition, longest first. *)
Fixpoint rep (p : char -> bool) (min : nat) (sn rs : str) (cs : list (nat * str))
  : list state :=
  let here := match min with O => [State sn rs cs] | S _ => [] end in
  match rs with
  | c :: rs' => if p c then rep p (Nat.pred min) (c :: sn) rs' cs ++ here else here
  | [] => here
  end.

Definition at_word (w : char -> bool) (s : str) : bool :=
  match s with c :: _ => w c | [] => false end.

(** All ways to match [r] at [st], in the order a backtracking matcher
    tries them: the first one is the match [re] reports. *)
Fixpoint rmatch (r : regex) (st : state) : list state :=
  match r with
  | Lit s =>
      if Py.startswith s (rest st)
      then [State (rev s ++ seen st) (drop (length s) (rest st)) (caps st)]
      else []
  | Set_ p =>
      match rest st with
      | c :: rs => if p c then [State (c :: seen st) rs (caps st)] else []
      | [] => []
      end
  | Rep p min => rep p min (seen st) (rest st) (caps st)
  | Cat r1 r2 => st' ← rmatch r1 st; rmatch r2 st'
  | Alt r1 r2 => rmatch r1 st ++ rmatch r2 st
  | Opt r => rmatch r st ++ [st]
  | Group n r =>
      (fun st' =>
         let txt := take (length (rest st) - length (rest st')) (rest st) in
         State (seen st') (rest st') ((n, txt) :: caps st')) <$> rmatch r st
  | Bol => match seen st with [] => [st] | _ :: _ => [] end
  | Eol => match rest st with
           | [] => [st]
           | [c] => if N.eqb c LF then [st] else []
           | _ => []
           end
  | WordB w => if xorb (at_word w (seen st)) (at_word w (rest st)) then [st] else []
  end.

(** [m.group(n)]: [None] when the group took no part in the match. *)
Fixpoint group_of (cs : list (nat * str)) (n : nat) : option str :=
  match cs with
  | [] => None
  | (k, t) :: cs' => if Nat.eqb k n then Some t else group_of cs' n
  end.

Definition group (m : state) (n : nat) : option str := group_of (caps m) n.

(** [re.match(r, s)] *)
Definition match_ (r : regex) (s : str) : option state := head (rmatch r (start s)).

Fixpoint search_from (r : regex) (sn rs : str) : option state :=
  match rmatch r (State sn rs []) with
  | m :: _ => Some m
  | [] => match rs with
          | [] => None
          | c :: rs' => search_from r (c :: sn) rs'
          end
  end.

(** [re.search(r, s)] *)
Definition search (r : regex) (s : str) : option state := search_from r [] s.

(** [re.findall(r, s)] for a pattern without groups.  After a match the
    scan resumes where it ended ([skip] characters further on); an empty
    match moves on by one character. *)
Fixpoint findall_from (r : regex) (skip : nat) (sn rs : str) : list str :=
  match skip with
  | S k => match rs with
           | c :: rs' => findall_from r k (c :: sn) rs'
           | [] => []
           end
  | O => match rmatch r (State sn rs []) with
         | m :: _ =>
             let txt := take (length rs - length (rest m)) rs in
             txt :: match rs with
                    | c :: rs' => findall_from r (Nat.pred (length txt)) (c :: sn) rs'
                    | [] => []
                    end
         | [] => match rs with
                 | c :: rs' => findall_from r 0 (c :: sn) rs'
                 | [] => []
                 end
         end
  end.

Definition findall (r : regex) (s : str) : list str := findall_from r 0 [] s.

Section Classes.
Context {U : UnicodeData}.

(** [\w], [\d], [\s] and [.] *)
Definition word (c : char) : bool := uc_isalnum c || N.eqb c 95.
Definition digit (c : char) : bool := Py.isdecimal c.
Definition space (c : char) : bool := Py.isspace c.
Definition dot (c : char) : bool := negb (N.eqb c LF).

End Classes.

(** [a-z] style ranges *)
Definition range (lo hi : N) (c : char) : bool := ((lo <=? c) && (c <=? hi))%N.
Definition one (x : N) (c : char) : bool := N.eqb c x.
Definition union (p q : char -> bool) (c : char) : bool := p c || q c.

End Re.

Infix "⋅" := Re.Cat (at level 60, right associativity).

(* ===================================================================== *)
(** * [difflib]                                                           *)
(* ===================================================================== *)

Module difflib.

Inductive tag := replace | delete | insert | equal.

#[global] Instance tag_eq_dec : EqDecision tag.
Proof. solve_decision. Defined.

Abbreviation block := (Z * Z * Z)%type (only parsing).          (* Match(a, b, size) *)
Abbreviation opcode := (tag * Z * Z * Z * Z)%type (only parsing). (* (tag, i1, i2, j1, j2) *)

(** Lexicographic order of tuples of integers, as [list.sort] uses it. *)
Definition block_le (x y : block) : Prop :=
  let '(i1, j1, k1) := x in
  let '(i2, j2, k2) := y in
  i1 < i2 \/ (i1 = i2 /\ (j1 < j2 \/ (j1 = j2 /\ k1 <= k2))).

#[global] Instance block_le_dec : RelDecision block_le.
Proof. intros [[??]?] [[??]?]; unfold block_le; apply _. Defined.

#[global] Typeclasses Opaque block_le.

(** [l[i]] for an index that is not negative *)
Definition item {X} (l : list X) (i : Z) : option X :=
  if i <? 0 then None else l !! Z.to_nat i.

Section SequenceMatcher.
Context `{Countable A}.

(** [SequenceMatcher(None, a, b, autojunk=True)]: no junk predicate, so
    [bjunk] is empty and [isbjunk] is constantly false. *)
Record SequenceMatcher := { a : list A; b : list A; b2j : gmap A (list Z) }.

Definition isbjunk (x : A) : bool := false.

(** [__chain_b]: the positions of every element of [b], in increasing
    order; in a sequence of 200 elements or more, the elements filling
    more than 1% + 1 positions are "popular" and are removed. *)
Definition index_all (b : list A) : gmap A (list Z) :=
  foldl (fun (m : gmap A (list Z)) (ie : Z * A) =>
           <[ie.2 := default [] (m !! ie.2) ++ [ie.1]]> m)
        ∅ (zip (seqZ 0 (Z.of_nat (length b))) b).

Definition chain_b (b : list A) : gmap A (list Z) :=
  let n := Z.of_nat (length b) in
  if 200 <=? n then
    let ntest := n / 100 + 1 in
    filter (fun kv : A * list Z => ¬ (ntest < Z.of_nat (length kv.2))) (index_all b)
  else index_all b.

Definition new (a b : list A) : SequenceMatcher :=
  {| a := a; b := b; b2j := chain_b b |}.

(** The loop over the positions [j] of [a[i]] in [b]: positions before
    [blo] are passed over, the first one from [bhi] on ends the loop. *)
Fixpoint flm_row (i blo bhi : Z) (j2len : gmap Z Z) (js : list Z)
    (best : block) (newj2len : gmap Z Z) : block * gmap Z Z :=
  match js with
  | [] => (best, newj2len)
  | j :: js' =>
      if j <? blo then flm_row i blo bhi j2len js' best newj2len
      else if bhi <=? j then (best, newj2len)
      else
        let k := default 0 (j2len !! (j - 1)) + 1 in
        let best' := if best.2 <? k then (i - k + 1, j - k + 1, k) else best in
        flm_row i blo bhi j2len js' best' (<[j := k]> newj2len)
  end.

Definition same (x y : option A) : bool :=
  match x, y with
  | Some x, Some y => bool_decide (x = y)
  | _, _ => false
  end.

(** The four loops that extend the best block: to the left and to the
    right over elements that are not junk, then over junk. *)
Fixpoint extend_left (fuel : nat) (sm : SequenceMatcher) (junk : bool) (alo blo : Z)
    (best : block) : block :=
  let '(besti, bestj, bestsize) := best in
  match fuel with
  | O => best
  | S f =>
      if (alo <? besti) && (blo <? bestj)
         && bool_decide (from_option isbjunk false (item (b sm) (bestj - 1)) = junk)
         && same (item (a sm) (besti - 1)) (item (b sm) (bestj - 1))
      then extend_left f sm junk alo blo (besti - 1, bestj - 1, bestsize + 1)
      else best
  end.

Fixpoint extend_right (fuel : nat) (sm : SequenceMatcher) (junk : bool) (ahi bhi : Z)
    (best : block) : block :=
  let '(besti, bestj, bestsize) := best in
  match fuel with
  | O => best
  | S f =>
      if (besti + bestsize <? ahi) && (bestj + bestsize <? bhi)
         && bool_decide (from_option isbjunk false (item (b sm) (bestj + bestsize)) = junk)
         && same (item (a sm) (besti + bestsize)) (item (b sm) (bestj + bestsize))
      then extend_right f sm junk ahi bhi (besti, bestj, bestsize + 1)
      else best
  end.

(** [find_longest_match(alo, ahi, blo, bhi)].  Each extension loop runs
    at most once per element of [a[alo:ahi]], which bounds its fuel. *)
Definition find_longest_match (sm : SequenceMatcher) (alo ahi blo bhi : Z) : block :=
  let scan :=
    foldl (fun (st : block * gmap Z Z) (i : Z) =>
             match item (a sm) i with
             | Some x => flm_row i blo bhi st.2 (default [] (b2j sm !! x)) st.1 ∅
             | None => (st.1, ∅)
             end)
          ((alo, blo, 0), ∅) (seqZ alo (ahi - alo)) in
  let fuel := Z.to_nat (ahi - alo) in
  let best := scan.1 in
  let best := extend_left fuel sm false alo blo best in
  let best := extend_right fuel sm false ahi bhi best in
  let best := extend_left fuel sm true alo blo best in
  let best := extend_right fuel sm true ahi bhi best in
  best.

(** The work-list loop of [get_matching_blocks]; the list is used as a
    stack, its top is the head here. *)
Fixpoint mb_loop (fuel : nat) (sm : SequenceMatcher) (queue : list (Z * Z * Z * Z))
    (matching_blocks : list block) : list block :=
  match fuel with
  | O => matching_blocks
  | S f =>
      match queue with
      | [] => matching_blocks
      | (alo, ahi, blo, bhi) :: queue =>
          let '(i, j, k) := find_longest_match sm alo ahi blo bhi in
          if k =? 0 then mb_loop f sm queue matching_blocks
          else
            let queue := if (alo <? i) && (blo <? j)
                         then (alo, i, blo, j) :: queue else queue in
            let queue := if (i + k <? ahi) && (j + k <? bhi)
                         then (i + k, ahi, j + k, bhi) :: queue else queue in
            mb_loop f sm queue (matching_blocks ++ [(i, j, k)])
      end
  end.

(** Adjacent blocks are merged, empty ones dropped; the state of the
    loop is the pending block [(i1, j1, k1)] and the blocks put out. *)
Definition collapse_step (st : Z * Z * Z * list block) (x : block)
  : Z * Z * Z * list block :=
  let '(i1, j1, k1, non_adjacent) := st in
  let '(i2, j2, k2) := x in
  if (i1 + k1 =? i2) && (j1 + k1 =? j2)
  then (i1, j1, k1 + k2, non_adjacent)
  else (i2, j2, k2,
        if k1 =? 0 then non_adjacent else non_adjacent ++ [(i1, j1, k1)]).

Definition collapse (blocks : list block) : list block :=
  let '(i1, j1, k1, non_adjacent) := foldl collapse_step (0, 0, 0, []) blocks in
  if k1 =? 0 then non_adjacent else non_adjacent ++ [(i1, j1, k1)].

(** [get_matching_blocks()].  Every pass of the work-list loop either
    finds a block, which uses up an element of [a], or drops a range;
    [2 * len(a) + 1] passes are enough. *)
Definition get_matching_blocks (sm : SequenceMatcher) : list block :=
  let la := Z.of_nat (length (a sm)) in
  let lb := Z.of_nat (length (b sm)) in
  let matching_blocks :=
    mb_loop (2 * length (a sm) + 1) sm [(0, la, 0, lb)] [] in
  collapse (merge_sort block_le matching_blocks) ++ [(la, lb, 0)].

Definition _calculate_ratio (matches length : Z) : PyFloat.float :=
  if length =? 0 then PyFloat.of_int 1
  else PyFloat.div (PyFloat.mul (PyFloat.of_int 2) (PyFloat.of_int matches))
                   (PyFloat.of_int length).

(** [ratio()] *)
Definition ratio (sm : SequenceMatcher) : PyFloat.float :=
  let matches := foldr Z.add 0 ((fun x : block => x.2) <$> get_matching_blocks sm) in
  _calculate_ratio matches (Z.of_nat (length (a sm)) + Z.of_nat (length (b sm))).

(** [get_opcodes()]; the state of the loop is [(i, j, answer)]. *)
Definition opcode_step (st : Z * Z * list opcode) (x : block) : Z * Z * list opcode :=
  let '(i, j, answer) := st in
  let '(ai, bj, size) := x in
  let answer :=
    if (i <? ai) && (j <? bj) then answer ++ [(replace, i, ai, j, bj)]
    else if i <? ai then answer ++ [(delete, i, ai, j, bj)]
    else if j <? bj then answer ++ [(insert, i, ai, j, bj)]
    else answer in
  let answer :=
    if size =? 0 then answer
    else answer ++ [(equal, ai, ai + size, bj, bj + size)] in
  (ai + size, bj + size, answer).

Definition get_opcodes (sm : SequenceMatcher) : list opcode :=
  (foldl opcode_step (0, 0, []) (get_matching_blocks sm)).2.

(** [get_grouped_opcodes(n)]: the list of the groups it yields. *)
Definition fix_first (n : Z) (codes : list opcode) : list opcode :=
  match codes with
  | (equal, i1, i2, j1, j2) :: _ =>
      <[O := (equal, Z.max i1 (i2 - n), i2, Z.max j1 (j2 - n), j2)]> codes
  | _ => codes
  end.

Definition fix_last (n : Z) (codes : list opcode) : list opcode :=
  match last codes with
  | Some (equal, i1, i2, j1, j2) =>
      <[Nat.pred (length codes) := (equal, i1, Z.min i2 (i1 + n), j1, Z.min j2 (j1 + n))]> codes
  | _ => codes
  end.

(** The loop of [get_grouped_opcodes]; the state is the group being
    filled and the groups yielded so far. *)
Definition group_step (n : Z) (st : list opcode * list (list opcode)) (c : opcode)
  : list opcode * list (list opcode) :=
  let '(group, groups) := st in
  let '(tg, i1, i2, j1, j2) := c in
  if bool_decide (tg = equal) && (n + n <? i2 - i1) then
    ([(tg, Z.max i1 (i2 - n), i2, Z.max j1 (j2 - n), j2)],
     groups ++ [group ++ [(tg, i1, Z.min i2 (i1 + n), j1, Z.min j2 (j1 + n))]])
  else (group ++ [c], groups).

Definition get_grouped_opcodes (sm : SequenceMatcher) (n : Z) : list (list opcode) :=
  let codes := get_opcodes sm in
  let codes := match codes with [] => [(equal, 0, 1, 0, 1)] | _ :: _ => codes end in
  let codes := fix_first n codes in
  let codes := fix_last n codes in
  let '(group, groups) := foldl (group_step n) ([], []) codes in
  match group with
  | [] => groups
  | [(equal, _, _, _, _)] => groups
  | _ => groups ++ [group]
  end.

End SequenceMatcher.

(** [_format_range_unified(start, stop)] *)
Definition _format_range_unified (start stop : Z) : str :=
  let beginning := start + 1 in
  let length := stop - start in
  if length =? 1 then Py.str_of_int beginning
  else
    let beginning := if length =? 0 then beginning - 1 else beginning in
    Py.str_of_int beginning ++ u "," ++ Py.str_of_int length.

Definition group_lines (a b : list str) (group : list opcode) : list str :=
  c ← group;
  let '(tg, i1, i2, j1, j2) := c in
  match tg with
  | equal => (fun line => u " " ++ line) <$> Py.slice a i1 i2
  | _ =>
      (if bool_decide (tg ∈ [replace; delete])
       then (fun line => u "-" ++ line) <$> Py.slice a i1 i2 else [])
      ++
      (if bool_decide (tg ∈ [replace; insert])
       then (fun line => u "+" ++ line) <$> Py.slice b j1 j2 else [])
  end.

Definition hunk_lines (a b : list str) (lineterm : str) (group : list opcode) : list str :=
  match head group, last group with
  | Some first, Some last_ =>
      let file1_range := _format_range_unified first.1.1.1.2 last_.1.1.2 in
      let file2_range := _format_range_unified first.1.2 last_.2 in
      (u "@@ -" ++ file1_range ++ u " +" ++ file2_range ++ u " @@" ++ lineterm)
        :: group_lines a b group
  | _, _ => []
  end.

(** [unified_diff(a, b, fromfile, tofile, n=n, lineterm=lineterm)], with
    no file dates: the list of the lines it yields.  The two file lines
    come first, and only when there is a group at all. *)
Definition unified_diff (a b : list str) (fromfile tofile : str) (n : Z)
    (lineterm : str) : list str :=
  match get_grouped_opcodes (new a b) n with
  | [] => []
  | groups =>
      (u "--- " ++ fromfile ++ lineterm) :: (u "+++ " ++ tofile ++ lineterm)
        :: (g ← groups; hunk_lines a b lineterm g)
  end.

End difflib.

(** Lexicographic order of strings by code point, as [sorted] uses it. *)
Fixpoint str_leb (s t : str) : bool :=
  match s, t with
  | [], _ => true
  | _ :: _, [] => false
  | c :: s', d :: t' => (c <? d)%N || (N.eqb c d && str_leb s' t')
  end.

Definition str_le (s t : str) : Prop := str_leb s t = true.

#[export] Instance str_le_dec : RelDecision str_le.
Proof. intros s t; unfold str_le; apply _. Defined.

#[global] Typeclasses Opaque str_le.

(* ===================================================================== *)
(** * The program                                                         *)
(* ===================================================================== *)

Module App.

Inductive opkind := del | add | ctx.

#[global] Instance opkind_eq_dec : EqDecision opkind.
Proof. solve_decision. Defined.

(** The ["op"] entry of an operation as the record stores it *)
Definition op_name (k : opkind) : str :=
  match k with del => u "del" | add => u "add" | ctx => u "ctx" end.

Record operation := { op : opkind; text : str }.

Record hunk := {
  old_start : Z; old_len : Z; new_start : Z; new_len : Z;
  ops : list operation;
  old_snippet : str; new_snippet : str
}.

Record numeric_change := { key : str; old : PyFloat.float; new : PyFloat.float }.

Record heuristics := {
  risk_flags : list str;
  numeric_changes : list numeric_change;
  removed_keywords : list str;
  added_keywords : list str
}.

Record stats := {
  lines_left : Z; lines_right : Z;
  char_similarity : PyFloat.float;
  line_similarity : PyFloat.float;
  token_jaccard : PyFloat.float;
  percent_different_estimate : PyFloat.float
}.

Record source := { left_name : str; right_name : str }.

Record change_record := {
  id : str;
  rec_source : source;
  rec_stats : stats;
  unified_diff : str;
  hunks : list hunk;
  rec_heuristics : heuristics
}.

(** What [time.strftime] and [uuid.uuid4().hex] return at the moment of
    the call *)
Record clock_and_rng := { strftime_now : str; uuid4_hex : str }.

Definition no_differences : str := Eval vm_compute in u "(no differences)".
Definition hunk_mark : str := Eval vm_compute in u "@@ ".

Section WithTables.
Context {U : UnicodeData}.

Definition word_re : Re.regex := Re.Rep Re.word 1.   (* \w+ *)

Definition similarity_scores (a b : str)
  : PyFloat.float * PyFloat.float * PyFloat.float :=
  let sm_char := difflib.ratio (difflib.new a b) in
  let sm_line := difflib.ratio (difflib.new (Py.splitlines a) (Py.splitlines b)) in
  let toks_a : gset str := list_to_set (Re.findall word_re (uc_lower a)) in
  let toks_b : gset str := list_to_set (Re.findall word_re (uc_lower b)) in
  let jacc :=
    if bool_decide (toks_a ≠ ∅) || bool_decide (toks_b ≠ ∅)
    then PyFloat.of_ratio false (Z.of_nat (size (toks_a ∩ toks_b)))
                                (Z.of_nat (size (toks_a ∪ toks_b)))
    else PyFloat.of_int 1 in
  (sm_char, sm_line, jacc).

Definition to_lines (s : str) (strip_ws : bool) : list str :=
  if strip_ws then (fun line => Py.strip line ++ [LF]) <$> Py.splitlines s
  else (fun line => line ++ (if negb (Py.endswith [LF] line) then [LF] else []))
         <$> Py.splitlines s.

Definition unified_diff_text (left_lines right_lines : list str)
    (left_name right_name : str) (n_context : Z) : str :=
  match Py.join [LF] (difflib.unified_diff left_lines right_lines
                        left_name right_name n_context []) with
  | [] => no_differences
  | s => s
  end.

(** The pattern [@@ -(\d+),?(\d* ) \+(\d+),?(\d* ) @@] (the blank before
    each closing parenthesis is not part of it). *)
Definition hunk_header_re : Re.regex :=
  Re.Lit (u "@@ -") ⋅ Re.Group 1 (Re.Rep Re.digit 1) ⋅ Re.Opt (Re.Lit (u ","))
  ⋅ Re.Group 2 (Re.Rep Re.digit 0) ⋅ Re.Lit (u " +")
  ⋅ Re.Group 3 (Re.Rep Re.digit 1) ⋅ Re.Opt (Re.Lit (u ","))
  ⋅ Re.Group 4 (Re.Rep Re.digit 0) ⋅ Re.Lit (u " @@").

(** [int(s)] on the text of a group: [None] (no such group) is a
    [TypeError]; a text that is not a run of decimal digits is a
    [ValueError].  (Python's [int] accepts a sign, blanks and
    underscores as well; a [\d] group holds none of them.) *)
Definition int (s : option str) : Py.result Z :=
  match s with
  | None => Py.Raise Py.TypeError
  | Some [] => Py.Raise Py.ValueError
  | Some s => match Py.decimal_value 0 s with
              | Some n => Py.Ok n
              | None => Py.Raise Py.ValueError
              end
  end.

(** [x or "1"] for the text of a group *)
Definition or_one (s : option str) : option str :=
  match s with
  | None | Some [] => Some (u "1")
  | Some _ => s
  end.

Definition l_1 (l : str) : str := drop 1 l.   (* l[1:] *)

(** The inner loop of [parse_unified_diff]: the lines up to the next one
    that starts with ["@@ "]; returns the operations, the two buffers and
    the lines that are left. *)
Fixpoint hunk_body (lines : list str) (ops : list operation) (old_buf new_buf : list str)
  : list operation * list str * list str * list str :=
  match lines with
  | [] => (ops, old_buf, new_buf, [])
  | l :: lines' =>
      if Py.startswith hunk_mark l then (ops, old_buf, new_buf, lines)
      else if Py.startswith (u "-") l then
        hunk_body lines' (ops ++ [{| op := del; text := l_1 l |}]) (old_buf ++ [l_1 l]) new_buf
      else if Py.startswith (u "+") l then
        hunk_body lines' (ops ++ [{| op := add; text := l_1 l |}]) old_buf (new_buf ++ [l_1 l])
      else if Py.startswith (u " ") l then
        hunk_body lines' (ops ++ [{| op := ctx; text := l_1 l |}])
                  (old_buf ++ [l_1 l]) (new_buf ++ [l_1 l])
      else if Py.startswith (u "\ No newline at end of file") l then
        hunk_body lines' ops old_buf new_buf
      else hunk_body lines' ops old_buf new_buf
  end.

(** The outer loop; every pass takes at least one line, so one unit of
    fuel per line is enough. *)
Fixpoint parse_loop (fuel : nat) (lines : list str) (hunks : list hunk)
  : Py.result (list hunk) :=
  match fuel with
  | O => Py.Ok hunks
  | S f =>
      match lines with
      | [] => Py.Ok hunks
      | line :: lines' =>
          if Py.startswith hunk_mark line then
            match Re.match_ hunk_header_re line with
            | None => parse_loop f lines' hunks
            | Some m =>
                old_start ← int (Re.group m 1);
                old_len ← int (or_one (Re.group m 2));
                new_start ← int (Re.group m 3);
                new_len ← int (or_one (Re.group m 4));
                let '(ops, old_buf, new_buf, lines'') := hunk_body lines' [] [] [] in
                parse_loop f lines''
                  (hunks ++ [{| old_start := old_start; old_len := old_len;
                                new_start := new_start; new_len := new_len;
                                ops := ops;
                                old_snippet := Py.join [LF] old_buf;
                                new_snippet := Py.join [LF] new_buf |}])
            end
          else parse_loop f lines' hunks
      end
  end.

Definition parse_unified_diff (unified : str) : Py.result (list hunk) :=
  let lines := Py.splitlines unified in
  parse_loop (length lines) lines [].

(** [for x in l: ...] over a state, stopping at the first exception *)
Fixpoint for_each {X S} (l : list X) (s : S) (body : S -> X -> Py.result S)
  : Py.result S :=
  match l with
  | [] => Py.Ok s
  | x :: l' => s' ← body s x; for_each l' s' body
  end.

(** [_NUMERIC_ASSIGN_RE], the pattern
    [^\s*([A-Za-z_][A-Za-z0-9_]* )\s*=\s*(-?\d+(\.\d+)?)\s*(#.* )?$]
    (the blank before a closing parenthesis is not part of it). *)
Definition _NUMERIC_ASSIGN_RE : Re.regex :=
  let alpha_ := Re.union (Re.range 65 90) (Re.union (Re.range 97 122) (Re.one 95)) in
  let alnum_ := Re.union alpha_ (Re.range 48 57) in
  Re.Bol ⋅ Re.Rep Re.space 0
  ⋅ Re.Group 1 (Re.Set_ alpha_ ⋅ Re.Rep alnum_ 0)
  ⋅ Re.Rep Re.space 0 ⋅ Re.Lit (u "=") ⋅ Re.Rep Re.space 0
  ⋅ Re.Group 2 (Re.Opt (Re.Lit (u "-")) ⋅ Re.Rep Re.digit 1
                ⋅ Re.Opt (Re.Group 3 (Re.Lit (u ".") ⋅ Re.Rep Re.digit 1)))
  ⋅ Re.Rep Re.space 0
  ⋅ Re.Opt (Re.Group 4 (Re.Lit (u "#") ⋅ Re.Rep Re.dot 0))
  ⋅ Re.Eol.

(** [\blog\b|\blogger\b] and [\btodo\b|\bfixme\b] *)
Definition whole_word (w : str) : Re.regex :=
  Re.WordB Re.word ⋅ Re.Lit w ⋅ Re.WordB Re.word.
Definition logging_re : Re.regex := Re.Alt (whole_word (u "log")) (whole_word (u "logger")).
Definition todo_re : Re.regex := Re.Alt (whole_word (u "todo")) (whole_word (u "fixme")).

(** The text before the first point, and the text after it if there
    is a point *)
Fixpoint split_at_dot (s : str) : str * option str :=
  match s with
  | [] => ([], None)
  | c :: s' =>
      if N.eqb c 46 then ([], Some s')
      else let '(ip, fp) := split_at_dot s' in (c :: ip, fp)
  end.

(** [float(s)] on the text of a group: [None] is a [TypeError]; the
    numerals read are an optional minus, digits and an optional point
    with digits, and their value is the nearest double.  (Python's
    [float] reads more forms, exponents among them; group 2 of the
    pattern holds none of them.) *)
Definition float (s : option str) : Py.result PyFloat.float :=
  match s with
  | None => Py.Raise Py.TypeError
  | Some s =>
      let '(neg, body) := match s with
                          | c :: t => if N.eqb c 45 then (true, t) else (false, s)
                          | [] => (false, s)
                          end in
      let '(ip, fp) := split_at_dot body in
      let fp' := default [] fp in
      if bool_decide (ip = []) || bool_decide (fp = Some []) then Py.Raise Py.ValueError
      else match Py.decimal_value 0 (ip ++ fp') with
           | Some n => Py.Ok (PyFloat.of_ratio neg n (10 ^ Z.of_nat (length fp')))
           | None => Py.Raise Py.ValueError
           end
  end.

(** The four tests made on every operation of a hunk *)
Definition op_flags (o : operation) : list str :=
  let t := text o in
  (if bool_decide (op o = del) && Py.contains (u "try:") t
   then [u "removed_try_block"] else [])
  ++ (if bool_decide (op o = del) && Py.contains (u "assert ") t
      then [u "removed_assert"] else [])
  ++ (if bool_decide (op o = del) && bool_decide (is_Some (Re.search logging_re t))
      then [u "removed_logging"] else [])
  ++ (if bool_decide (op o = add) && bool_decide (is_Some (Re.search todo_re (uc_lower t)))
      then [u "todo_added"] else []).

(** The text of a group inside an f-string *)
Definition fmt (s : option str) : str := default (u "None") s.

(** The body of [for a in adds], for the deleted line's [key] and
    [old_val]; the state is [(risk_flags, numeric_changes)]. *)
Definition numeric_add (key_ : option str) (old_val : PyFloat.float)
    (st : list str * list numeric_change) (a : str)
  : Py.result (list str * list numeric_change) :=
  match Re.match_ _NUMERIC_ASSIGN_RE a with
  | Some ma =>
      if bool_decide (Re.group ma 1 = key_) then
        new_val ← float (Re.group ma 2);
        let numeric_changes :=
          st.2 ++ [{| key := fmt key_; old := old_val; new := new_val |}] in
        let risk_flags :=
          if PyFloat.ltb new_val old_val then st.1 ++ [u "reduced_" ++ fmt key_]
          else if PyFloat.ltb old_val new_val then st.1 ++ [u "increased_" ++ fmt key_]
          else st.1 in
        Py.Ok (risk_flags, numeric_changes)
      else Py.Ok st
  | None => Py.Ok st
  end.

(** The body of [for d in dels] *)
Definition numeric_del (adds : list str) (st : list str * list numeric_change) (d : str)
  : Py.result (list str * list numeric_change) :=
  match Re.match_ _NUMERIC_ASSIGN_RE d with
  | Some md =>
      let key_ := Re.group md 1 in
      old_val ← float (Re.group md 2);
      for_each adds st (numeric_add key_ old_val)
  | None => Py.Ok st
  end.

Definition texts_of (k : opkind) (h : hunk) : list str :=
  text <$> filter (fun o => op o = k) (ops h).

Definition has_password (t : str) : bool := Py.contains (u "password") (uc_lower t).

(** The body of [for h in hunks]; the state holds the four lists. *)
Definition scan_hunk (st : heuristics) (h : hunk) : Py.result heuristics :=
  let risk_flags_ := risk_flags st ++ (o ← ops h; op_flags o) in
  let dels := texts_of del h in
  let adds := texts_of add h in
  fn ← for_each dels (risk_flags_, numeric_changes st) (numeric_del adds);
  Py.Ok {| risk_flags := fn.1;
           numeric_changes := fn.2;
           removed_keywords := removed_keywords st ++ filter (fun t => has_password t) dels;
           added_keywords := added_keywords st ++ filter (fun t => has_password t) adds |}.

Definition simple_heuristics (hunks : list hunk) : Py.result heuristics :=
  st ← for_each hunks {| risk_flags := []; numeric_changes := [];
                         removed_keywords := []; added_keywords := [] |} scan_hunk;
  Py.Ok {| risk_flags := merge_sort str_le (remove_dups (risk_flags st));
           numeric_changes := numeric_changes st;
           removed_keywords := removed_keywords st;
           added_keywords := added_keywords st |}.

Definition make_change_record (env : clock_and_rng) (left_text right_text : str)
    (left_name right_name : str) (n_context : Z) (strip_ws : bool)
  : Py.result change_record :=
  let left_lines := to_lines left_text strip_ws in
  let right_lines := to_lines right_text strip_ws in
  let uni := unified_diff_text left_lines right_lines left_name right_name n_context in
  hunks ← parse_unified_diff uni;
  let '(sm_char, sm_line, jacc) := similarity_scores left_text right_text in
  heur ← simple_heuristics hunks;
  Py.Ok {|
    id := strftime_now env ++ u "_" ++ take 6 (uuid4_hex env);
    rec_source := {| left_name := left_name; right_name := right_name |};
    rec_stats := {|
      lines_left := Z.of_nat (length left_lines);
      lines_right := Z.of_nat (length right_lines);
      char_similarity := PyFloat.round sm_char 4;
      line_similarity := PyFloat.round sm_line 4;
      token_jaccard := PyFloat.round jacc 4;
      percent_different_estimate :=
        PyFloat.round (PyFloat.mul (PyFloat.sub (PyFloat.of_int 1) sm_char)
                                   (PyFloat.of_int 100)) 2 |};
    unified_diff := uni;
    hunks := hunks;
    rec_heuristics := heur |}.

End WithTables.
End App.

(* ===================================================================== *)
(** * [json.dumps] and the append-only file                               *)
(* ===================================================================== *)

(** [float.__repr__] is not reproduced; what is used of it is that, on
    a finite double, it prints a numeral: digits, a point, an exponent
    letter and signs. *)
Class FloatRepr := {
  float_repr : PyFloat.float -> str;
  float_repr_numeral :
    forall x c, PyFloat.is_finite x = true -> c ∈ float_repr x -> c ∈ u "0123456789.e+-"
}.

Module Json.

#[local] Set Warnings "-register-all".

Inductive value :=
| JNull
| JBool (b : bool)
| JInt (n : Z)
| JFloat (x : PyFloat.float)
| JStr (s : str)
| JList (l : list value)
| JDict (kv : list (str * value)).

Definition hex_digit (d : N) : char := (if d <? 10 then 48 + d else 87 + d)%N.

(** The replacement of one character inside a string, with
    [ensure_ascii=False]: the quote, the backslash and the control
    characters below 0x20 are escaped, every other character is kept. *)
Definition escape (c : char) : str :=
  if N.eqb c 34 then u "\" ++ [34%N]
  else if N.eqb c 92 then u "\\"
  else if N.eqb c 10 then u "\n"
  else if N.eqb c 13 then u "\r"
  else if N.eqb c 9 then u "\t"
  else if N.eqb c 8 then u "\b"
  else if N.eqb c 12 then u "\f"
  else if (c <? 32)%N then u "\u00" ++ [hex_digit (c / 16); hex_digit (c mod 16)]
  else [c].

Definition encode_str (s : str) : str := [34%N] ++ (c ← s; escape c) ++ [34%N].

Section Dumps.
Context {F : FloatRepr}.

Definition floatstr (x : PyFloat.float) : str :=
  match x with
  | S754_nan => u "NaN"
  | S754_infinity false => u "Infinity"
  | S754_infinity true => u "-Infinity"
  | _ => float_repr x
  end.

(** [json.dumps(v, ensure_ascii=False)]: items are separated by a comma
    and a blank, a key from its value by a colon and a blank. *)
Fixpoint dumps (v : value) : str :=
  match v with
  | JNull => u "null"
  | JBool true => u "true"
  | JBool false => u "false"
  | JInt n => Py.str_of_int n
  | JFloat x => floatstr x
  | JStr s => encode_str s
  | JList l => u "[" ++ Py.join (u ", ") (map dumps l) ++ u "]"
  | JDict kv =>
      u "{" ++ Py.join (u ", ")
                 (map (fun p => encode_str p.1 ++ u ": " ++ dumps p.2) kv) ++ u "}"
  end.

End Dumps.
End Json.

Module Io.

(** The files, and how the coming calls will end: [Some e] makes the
    next call fail with [e], whether the operating system refuses it or
    the text cannot be encoded.  The file holds text; its encoding is
    not modelled. *)
Record world := World { files : gmap str str; faults : list (option Py.exn) }.

Definition next_fault (w : world) : option Py.exn * world :=
  match faults w with
  | [] => (None, w)
  | f :: fs => (f, World (files w) fs)
  end.

(** [open(path, "a")]: the file is created when it does not exist. *)
Definition open_append (path : str) (w : world) : Py.result unit * world :=
  let '(f, w) := next_fault w in
  match f with
  | Some e => (Py.Raise e, w)
  | None => (Py.Ok tt, World (<[path := default [] (files w !! path)]> (files w)) (faults w))
  end.

(** [f.write(s)] on a file opened for appending *)
Definition write (path : str) (s : str) (w : world) : Py.result unit * world :=
  let '(f, w) := next_fault w in
  match f with
  | Some e => (Py.Raise e, w)
  | None =>
      (Py.Ok tt, World (<[path := default [] (files w !! path) ++ s]> (files w)) (faults w))
  end.

(** Leaving the [with] block closes the file; an error of the close
    takes the place of the outcome of the block. *)
Definition close (w : world) : Py.result unit * world :=
  let '(f, w) := next_fault w in
  match f with
  | Some e => (Py.Raise e, w)
  | None => (Py.Ok tt, w)
  end.

End Io.

Module Sink.
Section SaveJsonl.
Context {F : FloatRepr}.

(** [for r in records: f.write(json.dumps(r, ensure_ascii=False) + "\n")] *)
Fixpoint write_records (records : list (list (str * Json.value))) (path : str)
    (w : Io.world) : Py.result unit * Io.world :=
  match records with
  | [] => (Py.Ok tt, w)
  | r :: records' =>
      match Io.write path (Json.dumps (Json.JDict r) ++ [LF]) w with
      | (inl e, w) => (inl e, w)
      | (inr _, w) => write_records records' path w
      end
  end.

Definition save_jsonl (records : list (list (str * Json.value))) (path : str)
    (w : Io.world) : Py.result unit * Io.world :=
  match Io.open_append path w with
  | (inl e, w) => (inl e, w)
  | (inr _, w) =>
      let '(body, w) := write_records records path w in
      match Io.close w with
      | (inl e, w) => (inl e, w)
      | (inr _, w) => (body, w)
      end
  end.

End SaveJsonl.

(** The dictionary that [make_change_record] returns, as [json.dumps]
    sees it. *)
Definition hunk_dict (h : App.hunk) : Json.value :=
  Json.JDict [
    (u "old_start", Json.JInt (App.old_start h)); (u "old_len", Json.JInt (App.old_len h));
    (u "new_start", Json.JInt (App.new_start h)); (u "new_len", Json.JInt (App.new_len h));
    (u "ops", Json.JList (map (fun o => Json.JDict [
                 (u "op", Json.JStr (App.op_name (App.op o)));
                 (u "text", Json.JStr (App.text o))]) (App.ops h)));
    (u "old_snippet", Json.JStr (App.old_snippet h));
    (u "new_snippet", Json.JStr (App.new_snippet h))].

Definition record_dict (r : App.change_record) : list (str * Json.value) :=
  let st := App.rec_stats r in
  let he := App.rec_heuristics r in
  [ (u "id", Json.JStr (App.id r));
    (u "source", Json.JDict [
        (u "left_name", Json.JStr (App.left_name (App.rec_source r)));
        (u "right_name", Json.JStr (App.right_name (App.rec_source r)))]);
    (u "stats", Json.JDict [
        (u "lines_left", Json.JInt (App.lines_left st));
        (u "lines_right", Json.JInt (App.lines_right st));
        (u "char_similarity", Json.JFloat (App.char_similarity st));
        (u "line_similarity", Json.JFloat (App.line_similarity st));
        (u "token_jaccard", Json.JFloat (App.token_jaccard st));
        (u "percent_different_estimate", Json.JFloat (App.percent_different_estimate st))]);
    (u "unified_diff", Json.JStr (App.unified_diff r));
    (u "hunks", Json.JList (map hunk_dict (App.hunks r)));
    (u "heuristics", Json.JDict [
        (u "risk_flags", Json.JList (map Json.JStr (App.risk_flags he)));
        (u "numeric_changes",
           Json.JList (map (fun c => Json.JDict [
               (u "key", Json.JStr (App.key c));
               (u "old", Json.JFloat (App.old c));
               (u "new", Json.JFloat (App.new c))]) (App.numeric_changes he)));
        (u "removed_keywords", Json.JList (map Json.JStr (App.removed_keywords he)));
        (u "added_keywords", Json.JList (map Json.JStr (App.added_keywords he)))]) ].

End Sink.

(* ===================================================================== *)
(** * The text of an uploaded file                                        *)
(* ===================================================================== *)

(** [bytes.decode] and [str.encode] for the encodings the program names.
    A failed decoding or encoding ([UnicodeDecodeError],
    [UnicodeEncodeError]) is [None]. *)
Module Codec.

(** The bytes as numbers *)
Definition values (b : list Byte.byte) : list N := Byte.to_N <$> b.

(** A continuation byte *)
Definition cont (x : N) : bool := ((128 <=? x) && (x <=? 191))%N.

(** [b.decode("utf-8")]: the well-formed sequences of one to four bytes;
    forms longer than needed, surrogates and values above U+10FFFF are
    refused, as is a sequence cut short. *)
Fixpoint utf8_chars (bs : list N) : option str :=
  match bs with
  | [] => Some []
  | b0 :: r0 =>
      if (b0 <? 128)%N then cons b0 <$> utf8_chars r0
      else if ((194 <=? b0) && (b0 <=? 223))%N then
        match r0 with
        | b1 :: r1 =>
            if cont b1
            then cons ((b0 - 192) * 64 + (b1 - 128))%N <$> utf8_chars r1
            else None
        | _ => None
        end
      else if ((224 <=? b0) && (b0 <=? 239))%N then
        match r0 with
        | b1 :: b2 :: r2 =>
            if ((if N.eqb b0 224 then 160 else 128) <=? b1)%N
               && (b1 <=? (if N.eqb b0 237 then 159 else 191))%N && cont b2
            then cons ((b0 - 224) * 4096 + (b1 - 128) * 64 + (b2 - 128))%N
                   <$> utf8_chars r2
            else None
        | _ => None
        end
      else if ((240 <=? b0) && (b0 <=? 244))%N then
        match r0 with
        | b1 :: b2 :: b3 :: r3 =>
            if ((if N.eqb b0 240 then 144 else 128) <=? b1)%N
               && (b1 <=? (if N.eqb b0 244 then 143 else 191))%N
               && cont b2 && cont b3
            then cons ((b0 - 240) * 262144 + (b1 - 128) * 4096
                       + (b2 - 128) * 64 + (b3 - 128))%N <$> utf8_chars r3
            else None
        | _ => None
        end
      else None
  end.

Definition decode_utf8 (b : list Byte.byte) : option str := utf8_chars (values b).

(** The bytes of one character in UTF-8; a surrogate has none. *)
Definition utf8_bytes (c : char) : option (list N) :=
  if (c <? 128)%N then Some [c]
  else if (c <? 2048)%N then Some [192 + c / 64; 128 + c mod 64]%N
  else if (c <? 65536)%N then
    if ((55296 <=? c) && (c <=? 57343))%N then None
    else Some [224 + c / 4096; 128 + (c / 64) mod 64; 128 + c mod 64]%N
  else if (c <? 1114112)%N then
    Some [240 + c / 262144; 128 + (c / 4096) mod 64; 128 + (c / 64) mod 64;
          128 + c mod 64]%N
  else None.

(** [s.encode("utf-8")] *)
Definition encode_utf8 (s : str) : option (list Byte.byte) :=
  bs ← mapM utf8_bytes s; mapM Byte.of_N (mjoin bs).

(** The 16-bit units of a byte string, in one byte order or the other;
    a byte left over at the end is an error. *)
Fixpoint units (little : bool) (bs : list N) : option (list N) :=
  match bs with
  | [] => Some []
  | x :: r =>
      match r with
      | [] => None
      | y :: r' =>
          cons (if little then x + 256 * y else 256 * x + y)%N <$> units little r'
      end
  end.

Definition high_surrogate (w : N) : bool := ((55296 <=? w) && (w <=? 56319))%N.
Definition low_surrogate (w : N) : bool := ((56320 <=? w) && (w <=? 57343))%N.

(** The characters of a list of units: a high surrogate and the low
    surrogate after it make one character; a surrogate without its
    partner is an error. *)
Fixpoint utf16_chars (ws : list N) : option str :=
  match ws with
  | [] => Some []
  | w :: r =>
      if high_surrogate w then
        match r with
        | w2 :: r2 =>
            if low_surrogate w2
            then cons (65536 + (w - 55296) * 1024 + (w2 - 56320))%N <$> utf16_chars r2
            else None
        | [] => None
        end
      else if low_surrogate w then None
      else cons w <$> utf16_chars r
  end.

(** [b.decode("utf-16")]: a byte order mark at the start gives the byte
    order and is taken off; without one the byte order is that of the
    machine. *)
Definition decode_utf16 (little_endian : bool) (b : list Byte.byte) : option str :=
  let bs := values b in
  if bool_decide (take 2 bs = [255; 254]%N) then units true (drop 2 bs) ≫= utf16_chars
  else if bool_decide (take 2 bs = [254; 255]%N) then units false (drop 2 bs) ≫= utf16_chars
  else units little_endian bs ≫= utf16_chars.

(** [b.decode("latin-1")]: every byte is the character of its number. *)
Definition decode_latin1 (b : list Byte.byte) : option str := Some (values b).

(** What the program does not fix: the byte order of the machine, and
    [b.decode("utf-8", errors="ignore")], which is not reproduced. *)
Record platform := {
  little_endian : bool;
  utf8_ignore : list Byte.byte -> str
}.

Inductive encoding := utf_8 | utf_16 | latin_1.

Definition decode (p : platform) (enc : encoding) (b : list Byte.byte) : option str :=
  match enc with
  | utf_8 => decode_utf8 b
  | utf_16 => decode_utf16 (little_endian p) b
  | latin_1 => decode_latin1 b
  end.

End Codec.

Module Upload.

(** [for enc in encs: try: return b.decode(enc) except Exception: continue] *)
Fixpoint first_decoding (p : Codec.platform) (encs : list Codec.encoding)
    (b : list Byte.byte) : option str :=
  match encs with
  | [] => None
  | enc :: encs' =>
      match Codec.decode p enc b with
      | Some s => Some s
      | None => first_decoding p encs' b
      end
  end.

Definition read_bytes_as_text (p : Codec.platform) (b : list Byte.byte) : str :=
  match first_decoding p [Codec.utf_8; Codec.utf_16; Codec.latin_1] b with
  | Some s => s
  | None => Codec.utf8_ignore p b
  end.

End Upload.

(* ===================================================================== *)
(** * Notions that the statements and the proofs are written with         *)
(* ===================================================================== *)

Definition break_free (s : str) : Prop := Forall (fun c => Py.is_linebreak c = false) s.

(** Every line of [to_lines] is a break-free text closed by one newline. *)
Definition is_line (l : str) : Prop := exists c, l = c ++ [LF] /\ break_free c.

Section NumeralsNotions.
Context {U : UnicodeData}.

Definition digits (s : str) : Prop := Forall (fun c => Re.digit c = true) s.

(** The digits [0] to [9] *)
Definition ascii_digits (s : str) : Prop := Forall (fun c => (48 <= c <= 57)%N) s.

End NumeralsNotions.

(** [st'] is [st] moved over the text [x], with the groups [new] added. *)
Definition moved (st st' : Re.state) (x : str) (new : list (nat * str)) : Prop :=
  Re.rest st = x ++ Re.rest st' /\ Re.seen st' = rev x ++ Re.seen st /\
  Re.caps st' = new ++ Re.caps st.

Section ParserNotions.
Context {U : UnicodeData}.

(** One pass of the outer loop, fuel apart *)
Definition parse_step (line : str) (lines : list str) (hunks : list App.hunk)
  : Py.result (list str * list App.hunk) :=
  if Py.startswith App.hunk_mark line then
    match Re.match_ App.hunk_header_re line with
    | None => Py.Ok (lines, hunks)
    | Some m =>
        old_start ← App.int (Re.group m 1);
        old_len ← App.int (App.or_one (Re.group m 2));
        new_start ← App.int (Re.group m 3);
        new_len ← App.int (App.or_one (Re.group m 4));
        let '(ops, old_buf, new_buf, lines'') := App.hunk_body lines [] [] [] in
        Py.Ok (lines'',
               hunks ++ [{| App.old_start := old_start; App.old_len := old_len;
                            App.new_start := new_start; App.new_len := new_len;
                            App.ops := ops;
                            App.old_snippet := Py.join [LF] old_buf;
                            App.new_snippet := Py.join [LF] new_buf |}])
    end
  else Py.Ok (lines, hunks).

(** The parser on a list of lines, with enough fuel *)
Definition parse_lines (lines : list str) (hunks : list App.hunk) : Py.result (list App.hunk) :=
  App.parse_loop (length lines) lines hunks.

End ParserNotions.

Section HeuristicsTotalNotions.
Context {U : UnicodeData}.

(** The numbers of the groups of a pattern *)
Fixpoint groups_in (r : Re.regex) : list nat :=
  match r with
  | Re.Cat r1 r2 | Re.Alt r1 r2 => groups_in r1 ++ groups_in r2
  | Re.Opt r => groups_in r
  | Re.Group n r => n :: groups_in r
  | _ => []
  end.

(** The numerals that group 2 of the assignment pattern can hold *)
Definition numeral (t : str) : Prop :=
  exists x ds fr, t = x ++ ds ++ fr /\ (x = [] \/ x = u "-") /\ digits ds /\ ds <> [] /\
    (fr = [] \/ exists ds', fr = 46%N :: ds' /\ digits ds' /\ ds' <> []).

Definition numeral_re : Re.regex :=
  Re.Opt (Re.Lit (u "-")) ⋅ Re.Rep Re.digit 1
  ⋅ Re.Opt (Re.Group 3 (Re.Lit (u ".") ⋅ Re.Rep Re.digit 1)).

End HeuristicsTotalNotions.

Section IndexOfBNotions.
Context `{Countable A}.

(** The positions of [x] in [l], counted from [s] *)
Fixpoint positions (x : A) (l : list A) (s : Z) : list Z :=
  match l with
  | [] => []
  | y :: l' => if decide (x = y) then s :: positions x l' (s + 1)
               else positions x l' (s + 1)
  end.

End IndexOfBNotions.

Section LongestMatchNotions.
Context `{Countable A}.

(** [a[i] == b[j]], both in range *)
Definition eq_at (a b : list A) (i j : Z) : Prop :=
  exists x, difflib.item a i = Some x /\ difflib.item b j = Some x.

(** [a[i:i+k] == b[j:j+k]] with all positions in range *)
Definition is_match (a b : list A) (m : Z * Z * Z) : Prop :=
  let '(i, j, k) := m in 0 <= k /\ forall d, 0 <= d < k -> eq_at a b (i + d) (j + d).

Definition in_rect (r : Z * Z * Z * Z) (m : Z * Z * Z) : Prop :=
  let '(alo, ahi, blo, bhi) := r in
  let '(i, j, k) := m in alo <= i /\ i + k <= ahi /\ blo <= j /\ j + k <= bhi.

(** The entries of [j2len] after row [i]: a block of that length ends
    at [(i, j)]. *)
Definition row_ok (a b : list A) (alo blo bhi i : Z) (m : gmap Z Z) : Prop :=
  forall j k, m !! j = Some k ->
    1 <= k /\ j < bhi /\ in_rect (alo, i + 1, blo, bhi) (i - k + 1, j - k + 1, k)
    /\ is_match a b (i - k + 1, j - k + 1, k).

Definition b2j_sound (sm : @difflib.SequenceMatcher A _ _) : Prop :=
  forall (x : A) js j, difflib.b2j sm !! x = Some js -> j ∈ js ->
                 difflib.item (difflib.b sm) j = Some x.

End LongestMatchNotions.

Section MatchingBlocksNotions.
Context `{Countable A}.

Definition rect_of (m : Z * Z * Z) : Z * Z * Z * Z :=
  let '(i, j, k) := m in (i, i + k, j, j + k).

(** [r1] lies wholly before [r2], in [a] and in [b] *)
Definition before (r1 r2 : Z * Z * Z * Z) : Prop :=
  let '(_, ahi1, _, bhi1) := r1 in
  let '(alo2, _, blo2, _) := r2 in ahi1 <= alo2 /\ bhi1 <= blo2.

Definition apart (r1 r2 : Z * Z * Z * Z) : Prop := before r1 r2 \/ before r2 r1.

Definition within (r r' : Z * Z * Z * Z) : Prop :=
  let '(alo, ahi, blo, bhi) := r in
  let '(alo', ahi', blo', bhi') := r' in
  alo <= alo' /\ ahi' <= ahi /\ blo <= blo' /\ bhi' <= bhi.

Definition wf_rect (r : Z * Z * Z * Z) : Prop :=
  let '(alo, ahi, blo, bhi) := r in alo <= ahi /\ blo <= bhi.

Definition good_block (a b : list A) (m : Z * Z * Z) : Prop := 0 < m.2 /\ is_match a b m.

(** Any two ranges of the list are apart. *)
Definition all_apart (l : list (Z * Z * Z * Z)) : Prop := StronglySorted apart l.

(** Common blocks, each starting at or after [(i, j)] and after the one
    before it, none reaching beyond the ends of [a] and [b] *)
Fixpoint stair_from (a b : list A) (i j : Z) (l : list (Z * Z * Z)) : Prop :=
  match l with
  | [] => True
  | (ai, bj, sz) :: l' =>
      i <= ai /\ j <= bj /\
      ai + sz <= Z.of_nat (length a) /\ bj + sz <= Z.of_nat (length b) /\
      is_match a b (ai, bj, sz) /\ stair_from a b (ai + sz) (bj + sz) l'
  end.

End MatchingBlocksNotions.

Section OpcodesNotions.
Context `{Countable A}.

(** An opcode within the two sequences; an [equal] one spans a common
    block, a [delete] nothing of [b], an [insert] nothing of [a]. *)
Definition valid_op (a b : list A) (c : difflib.tag * Z * Z * Z * Z) : Prop :=
  let '(tg, i1, i2, j1, j2) := c in
  0 <= i1 <= i2 /\ i2 <= Z.of_nat (length a) /\
  0 <= j1 <= j2 /\ j2 <= Z.of_nat (length b) /\
  match tg with
  | difflib.equal =>
      i2 - i1 = j2 - j1 /\ forall d, 0 <= d < i2 - i1 -> eq_at a b (i1 + d) (j1 + d)
  | difflib.delete => j1 = j2
  | difflib.insert => i1 = i2
  | difflib.replace => True
  end.

Definition op_start (c : difflib.tag * Z * Z * Z * Z) : Z * Z := (c.1.1.1.2, c.1.2).

Definition op_end (c : difflib.tag * Z * Z * Z * Z) : Z * Z := (c.1.1.2, c.2).

(** Each opcode starts where the one before it ends. *)
Fixpoint contig (l : list (difflib.tag * Z * Z * Z * Z)) : Prop :=
  match l with
  | [] => True
  | c1 :: l' => match l' with
                | [] => True
                | c2 :: _ => op_end c1 = op_start c2 /\ contig l'
                end
  end.

(** A group: opcodes in a row *)
Definition good_group (a b : list A) (g : list (difflib.tag * Z * Z * Z * Z)) : Prop :=
  g <> [] /\ Forall (valid_op a b) g /\ contig g.

End OpcodesNotions.

Section DiffTextNotions.
Context {U : UnicodeData}.

(** A header line, or a line of a hunk: its kind and the text of the
    line it shows, without the newline. *)
Inductive dline := Hdr (h : str) | Body (k : App.opkind) (c : str).

Definition marker (k : App.opkind) : char :=
  match k with App.del => 45%N | App.add => 43%N | App.ctx => 32%N end.

Definition render (d : dline) : str :=
  match d with
  | Hdr h => h
  | Body k c => marker k :: c ++ [LF]
  end.

Definition dline_ok (d : dline) : Prop :=
  match d with
  | Hdr h => break_free h /\ h <> []
  | Body k c => break_free c
  end.

(** What [splitlines] makes of the joined lines: the newline that ends
    the line of a hunk gives an empty line, except at the very end. *)
Fixpoint simage (ds : list dline) : list str :=
  match ds with
  | [] => []
  | d :: ds' =>
      match d with
      | Hdr h => [h]
      | Body k c => (marker k :: c) :: match ds' with [] => [] | _ :: _ => [[]] end
      end ++ simage ds'
  end.

Definition op_of (d : dline) : list App.operation :=
  match d with
  | Body k c => [{| App.op := k; App.text := c |}]
  | Hdr _ => []
  end.

Definition old_of (d : dline) : list str :=
  match d with
  | Body App.del c | Body App.ctx c => [c]
  | _ => []
  end.

Definition new_of (d : dline) : list str :=
  match d with
  | Body App.add c | Body App.ctx c => [c]
  | _ => []
  end.

Definition is_body (d : dline) : Prop := match d with Body _ _ => True | Hdr _ => False end.

(** Nothing, or lines that begin with a hunk header *)
Definition at_header (ds : list dline) : Prop :=
  match ds with
  | [] => True
  | Hdr h :: _ => Py.startswith App.hunk_mark h = true
  | Body _ _ :: _ => False
  end.

End DiffTextNotions.

Section HunkHeaderNotions.
Context {U : UnicodeData}.

Definition comma (c : bool) : str := if c then u "," else [].

(** The start and the length that a printed range stands for *)
Definition range_start (start stop : Z) : Z :=
  if stop - start =? 0 then start else start + 1.

End HunkHeaderNotions.

Section GroupTextNotions.
Context {U : UnicodeData}.

(** A line without the newline that ends it *)
Definition chop_newline (l : str) : str :=
  if Py.endswith [LF] l then take (length l - 1) l else l.

(** The lines of a hunk that one opcode stands for *)
Definition op_dlines (a b : list str) (c : difflib.tag * Z * Z * Z * Z) : list dline :=
  let '(tg, i1, i2, j1, j2) := c in
  match tg with
  | difflib.equal => (fun l => Body App.ctx (chop_newline l)) <$> Py.slice a i1 i2
  | _ =>
      (if bool_decide (tg ∈ [difflib.replace; difflib.delete])
       then (fun l => Body App.del (chop_newline l)) <$> Py.slice a i1 i2 else [])
      ++
      (if bool_decide (tg ∈ [difflib.replace; difflib.insert])
       then (fun l => Body App.add (chop_newline l)) <$> Py.slice b j1 j2 else [])
  end.

End GroupTextNotions.

Section GroupsToHunksNotions.
Context {U : UnicodeData}.

(** The header that [unified_diff] prints for a group *)
Definition group_header (g : list (difflib.tag * Z * Z * Z * Z)) : str :=
  match head g, last g with
  | Some c0, Some cl =>
      u "@@ -" ++ difflib._format_range_unified (op_start c0).1 (op_end cl).1
        ++ u " +" ++ difflib._format_range_unified (op_start c0).2 (op_end cl).2
        ++ u " @@" ++ []
  | _, _ => []
  end.

(** The lines of a group: its header, then what its opcodes stand for *)
Definition group_dlines (a b : list str) (g : list (difflib.tag * Z * Z * Z * Z))
  : list dline :=
  match g with
  | [] => []
  | _ :: _ => Hdr (group_header g) :: (g ≫= op_dlines a b)
  end.

(** The hunk that the parser makes of a group *)
Definition hunk_of (a b : list str) (g : list (difflib.tag * Z * Z * Z * Z))
  : list App.hunk :=
  match head g, last g with
  | Some c0, Some cl =>
      [{| App.old_start := range_start (op_start c0).1 (op_end cl).1;
          App.old_len := (op_end cl).1 - (op_start c0).1;
          App.new_start := range_start (op_start c0).2 (op_end cl).2;
          App.new_len := (op_end cl).2 - (op_start c0).2;
          App.ops := (g ≫= op_dlines a b) ≫= op_of;
          App.old_snippet := Py.join [LF] ((g ≫= op_dlines a b) ≫= old_of);
          App.new_snippet := Py.join [LF] ((g ≫= op_dlines a b) ≫= new_of) |}]
  | _, _ => []
  end.

(** The lines of the two file names in the text of a diff, as the parser
    sees them *)
Definition file_lines (left_name right_name : str) : list str :=
  Py.splitlines (Py.join [LF] [u "--- " ++ left_name; u "+++ " ++ right_name]).

End GroupsToHunksNotions.

Section RecordNotions.
Context {U : UnicodeData}.

(** [lines[start-1 : start-1+len]], the lines that a hunk header names *)
Definition span (lines : list str) (start len : Z) : list str :=
  take (Z.to_nat len) (drop (Z.to_nat (start - 1)) lines).

(** The texts of the operations of a hunk that have one of the kinds *)
Definition side_texts (ks : list App.opkind) (h : App.hunk) : list str :=
  App.text <$> filter (fun o => App.op o ∈ ks) (App.ops h).

(** What the documentation says of the snippets of one hunk *)
Definition snippets_are_spans (left_lines right_lines : list str) (h : App.hunk) : Prop :=
  App.old_snippet h = Py.join [LF] (side_texts [App.ctx; App.del] h) /\
  side_texts [App.ctx; App.del] h
    = chop_newline <$> span left_lines (App.old_start h) (App.old_len h) /\
  App.new_snippet h = Py.join [LF] (side_texts [App.ctx; App.add] h) /\
  side_texts [App.ctx; App.add] h
    = chop_newline <$> span right_lines (App.new_start h) (App.new_len h).

End RecordNotions.

Section SelfCompareNotions.
Context `{Countable A}.

(** An element that [__chain_b] has kept *)
Definition live (a : list A) (x : A) : bool :=
  bool_decide (is_Some (difflib.chain_b a !! x)).

(** The number of kept elements in a row that end at position [i] *)
Fixpoint run_to (a : list A) (i : nat) : Z :=
  match a !! i with
  | Some x =>
      if live a x then 1 + match i with O => 0 | S i' => run_to a i' end else 0
  | None => 0
  end.

Definition run (a : list A) (i : Z) : Z :=
  if i <? 0 then 0 else run_to a (Z.to_nat i).

(** What holds of the best block when [a] is compared with itself: it
    lies on the diagonal, ends before [lim], and is as long as the runs
    that end before [upto]. *)
Definition diag_best (a : list A) (lim upto : Z) (best : Z * Z * Z) : Prop :=
  let '(bi, bj, bk) := best in
  bi = bj /\ 0 <= bi /\ 0 <= bk /\ bi + bk <= lim /\
  forall j, 0 <= j < upto -> run a j <= bk.

(** What holds of row [i] of the lengths *)
Definition diag_row (a : list A) (i : Z) (row : gmap Z Z) : Prop :=
  forall j, default 0 (row !! j) <= run a j /\ default 0 (row !! j) <= run a i.

End SelfCompareNotions.


(** A clock and a source of identifiers, for the examples *)
Definition env0 : App.clock_and_rng :=
  {| App.strftime_now := u "20240101_120000";
     App.uuid4_hex := u "0123456789abcdef0123456789abcdef" |}.

(** A left file name of three lines, the second of which reads as the
    header of a hunk *)
Definition header_in_name : str :=
  u "x" ++ [LF] ++ u "@@ -1 +1 @@" ++ [LF] ++ u "-zzz".



(** The line that an operation was read from: its marker, then its text *)
Definition marked_line (o : App.operation) : str := marker (App.op o) :: App.text o.

(** A diff of one hunk, the lines of which are parted by an empty line *)
Definition small_diff : str :=
  u "@@ -3 +4,2 @@" ++ [LF] ++ u "-a" ++ [LF] ++ [LF] ++ u "+b" ++ [LF].

(** A hunk in which [max_retries = 5] is deleted and [max_retries = 2]
    is added *)
Definition retries_hunk : App.hunk :=
  {| App.old_start := 1; App.old_len := 1; App.new_start := 1; App.new_len := 1;
     App.ops := [{| App.op := App.del; App.text := u "max_retries = 5" |};
                 {| App.op := App.add; App.text := u "max_retries = 2" |}];
     App.old_snippet := u "max_retries = 5";
     App.new_snippet := u "max_retries = 2" |}.

Section NumericChangesNotions.
Context {U : UnicodeData}.

(** The documented rule, in its own words.  A line that matches the
    numeric-assignment pattern has an identifier and a value: *)
Definition assignment (t : str) : option (str * PyFloat.float) :=
  match Re.match_ App._NUMERIC_ASSIGN_RE t with
  | Some m =>
      match Re.group m 1, App.float (Re.group m 2) with
      | Some k, inr v => Some (k, v)
      | _, _ => None
      end
  | None => None
  end.

(** The entry for a deleted line with identifier [k] and value [old_] and
    an added line, if that line assigns to [k] as well *)
Definition pair_with (k : str) (old_ : PyFloat.float) (a : str) : list App.numeric_change :=
  match assignment a with
  | Some (k', new_) =>
      if decide (k' = k) then [{| App.key := k; App.old := old_; App.new := new_ |}] else []
  | None => []
  end.

(** Every deleted line with every added line of the hunk *)
Definition numeric_pairs (h : App.hunk) : list App.numeric_change :=
  d ← App.texts_of App.del h;
  match assignment d with
  | Some (k, old_) => a ← App.texts_of App.add h; pair_with k old_ a
  | None => []
  end.

Definition direction_flag (c : App.numeric_change) : list str :=
  if PyFloat.ltb (App.new c) (App.old c) then [u "reduced_" ++ App.key c]
  else if PyFloat.ltb (App.old c) (App.new c) then [u "increased_" ++ App.key c]
  else [].

(** The flags that a hunk gives rise to, in the order of the code *)
Definition hunk_flags (h : App.hunk) : list str :=
  (App.ops h ≫= App.op_flags) ++ (numeric_pairs h ≫= direction_flag).

(** The entries that a deleted line gives *)
Definition pairs_of_del (adds : list str) (d : str) : list App.numeric_change :=
  match assignment d with
  | Some (k, old_) => adds ≫= pair_with k old_
  | None => []
  end.

End NumericChangesNotions.

(** The documented rule, in its own words: the maximal runs of characters of a
    class; [cur] is the run that is being read. *)
Fixpoint runs_from (p : char -> bool) (cur : str) (s : str) : list str :=
  match s with
  | [] => match cur with [] => [] | _ :: _ => [cur] end
  | c :: s' =>
      if p c then runs_from p (cur ++ [c]) s'
      else match cur with [] => [] | _ :: _ => [cur] end ++ runs_from p [] s'
  end.

Definition maximal_runs (p : char -> bool) (s : str) : list str := runs_from p [] s.

Section TokensNotions.
Context {U : UnicodeData}.

(** The tokens of a text: the runs of word characters of its lowercase *)
Definition tokens (s : str) : gset str :=
  list_to_set (maximal_runs Re.word (uc_lower s)).

End TokensNotions.

(** The digits after the point of [r / den], [k] of them *)
Fixpoint frac_digits (k : nat) (r den : Z) : str :=
  match k with
  | O => []
  | S k' => Py.digit_char (10 * r / den) :: frac_digits k' (10 * r mod den) den
  end.

(** The decimal expansion of a double, which is finite.  (Python prints
    the shortest numeral that reads back as the double; the examples
    below print no double.) *)
Definition decimal_repr (x : PyFloat.float) : str :=
  match x with
  | S754_zero s => (if s then u "-" else []) ++ u "0.0"
  | S754_finite s m e =>
      (if s then u "-" else []) ++
      (if 0 <=? e then Py.str_of_int (Z.pos m * 2 ^ e) ++ u ".0"
       else Py.str_of_int (Z.pos m / 2 ^ (- e)) ++ u "."
            ++ frac_digits (Z.to_nat (- e)) (Z.pos m mod 2 ^ (- e)) (2 ^ (- e)))
  | S754_infinity s => (if s then u "-" else []) ++ u "inf"
  | S754_nan => u "nan"
  end.

(** The line that [save_jsonl] writes for a record *)
Definition jsonl_line `{FloatRepr} (r : list (str * Json.value)) : str :=
  Json.dumps (Json.JDict r) ++ [LF].

(** Two records, the second with a letter outside ASCII *)
Definition two_records : list (list (str * Json.value)) :=
  [[(u "a", Json.JInt 1)]; [(u "b", Json.JStr [233%N])]].

Definition empty_world : Io.world := Io.World ∅ [].

Section JsonlNotions.
Context {F : FloatRepr}.


Definition quiet (n : nat) (w : Io.world) : Prop :=
  Forall (fun f => f = None) (take n (Io.faults w)).

End JsonlNotions.

Section ParsedHunksNotions.
Context {U : UnicodeData}.

(** The four numbers that a header line gives *)
Definition header_numbers (line : str) : option (Z * Z * Z * Z) :=
  match Re.match_ App.hunk_header_re line with
  | Some m =>
      match App.int (Re.group m 1), App.int (App.or_one (Re.group m 2)),
            App.int (Re.group m 3), App.int (App.or_one (Re.group m 4)) with
      | inr a, inr b, inr c, inr d => Some (a, b, c, d)
      | _, _, _, _ => None
      end
  | None => None
  end.


(** The hunk that a header with the numbers [n] and the lines after it make *)
Definition hunk_with (n : Z * Z * Z * Z) (lines : list str) : App.hunk :=
  {| App.old_start := n.1.1.1; App.old_len := n.1.1.2;
     App.new_start := n.1.2; App.new_len := n.2;
     App.ops := (App.hunk_body lines [] [] []).1.1.1;
     App.old_snippet := Py.join [LF] (App.hunk_body lines [] [] []).1.1.2;
     App.new_snippet := Py.join [LF] (App.hunk_body lines [] [] []).1.2 |}.


End ParsedHunksNotions.

(** A diff of one hunk whose header leaves out the first length *)
Definition one_hunk_diff : str := u "@@ -3 +4,2 @@" ++ [LF] ++ u "-a" ++ [LF] ++ u "+b".

(** The hunk of that diff *)
Definition one_hunk : App.hunk :=
  {| App.old_start := 3; App.old_len := 1; App.new_start := 4; App.new_len := 2;
     App.ops := [{| App.op := App.del; App.text := u "a" |};
                 {| App.op := App.add; App.text := u "b" |}];
     App.old_snippet := u "a"; App.new_snippet := u "b" |}.

Section HeuristicsReadNotions.
Context {U : UnicodeData}.

(** The texts of the deleted lines and of the added lines of a hunk *)
Definition changed_texts (h : App.hunk) : list str * list str :=
  (App.texts_of App.del h, App.texts_of App.add h).

(** The keyword lines among some texts *)
Definition keyword_lines (ts : list str) : list str :=
  filter (fun t => App.has_password t) ts.

(** The flags that the deleted texts [p.1] and the added texts [p.2]
    of a hunk give rise to *)
Definition flags_of_texts (p : list str * list str) : list str :=
  (p.1 ≫= fun t => App.op_flags {| App.op := App.del; App.text := t |})
  ++ (p.2 ≫= fun t => App.op_flags {| App.op := App.add; App.text := t |})
  ++ ((p.1 ≫= pairs_of_del p.2) ≫= direction_flag).

End HeuristicsReadNotions.

(** The hunk [one_hunk] at another place, with a context line, and its
    added line before its deleted line *)
Definition one_hunk_moved : App.hunk :=
  {| App.old_start := 7; App.old_len := 2; App.new_start := 9; App.new_len := 2;
     App.ops := [{| App.op := App.add; App.text := u "b" |};
                 {| App.op := App.ctx; App.text := u "password" |};
                 {| App.op := App.del; App.text := u "a" |}];
     App.old_snippet := []; App.new_snippet := [] |}.

Section ScoresNotions.
Context {U : UnicodeData}.

(** [set(re.findall(r"\w+", s.lower()))] *)
Definition token_set (s : str) : gset str :=
  list_to_set (Re.findall App.word_re (uc_lower s)).

End ScoresNotions.

Section DifferentSequencesNotions.
Context `{Countable A}.



End DifferentSequencesNotions.

(** Two lines, with the line ends of one system and of another *)
Definition crlf_text : str := u "x" ++ [CR; LF] ++ u " y" ++ [CR; LF].

Definition lf_text : str := u "x " ++ [LF] ++ u "y".


(** A text with letters of two, three and four bytes *)
Definition accented_text : str := [99; 233; 8364; 128512]%N.

Definition this_machine : Codec.platform :=
  {| Codec.little_endian := true; Codec.utf8_ignore := fun _ => [] |}.

(** The Latin-1 bytes of an accented letter alone, and followed by [A] *)
Definition one_latin1_byte : list Byte.byte := [Byte.xe9].

Definition two_latin1_bytes : list Byte.byte := [Byte.xe9; Byte.x41].

Section HunksOfRecordNotions.
Context {U : UnicodeData}.

(** The header of a hunk counts the operations of the hunk and names
    lines that the two sides have. *)
Definition header_counts (left_lines right_lines : Z) (h : App.hunk) : Prop :=
  App.old_len h = Z.of_nat (length (side_texts [App.ctx; App.del] h)) /\
  App.new_len h = Z.of_nat (length (side_texts [App.ctx; App.add] h)) /\
  0 <= App.old_start h /\ (0 < App.old_len h -> 1 <= App.old_start h) /\
  App.old_start h + App.old_len h <= left_lines + 1 /\
  0 <= App.new_start h /\ (0 < App.new_len h -> 1 <= App.new_start h) /\
  App.new_start h + App.new_len h <= right_lines + 1.

End HunksOfRecordNotions.

Section OrderedGroupsNotions.
Context `{Countable A}.

(** The group [g] ends before the place [p], in both sequences. *)
Definition ends_before (p : Z * Z) (g : list (difflib.tag * Z * Z * Z * Z)) : Prop :=
  forall c, last g = Some c -> (op_end c).1 < p.1 /\ (op_end c).2 < p.2.

(** The group [g] ends before the group [g'] starts. *)
Definition group_before (g g' : list (difflib.tag * Z * Z * Z * Z)) : Prop :=
  forall c', head g' = Some c' -> ends_before (op_start c') g.

End OrderedGroupsNotions.

Section OrderedHunksNotions.
Context {U : UnicodeData}.

(** The lines that [h] names come before the lines that [h'] names, on
    both sides. *)
Definition hunk_before (h h' : App.hunk) : Prop :=
  App.old_start h + App.old_len h <= App.old_start h' /\
  App.new_start h + App.new_len h <= App.new_start h'.

End OrderedHunksNotions.

(** Two texts of seven lines that differ in the first and in the last *)
Definition first_and_last_left : str :=
  Py.join [LF] [u "a"; u "1"; u "2"; u "3"; u "4"; u "5"; u "z"].

Definition first_and_last_right : str :=
  Py.join [LF] [u "b"; u "1"; u "2"; u "3"; u "4"; u "5"; u "y"].

(* ===================================================================== *)
(** * Proofs                                                              *)
(* ===================================================================== *)

#[local] Set Warnings "-clear-no-such-hyp".

(* ===================================================================== *)
(** * Strings and lines                                                   *)
(* ===================================================================== *)

Section TextAndPatterns.

#[local] Arguments N.eqb : simpl never.
#[local] Arguments N.leb : simpl never.
#[local] Arguments N.ltb : simpl never.

Section StringFacts.

Lemma startswith_spec (p s : str) :
  Py.startswith p s = true <-> exists t, s = p ++ t.
Proof.
  revert s; induction p as [|a p IH]; intros s; simpl.
  - split; [intros _; by exists s | done].
  - destruct s as [|b s]; simpl.
    + split; [done | intros [t Ht]; discriminate].
    + rewrite andb_true_iff, N.eqb_eq, IH. split.
      * intros [-> [t ->]]. by exists t.
      * intros [t Ht]. injection Ht as -> ->. eauto.
Qed.

Lemma startswith_app (p t : str) : Py.startswith p (p ++ t) = true.
Proof. apply startswith_spec; eauto. Qed.

Lemma startswith_nil (p : str) : p <> [] -> Py.startswith p [] = false.
Proof. by destruct p. Qed.

Lemma splitlines_cons_plain (c : char) (s : str) :
  Py.is_linebreak c = false ->
  Py.splitlines (c :: s) =
    match Py.splitlines s with [] => [[c]] | l :: ls => (c :: l) :: ls end.
Proof. intros Hc; simpl; by rewrite Hc. Qed.

Lemma splitlines_LF (s : str) : Py.splitlines (LF :: s) = [] :: Py.splitlines s.
Proof. reflexivity. Qed.

(** A text without line breaks, closed by a newline, is the first line. *)
Lemma splitlines_line (x y : str) :
  break_free x -> Py.splitlines (x ++ LF :: y) = x :: Py.splitlines y.
Proof.
  induction 1 as [|c x Hc Hx IH]; [apply splitlines_LF|].
  change ((c :: x) ++ LF :: y) with (c :: (x ++ LF :: y)).
  rewrite splitlines_cons_plain, IH; done.
Qed.

Lemma splitlines_plain (x : str) :
  break_free x -> x <> [] -> Py.splitlines x = [x].
Proof.
  induction 1 as [|c x Hc Hx IH]; [done|]; intros _.
  rewrite splitlines_cons_plain by done.
  destruct x as [|d x]; [done|]. rewrite IH; done.
Qed.

Lemma splitlines_break_free (s : str) : Forall break_free (Py.splitlines s).
Proof.
  induction s as [s IH] using (induction_ltof1 _ (@length N)); unfold ltof in IH.
  destruct s as [|c s]; simpl; [constructor|].
  destruct (Py.is_linebreak c) eqn:Hc.
  - constructor; [constructor|].
    destruct (N.eqb c CR); [|apply IH; simpl; lia].
    destruct s as [|c' s']; [constructor|].
    destruct (N.eqb c' LF); apply IH; simpl; lia.
  - pose proof (IH s ltac:(simpl; lia)) as Hs.
    destruct (Py.splitlines s) as [|l ls]; [repeat constructor; done|].
    inversion Hs; subst. constructor; [by constructor | done].
Qed.

Lemma break_free_app (x y : str) : break_free x -> break_free y -> break_free (x ++ y).
Proof. apply Forall_app_2. Qed.

Lemma lstrip_suffix (s : str) : Py.lstrip s `suffix_of` s.
Proof.
  induction s as [|c s IH]; simpl; [done|].
  destruct (Py.isspace c); [by apply suffix_cons_r | done].
Qed.

Lemma break_free_lstrip (s : str) : break_free s -> break_free (Py.lstrip s).
Proof.
  intros Hs. destruct (lstrip_suffix s) as [k Hk].
  rewrite Hk in Hs. by apply Forall_app in Hs as [_ ?].
Qed.

Lemma break_free_strip (s : str) : break_free s -> break_free (Py.strip s).
Proof.
  intros Hs. unfold Py.strip, break_free.
  apply Forall_rev, break_free_lstrip, Forall_rev, break_free_lstrip, Hs.
Qed.

Lemma endswith_LF_break_free (x : str) : break_free x -> Py.endswith [LF] x = false.
Proof.
  intros Hx. unfold Py.endswith. simpl.
  apply Forall_rev in Hx. destruct (rev x) as [|c r]; [done|].
  inversion Hx as [|?? Hc _]; subst. simpl.
  destruct (N.eqb_spec LF c) as [<-|]; [discriminate Hc | done].
Qed.

Lemma to_lines_lines `{UnicodeData} (s : str) (strip_ws : bool) :
  Forall is_line (App.to_lines s strip_ws).
Proof.
  unfold App.to_lines. pose proof (splitlines_break_free s) as Hs.
  destruct strip_ws; apply Forall_fmap; eapply Forall_impl; try exact Hs;
    intros l Hl; simpl.
  - exists (Py.strip l). split; [done | by apply break_free_strip].
  - exists l. rewrite endswith_LF_break_free by done. done.
Qed.

Lemma join_cons (sep l : str) (ls : list str) :
  ls <> [] -> Py.join sep (l :: ls) = l ++ sep ++ Py.join sep ls.
Proof. by destruct ls. Qed.

Lemma join_singleton (sep l : str) : Py.join sep [l] = l.
Proof. done. Qed.

End StringFacts.

(* ===================================================================== *)
(** * Decimal numerals                                                    *)
(* ===================================================================== *)

Section Numerals.
Context {U : UnicodeData}.

Lemma decimal_value_app (v : Z) (x y : str) :
  Py.decimal_value v (x ++ y) = Py.decimal_value v x ≫= fun v' => Py.decimal_value v' y.
Proof.
  revert v; induction x as [|c x IH]; intros v; simpl; [done|].
  destruct (uc_decimal c); [apply IH | done].
Qed.

Lemma decimal_value_digits (v : Z) (s : str) :
  digits s -> is_Some (Py.decimal_value v s).
Proof.
  intros Hs; revert v; induction Hs as [|c s Hc _ IH]; intros v; simpl; [eauto|].
  unfold Re.digit, Py.isdecimal in Hc. destruct (uc_decimal c); [apply IH | done].
Qed.

Lemma decimal_digit_char (d : Z) :
  0 <= d <= 9 -> uc_decimal (Py.digit_char d) = Some d.
Proof.
  intros Hd. unfold Py.digit_char. rewrite uc_decimal_ascii by lia.
  unfold ascii_decimal.
  replace ((48 <=? Z.to_N (48 + d))%N && (Z.to_N (48 + d) <=? 57)%N) with true.
  - f_equal. lia.
  - symmetry. apply andb_true_iff. split; apply N.leb_le; lia.
Qed.

Lemma ascii_not_digit (c : char) :
  (c < 48)%N -> Re.digit c = false.
Proof.
  intros Hc. unfold Re.digit, Py.isdecimal. rewrite uc_decimal_ascii by lia.
  unfold ascii_decimal. replace (48 <=? c)%N with false; [done|].
  symmetry. apply N.leb_gt. lia.
Qed.

Lemma ascii_digits_digits (s : str) : ascii_digits s -> digits s.
Proof.
  intros Hs. eapply Forall_impl; [exact Hs|]. intros c Hc. simpl in Hc.
  unfold Re.digit, Py.isdecimal. rewrite uc_decimal_ascii by lia.
  unfold ascii_decimal.
  replace ((48 <=? c)%N && (c <=? 57)%N) with true; [done|].
  symmetry. apply andb_true_iff. split; apply N.leb_le; lia.
Qed.

Lemma ascii_digit_char (d : Z) : 0 <= d <= 9 -> (48 <= Py.digit_char d <= 57)%N.
Proof. unfold Py.digit_char. lia. Qed.

Lemma digits_of_spec (f : nat) (n : Z) (acc : str) :
  0 <= n < 2 ^ Z.of_nat (S f) ->
  exists ds, Py.digits_of (S f) n acc = ds ++ acc /\ ascii_digits ds /\ ds <> [] /\
             forall v, Py.decimal_value v ds = Some (v * 10 ^ Z.of_nat (length ds) + n).
Proof.
  revert n acc; induction f as [|f IH]; intros n acc Hn.
  - assert (n = 0 \/ n = 1) as Hn' by (change (2 ^ Z.of_nat 1) with 2 in Hn; lia).
    exists [Py.digit_char n]. repeat split; try done.
    + destruct Hn' as [-> | ->]; reflexivity.
    + apply Forall_singleton. apply ascii_digit_char. lia.
    + intros v. simpl. rewrite decimal_digit_char by lia. f_equal. simpl. lia.
  - cbn [Py.digits_of]. destruct (Z.ltb_spec n 10) as [Hlt | Hge].
    + exists [Py.digit_char (n mod 10)]. repeat split; try done.
      * apply Forall_singleton. apply ascii_digit_char. rewrite Z.mod_small; lia.
      * intros v. simpl. rewrite decimal_digit_char by (rewrite Z.mod_small; lia).
        rewrite Z.mod_small by lia. f_equal. lia.
    + assert (0 <= n / 10 < 2 ^ Z.of_nat (S f)) as Hq.
      { split; [apply Z.div_pos; lia|].
        apply Z.div_lt_upper_bound; [lia|].
        replace (Z.of_nat (S (S f))) with (Z.of_nat (S f) + 1) in Hn by lia.
        rewrite Z.pow_add_r in Hn by lia. lia. }
      destruct (IH (n / 10) (Py.digit_char (n mod 10) :: acc) Hq)
        as (ds & Hds & Hdig & Hne & Hval).
      exists (ds ++ [Py.digit_char (n mod 10)]).
      assert (0 <= n mod 10 <= 9) as Hm by (pose proof (Z.mod_pos_bound n 10); lia).
      repeat split.
      * change (Py.digits_of (S f) (n / 10) (Py.digit_char (n mod 10) :: acc) =
                (ds ++ [Py.digit_char (n mod 10)]) ++ acc).
        rewrite Hds, <- app_assoc. done.
      * apply Forall_app; split; [done|]. apply Forall_singleton.
        by apply ascii_digit_char.
      * by destruct ds.
      * intros v. rewrite decimal_value_app, Hval. simpl.
        rewrite decimal_digit_char by done. f_equal.
        rewrite length_app. simpl length.
        replace (Z.of_nat (length ds + 1)) with (Z.of_nat (length ds) + 1) by lia.
        rewrite Z.pow_add_r by lia.
        pose proof (Z.div_mod n 10 ltac:(lia)). lia.
Qed.

(** The decimal numeral of a number that is not negative: digits only,
    at least one, and [int] reads the number back. *)
Lemma str_of_int_nonneg (n : Z) :
  0 <= n ->
  ascii_digits (Py.str_of_int n) /\ Py.str_of_int n <> [] /\
  Py.decimal_value 0 (Py.str_of_int n) = Some n.
Proof.
  intros Hn. unfold Py.str_of_int.
  destruct (Z.ltb_spec n 0) as [|_]; [lia|].
  destruct (digits_of_spec (Z.to_nat (Z.log2 n)) n []) as (ds & Hds & Hdig & Hne & Hval).
  { split; [done|]. destruct (Z.eq_dec n 0) as [->|]; [done|].
    replace (Z.of_nat (S (Z.to_nat (Z.log2 n)))) with (Z.succ (Z.log2 n))
      by (pose proof (Z.log2_nonneg n); lia).
    apply Z.log2_spec. lia. }
  rewrite Hds, app_nil_r. split_and!; try done.
Qed.

Lemma int_str_of_int (n : Z) : 0 <= n -> App.int (Some (Py.str_of_int n)) = Py.Ok n.
Proof.
  intros Hn. destruct (str_of_int_nonneg n Hn) as (_ & Hne & Hval).
  unfold App.int. destruct (Py.str_of_int n); [done|]. by rewrite Hval.
Qed.

Lemma int_digits (s : str) : digits s -> s <> [] -> exists n, App.int (Some s) = Py.Ok n.
Proof.
  intros Hs Hne. destruct (decimal_value_digits 0 s Hs) as [n Hn].
  exists n. unfold App.int. destruct s; [done|]. by rewrite Hn.
Qed.

End Numerals.

(* ===================================================================== *)
(** * The matcher                                                         *)
(* ===================================================================== *)

Section Matcher.

Lemma elem_of_rep p min sn rs cs st :
  st ∈ Re.rep p min sn rs cs ->
  exists ds t, rs = ds ++ t /\ Forall (fun c => p c = true) ds /\ (min <= length ds)%nat /\
               st = Re.State (rev ds ++ sn) t cs.
Proof.
  revert min sn; induction rs as [|c rs IH]; intros min sn; simpl.
  - destruct min; [|by intros ?%elem_of_nil].
    intros ->%list_elem_of_singleton. exists [], []. by repeat split.
  - assert (st ∈ match min with O => [Re.State sn (c :: rs) cs] | S _ => [] end ->
            exists ds t, c :: rs = ds ++ t /\ Forall (fun c => p c = true) ds /\
                         (min <= length ds)%nat /\ st = Re.State (rev ds ++ sn) t cs) as Hhere.
    { destruct min; [|by intros ?%elem_of_nil].
      intros ->%list_elem_of_singleton. exists [], (c :: rs). by repeat split. }
    destruct (p c) eqn:Hc; [|done].
    intros [Hin | Hin]%elem_of_app; [|by apply Hhere].
    destruct (IH _ _ Hin) as (ds & t & -> & Hds & Hmin & ->).
    exists (c :: ds), t. split_and!; [done | by constructor | simpl; lia |].
    simpl. by rewrite <- app_assoc.
Qed.

(** The longest run is tried first. *)
Lemma rep_head p min sn ds t cs :
  Forall (fun c => p c = true) ds -> Re.at_word p t = false -> (min <= length ds)%nat ->
  head (Re.rep p min sn (ds ++ t) cs) = Some (Re.State (rev ds ++ sn) t cs).
Proof.
  intros Hds Ht; revert min sn; induction Hds as [|c ds Hc _ IH]; intros min sn Hmin.
  - simpl in *. assert (min = O) as -> by lia.
    destruct t as [|c t]; [done|]. simpl in Ht. simpl. by rewrite Ht.
  - simpl. rewrite Hc. simpl in Hmin.
    specialize (IH (Nat.pred min) (c :: sn) ltac:(lia)).
    destruct (Re.rep p (Nat.pred min) (c :: sn) (ds ++ t) cs); [done|].
    simpl in *. by rewrite <- app_assoc.
Qed.

Lemma elem_of_rmatch_cat r1 r2 st st'' :
  st'' ∈ Re.rmatch (r1 ⋅ r2) st <-> exists st', st' ∈ Re.rmatch r1 st /\ st'' ∈ Re.rmatch r2 st'.
Proof. simpl. rewrite list_elem_of_bind. split; intros (x & ? & ?); eauto. Qed.

Lemma elem_of_rmatch_lit s st st' :
  st' ∈ Re.rmatch (Re.Lit s) st <->
  exists t, Re.rest st = s ++ t /\ st' = Re.State (rev s ++ Re.seen st) t (Re.caps st).
Proof.
  simpl. destruct (Py.startswith s (Re.rest st)) eqn:Hs.
  - apply startswith_spec in Hs as [t Ht]. rewrite Ht, drop_app_length.
    rewrite list_elem_of_singleton. split; [eauto|].
    intros (t' & Ht' & ->). by apply app_inv_head in Ht' as ->.
  - split; [by intros ?%elem_of_nil|]. intros (t & Ht & _).
    rewrite Ht, startswith_app in Hs. done.
Qed.

Lemma rmatch_lit_app s t sn cs :
  Re.rmatch (Re.Lit s) (Re.State sn (s ++ t) cs) = [Re.State (rev s ++ sn) t cs].
Proof. simpl. by rewrite startswith_app, drop_app_length. Qed.

Lemma elem_of_rmatch_group n r st st' :
  st' ∈ Re.rmatch (Re.Group n r) st <->
  exists st0, st0 ∈ Re.rmatch r st /\
    st' = Re.State (Re.seen st0) (Re.rest st0)
            ((n, take (length (Re.rest st) - length (Re.rest st0)) (Re.rest st)) :: Re.caps st0).
Proof. simpl. rewrite list_elem_of_fmap. split; intros (x & ? & ?); eauto. Qed.

(** Head of a concatenation: when the first way through [r1] can be
    continued, the first match goes that way. *)
Lemma head_rmatch_cat r1 r2 st st1 l m :
  Re.rmatch r1 st = st1 :: l -> head (Re.rmatch r2 st1) = Some m ->
  head (Re.rmatch (r1 ⋅ r2) st) = Some m.
Proof.
  intros H1 H2. simpl. rewrite H1. simpl.
  destruct (Re.rmatch r2 st1); [done|]. done.
Qed.

Lemma head_rmatch_cat' r1 r2 st st1 m :
  head (Re.rmatch r1 st) = Some st1 -> head (Re.rmatch r2 st1) = Some m ->
  head (Re.rmatch (r1 ⋅ r2) st) = Some m.
Proof.
  intros H1 H2. destruct (Re.rmatch r1 st) as [|x l] eqn:E; [done|].
  simpl in H1. injection H1 as ->. by eapply head_rmatch_cat.
Qed.

Lemma head_group_rep n p min sn ds t cs :
  Forall (fun c => p c = true) ds -> Re.at_word p t = false -> (min <= length ds)%nat ->
  head (Re.rmatch (Re.Group n (Re.Rep p min)) (Re.State sn (ds ++ t) cs))
  = Some (Re.State (rev ds ++ sn) t ((n, ds) :: cs)).
Proof.
  intros Hds Ht Hmin. cbn [Re.rmatch Re.seen Re.rest Re.caps].
  pose proof (rep_head p min sn ds t cs Hds Ht Hmin) as Hh.
  destruct (Re.rep p min sn (ds ++ t) cs) as [|x l]; [done|].
  simpl in Hh. injection Hh as ->. simpl. do 3 f_equal.
  rewrite length_app. replace (length ds + length t - length t)%nat with (length ds) by lia.
  by rewrite take_app_length.
Qed.

(** A group around a class repetition captures a run of the class. *)
Lemma elem_of_group_rep n p min st st' :
  st' ∈ Re.rmatch (Re.Group n (Re.Rep p min)) st ->
  exists ds, Forall (fun c => p c = true) ds /\ (min <= length ds)%nat /\
             moved st st' ds [(n, ds)].
Proof.
  intros (st0 & Hin & ->)%elem_of_rmatch_group. simpl in Hin.
  apply elem_of_rep in Hin as (ds & t & Hrs & Hds & Hmin & ->).
  exists ds. split_and!; try done. unfold moved; simpl. rewrite Hrs. split_and!; try done.
  rewrite length_app. replace (length ds + length t - length t)%nat with (length ds) by lia.
  by rewrite take_app_length.
Qed.

Lemma elem_of_opt_lit s st st' :
  st' ∈ Re.rmatch (Re.Opt (Re.Lit s)) st ->
  exists x, moved st st' x [] /\ (x = [] \/ x = s).
Proof.
  simpl. intros [Hin | ->%list_elem_of_singleton]%elem_of_app.
  - destruct (Py.startswith s (Re.rest st)) eqn:Hs; [|by apply elem_of_nil in Hin].
    apply list_elem_of_singleton in Hin as ->.
    apply startswith_spec in Hs as [t Ht]. exists s. unfold moved; simpl.
    by rewrite Ht, drop_app_length; auto.
  - exists []. unfold moved; auto.
Qed.

Lemma elem_of_lit_moved s st st' :
  st' ∈ Re.rmatch (Re.Lit s) st -> moved st st' s [].
Proof. intros (t & Ht & ->)%elem_of_rmatch_lit. by unfold moved. Qed.

Lemma elem_of_rep_moved p min st st' :
  st' ∈ Re.rmatch (Re.Rep p min) st ->
  exists ds, Forall (fun c => p c = true) ds /\ (min <= length ds)%nat /\ moved st st' ds [].
Proof.
  simpl. intros (ds & t & Hrs & Hds & Hmin & ->)%elem_of_rep.
  exists ds. by unfold moved.
Qed.

End Matcher.

(* ===================================================================== *)
(** * The hunk parser                                                     *)
(* ===================================================================== *)

Section Parser.
Context {U : UnicodeData}.

Lemma moved_trans st1 st2 st3 x y n1 n2 :
  moved st1 st2 x n1 -> moved st2 st3 y n2 -> moved st1 st3 (x ++ y) (n2 ++ n1).
Proof.
  intros (R1 & S1 & C1) (R2 & S2 & C2). unfold moved.
  rewrite R1, R2, S2, S1, C2, C1, rev_app_distr, <- !app_assoc. done.
Qed.

(** What a match of the header pattern has captured: four runs of
    digits, the first and the third not empty. *)
Lemma header_groups (line : str) (m : Re.state) :
  Re.match_ App.hunk_header_re line = Some m ->
  exists g1 g2 g3 g4,
    Re.caps m = [(4%nat, g4); (3%nat, g3); (2%nat, g2); (1%nat, g1)] /\
    digits g1 /\ g1 <> [] /\ digits g2 /\ digits g3 /\ g3 <> [] /\ digits g4.
Proof.
  unfold Re.match_. intros Hm%head_Some_elem_of. unfold App.hunk_header_re in Hm.
  apply elem_of_rmatch_cat in Hm as (s1 & H1%elem_of_lit_moved & Hm).
  apply elem_of_rmatch_cat in Hm as (s2 & (g1 & Hg1 & Hl1 & H2)%elem_of_group_rep & Hm).
  apply elem_of_rmatch_cat in Hm as (s3 & (x3 & H3 & _)%elem_of_opt_lit & Hm).
  apply elem_of_rmatch_cat in Hm as (s4 & (g2 & Hg2 & _ & H4)%elem_of_group_rep & Hm).
  apply elem_of_rmatch_cat in Hm as (s5 & H5%elem_of_lit_moved & Hm).
  apply elem_of_rmatch_cat in Hm as (s6 & (g3 & Hg3 & Hl3 & H6)%elem_of_group_rep & Hm).
  apply elem_of_rmatch_cat in Hm as (s7 & (x7 & H7 & _)%elem_of_opt_lit & Hm).
  apply elem_of_rmatch_cat in Hm as (s8 & (g4 & Hg4 & _ & H8)%elem_of_group_rep & Hm).
  apply elem_of_lit_moved in Hm as H9.
  exists g1, g2, g3, g4.
  destruct H1 as (_ & _ & C1), H2 as (_ & _ & C2), H3 as (_ & _ & C3),
    H4 as (_ & _ & C4), H5 as (_ & _ & C5), H6 as (_ & _ & C6),
    H7 as (_ & _ & C7), H8 as (_ & _ & C8), H9 as (_ & _ & C9).
  simpl in *. rewrite C9, C8, C7, C6, C5, C4, C3, C2, C1.
  split_and!; try done.
  - intros ->. simpl in Hl1. lia.
  - intros ->. simpl in Hl3. lia.
Qed.

Lemma int_one : App.int (Some (u "1")) = Py.Ok 1.
Proof.
  unfold App.int. change (u "1") with [Py.digit_char 1]. simpl.
  by rewrite decimal_digit_char.
Qed.

Lemma int_or_one (g : str) :
  digits g -> exists n, App.int (App.or_one (Some g)) = Py.Ok n /\ (g = [] -> n = 1).
Proof.
  intros Hg. destruct g as [|c g].
  - exists 1. split; [apply int_one | done].
  - destruct (int_digits (c :: g) Hg ltac:(done)) as [n Hn]. exists n. by split.
Qed.

Lemma hunk_body_length lines ops ob nb ops' ob' nb' lines' :
  App.hunk_body lines ops ob nb = (ops', ob', nb', lines') -> (length lines' <= length lines)%nat.
Proof.
  revert ops ob nb; induction lines as [|l lines IH]; intros ops ob nb; simpl.
  - intros [= <- <- <- <-]. done.
  - repeat case_match; try (intros [= <- <- <- <-]; simpl; lia);
      intros ?%IH; lia.
Qed.

Lemma parse_loop_step f line lines hunks :
  App.parse_loop (S f) (line :: lines) hunks =
  lh ← parse_step line lines hunks; App.parse_loop f lh.1 lh.2.
Proof.
  cbn [App.parse_loop]. unfold parse_step.
  destruct (Py.startswith App.hunk_mark line); [|done].
  destruct (Re.match_ App.hunk_header_re line) as [m|]; [|done].
  destruct (App.int (Re.group m 1)) as [e|n1]; [done|].
  destruct (App.int (App.or_one (Re.group m 2))) as [e|n2]; [done|].
  destruct (App.int (Re.group m 3)) as [e|n3]; [done|].
  destruct (App.int (App.or_one (Re.group m 4))) as [e|n4]; [done|].
  cbn. destruct (App.hunk_body lines [] [] []) as [[[??]?]?]. done.
Qed.

(** A pass never raises, and leaves fewer lines. *)
Lemma parse_step_ok line lines hunks :
  exists lines' hunks', parse_step line lines hunks = Py.Ok (lines', hunks') /\
                        (length lines' <= length lines)%nat.
Proof.
  unfold parse_step. destruct (Py.startswith App.hunk_mark line); [|by eauto].
  destruct (Re.match_ App.hunk_header_re line) as [m|] eqn:Hm; [|by eauto].
  destruct (header_groups _ _ Hm) as (g1 & g2 & g3 & g4 & Hc & D1 & N1 & D2 & D3 & N3 & D4).
  unfold Re.group. rewrite Hc. cbn [Re.group_of Nat.eqb].
  destruct (int_digits g1 D1 N1) as [n1 ->].
  destruct (int_or_one g2 D2) as (n2 & -> & _).
  destruct (int_digits g3 D3 N3) as [n3 ->].
  destruct (int_or_one g4 D4) as (n4 & -> & _).
  cbn. destruct (App.hunk_body lines [] [] []) as [[[ops ob] nb] lines'] eqn:Hb.
  eexists _, _. split; [done|]. by eapply hunk_body_length.
Qed.

Lemma parse_loop_fuel f f' lines hunks :
  (length lines <= f)%nat -> (length lines <= f')%nat ->
  App.parse_loop f lines hunks = App.parse_loop f' lines hunks.
Proof.
  revert f' lines hunks; induction f as [|f IH]; intros f' lines hunks Hf Hf'.
  - destruct lines; [|simpl in Hf; lia]. by destruct f'.
  - destruct lines as [|line lines]; [by destruct f'|].
    destruct f' as [|f']; [simpl in Hf'; lia|].
    rewrite !parse_loop_step.
    destruct (parse_step_ok line lines hunks) as (l' & h' & -> & Hl).
    cbn. simpl in Hf, Hf'. apply IH; lia.
Qed.

(** The parser never raises. *)
Lemma parse_loop_ok f lines hunks : exists hs, App.parse_loop f lines hunks = Py.Ok hs.
Proof.
  revert lines hunks; induction f as [|f IH]; intros lines hunks; [by eexists|].
  destruct lines as [|line lines]; [by eexists|].
  rewrite parse_loop_step.
  destruct (parse_step_ok line lines hunks) as (l' & h' & -> & _). cbn. apply IH.
Qed.

Lemma parse_lines_nil hunks : parse_lines [] hunks = Py.Ok hunks.
Proof. done. Qed.

Lemma parse_lines_cons line lines hunks :
  parse_lines (line :: lines) hunks =
  lh ← parse_step line lines hunks; parse_lines lh.1 lh.2.
Proof.
  unfold parse_lines. simpl length. rewrite parse_loop_step.
  destruct (parse_step_ok line lines hunks) as (l' & h' & -> & Hl). cbn.
  apply parse_loop_fuel; lia.
Qed.

Lemma parse_lines_skip line lines hunks :
  Py.startswith App.hunk_mark line = false ->
  parse_lines (line :: lines) hunks = parse_lines lines hunks.
Proof. intros Hs. rewrite parse_lines_cons. unfold parse_step. by rewrite Hs. Qed.

Lemma parse_lines_skip_all pre lines hunks :
  Forall (fun l => Py.startswith App.hunk_mark l = false) pre ->
  parse_lines (pre ++ lines) hunks = parse_lines lines hunks.
Proof.
  induction 1 as [|l pre Hl _ IH]; [done|]. simpl. by rewrite parse_lines_skip.
Qed.


Lemma parse_unified_diff_lines (unified : str) :
  App.parse_unified_diff unified = parse_lines (Py.splitlines unified) [].
Proof. done. Qed.

End Parser.

(* ===================================================================== *)
(** * The heuristics never raise                                          *)
(* ===================================================================== *)

Section HeuristicsTotal.
Context {U : UnicodeData}.

Lemma moved_refl st : moved st st [] [].
Proof. by unfold moved. Qed.

Lemma moved_group_text st st' x new :
  moved st st' x new ->
  take (length (Re.rest st) - length (Re.rest st')) (Re.rest st) = x.
Proof.
  intros (R & _ & _). rewrite R, length_app.
  replace (length x + length (Re.rest st') - length (Re.rest st'))%nat with (length x) by lia.
  by rewrite take_app_length.
Qed.

(** Every match moves forward over some text and only adds groups of
    the pattern. *)
Lemma rmatch_moved (r : Re.regex) (st st' : Re.state) :
  st' ∈ Re.rmatch r st ->
  exists x new, moved st st' x new /\ Forall (fun kv => kv.1 ∈ groups_in r) new.
Proof.
  revert st st'; induction r as [s|p|p min|r1 IH1 r2 IH2|r1 IH1 r2 IH2|r IH|n r IH| | |w];
    intros st st' Hin.
  - apply elem_of_lit_moved in Hin. eauto.
  - simpl in Hin. destruct (Re.rest st) as [|c rs] eqn:Hr; [by apply elem_of_nil in Hin|].
    destruct (p c); [|by apply elem_of_nil in Hin].
    apply list_elem_of_singleton in Hin as ->. exists [c], []. by unfold moved.
  - apply elem_of_rep_moved in Hin as (ds & _ & _ & Hm). eauto.
  - apply elem_of_rmatch_cat in Hin as (s1 & (x1 & n1 & M1 & F1)%IH1 & (x2 & n2 & M2 & F2)%IH2).
    exists (x1 ++ x2), (n2 ++ n1). split; [by eapply moved_trans|].
    simpl. apply Forall_app; split; eapply Forall_impl; eauto; intros ??;
      apply elem_of_app; auto.
  - simpl in Hin. apply elem_of_app in Hin as [(x & n & M & F)%IH1 | (x & n & M & F)%IH2];
      exists x, n; (split; [done|]); eapply Forall_impl; eauto; intros ??;
      simpl; apply elem_of_app; auto.
  - simpl in Hin. apply elem_of_app in Hin as [(x & n & M & F)%IH | ->%list_elem_of_singleton].
    + eauto.
    + exists [], []. split; [apply moved_refl | done].
  - apply elem_of_rmatch_group in Hin as (s0 & (x & new & M & F)%IH & ->).
    rewrite (moved_group_text _ _ _ _ M).
    exists x, ((n, x) :: new). split.
    + destruct M as (? & ? & Hc). unfold moved; simpl. by rewrite Hc.
    + constructor; [simpl; left|]. eapply Forall_impl; eauto.
      intros ??; simpl; by right.
  - simpl in Hin. destruct (Re.seen st); [|by apply elem_of_nil in Hin].
    apply list_elem_of_singleton in Hin as ->. exists [], []. split; [apply moved_refl | done].
  - simpl in Hin. exists [], [].
    repeat case_match; try (by apply elem_of_nil in Hin);
      apply list_elem_of_singleton in Hin as ->; (split; [apply moved_refl | done]).
  - simpl in Hin. exists [], [].
    repeat case_match; try (by apply elem_of_nil in Hin);
      apply list_elem_of_singleton in Hin as ->; (split; [apply moved_refl | done]).
Qed.

Lemma rmatch_caps_nogroups (r : Re.regex) (st st' : Re.state) :
  groups_in r = [] -> st' ∈ Re.rmatch r st -> Re.caps st' = Re.caps st.
Proof.
  intros Hg (x & new & (_ & _ & Hc) & F)%rmatch_moved. rewrite Hg in F.
  destruct new as [|kv new]; [done|]. inversion F as [|?? Hk _]; subst.
  by apply elem_of_nil in Hk.
Qed.

Lemma group_of_app_other (new cs : list (nat * str)) (n : nat) :
  Forall (fun kv => kv.1 <> n) new -> Re.group_of (new ++ cs) n = Re.group_of cs n.
Proof.
  induction 1 as [|[k t] new Hk _ IH]; [done|]. simpl in *.
  destruct (Nat.eqb_spec k n); [done | apply IH].
Qed.

Lemma split_at_dot_digits (ds : str) :
  digits ds -> App.split_at_dot ds = (ds, None).
Proof.
  induction 1 as [|c ds Hc _ IH]; [done|]. simpl.
  destruct (N.eqb_spec c 46) as [->|_].
  - rewrite ascii_not_digit in Hc by lia. done.
  - by rewrite IH.
Qed.

Lemma split_at_dot_point (ds y : str) :
  digits ds -> App.split_at_dot (ds ++ 46%N :: y) = (ds, Some y).
Proof.
  induction 1 as [|c ds Hc _ IH]; [done|]. simpl.
  destruct (N.eqb_spec c 46) as [->|_].
  - rewrite ascii_not_digit in Hc by lia. done.
  - by rewrite IH.
Qed.

Lemma float_numeral (t : str) : numeral t -> exists v, App.float (Some t) = Py.Ok v.
Proof.
  intros (x & ds & fr & -> & Hx & Hds & Hne & Hfr). unfold App.float.
  assert (exists neg,
    match x ++ ds ++ fr with
    | c :: t => if N.eqb c 45 then (true, t) else (false, x ++ ds ++ fr)
    | [] => (false, x ++ ds ++ fr)
    end = (neg, ds ++ fr)) as [neg ->].
  { destruct Hx as [-> | ->]; [|by exists true].
    exists false. simpl. destruct ds as [|c ds]; [done|]. simpl.
    inversion Hds as [|?? Hc _]; subst.
    destruct (N.eqb_spec c 45) as [->|_]; [|done].
    rewrite ascii_not_digit in Hc by lia. done. }
  destruct Hfr as [-> | (ds' & -> & Hds' & Hne')].
  - rewrite app_nil_r, split_at_dot_digits by done. simpl.
    rewrite bool_decide_eq_false_2 by done. simpl. rewrite app_nil_r.
    destruct (decimal_value_digits 0 ds Hds) as [n ->]. by eexists.
  - rewrite split_at_dot_point by done. simpl.
    rewrite bool_decide_eq_false_2 by done.
    rewrite bool_decide_eq_false_2 by (intros [= ->]; done). simpl.
    destruct (decimal_value_digits 0 (ds ++ ds')) as [n ->]; [by apply Forall_app|].
    by eexists.
Qed.

Lemma numeral_match st st' x new :
  st' ∈ Re.rmatch numeral_re st -> moved st st' x new -> numeral x.
Proof.
  intros Hin M. unfold numeral_re in Hin.
  apply elem_of_rmatch_cat in Hin as (sa & (xa & Ma & Hxa)%elem_of_opt_lit & Hin).
  apply elem_of_rmatch_cat in Hin as (sb & (ds & Hds & Hl & Mb)%elem_of_rep_moved & Hin).
  assert (exists fr new', moved sb st' fr new' /\
            (fr = [] \/ exists ds', fr = 46%N :: ds' /\ digits ds' /\ ds' <> []))
    as (fr & new' & Mc & Hfr).
  { simpl in Hin. apply elem_of_app in Hin as [Hin | ->%list_elem_of_singleton].
    - apply list_elem_of_fmap in Hin as (sc & -> & Hin).
      apply (elem_of_rmatch_cat (Re.Lit (u ".")) (Re.Rep Re.digit 1)) in Hin
        as (sd & Md%elem_of_lit_moved & (ds' & Hds' & Hl' & Me)%elem_of_rep_moved).
      pose proof (moved_trans _ _ _ _ _ _ _ Md Me) as Mde.
      change (u "." ++ ds') with (46%N :: ds') in Mde. simpl in Mde.
      rewrite (moved_group_text _ _ _ _ Mde).
      exists (46%N :: ds'), [(3%nat, 46%N :: ds')]. split.
      + destruct Mde as (? & ? & Hc). unfold moved. simpl. by rewrite Hc.
      + right. exists ds'. split_and!; try done. intros ->. simpl in Hl'. lia.
    - exists [], []. split; [apply moved_refl | by left]. }
  pose proof (moved_trans _ _ _ _ _ _ _ (moved_trans _ _ _ _ _ _ _ Ma Mb) Mc) as M'.
  rewrite <- (moved_group_text _ _ _ _ M), (moved_group_text _ _ _ _ M').
  exists xa, ds, fr. rewrite <- app_assoc. split_and!; try done.
  intros ->. simpl in Hl. lia.
Qed.

(** What a match of the assignment pattern has captured: group 1, and
    a numeral in group 2 *)
Lemma numeric_groups (d : str) (m : Re.state) :
  Re.match_ App._NUMERIC_ASSIGN_RE d = Some m ->
  exists k t, Re.group m 1 = Some k /\ Re.group m 2 = Some t /\ numeral t.
Proof.
  unfold Re.match_. intros Hm%head_Some_elem_of. unfold App._NUMERIC_ASSIGN_RE in Hm.
  apply elem_of_rmatch_cat in Hm as (s1 & C1%rmatch_caps_nogroups & Hm); [|done].
  apply elem_of_rmatch_cat in Hm as (s2 & C2%rmatch_caps_nogroups & Hm); [|done].
  apply elem_of_rmatch_cat in Hm as (s3 & (s3' & H3 & ->)%elem_of_rmatch_group & Hm).
  apply rmatch_caps_nogroups in H3 as C3; [|done].
  set (k := take _ _) in Hm.
  apply elem_of_rmatch_cat in Hm as (s4 & C4%rmatch_caps_nogroups & Hm); [|done].
  apply elem_of_rmatch_cat in Hm as (s5 & C5%rmatch_caps_nogroups & Hm); [|done].
  apply elem_of_rmatch_cat in Hm as (s6 & C6%rmatch_caps_nogroups & Hm); [|done].
  apply elem_of_rmatch_cat in Hm as (s7 & (s7' & H7 & ->)%elem_of_rmatch_group & Hm).
  apply rmatch_moved in H7 as H7'. destruct H7' as (x & new & M7 & F7).
  pose proof (numeral_match _ _ _ _ H7 M7) as Hnum.
  rewrite (moved_group_text _ _ _ _ M7) in Hm.
  apply rmatch_moved in Hm as (y & new' & (_ & _ & C8) & F8).
  destruct M7 as (_ & _ & C7). simpl in *.
  exists k, x. unfold Re.group. rewrite C8, C7, C6, C5, C4, C3, C2, C1.
  split_and!; [| |done].
  - rewrite group_of_app_other.
    2:{ eapply Forall_impl; [exact F8|]. intros [? ?] Hk Heq. simpl in Hk, Heq. subst.
        set_solver. }
    cbn [Re.group_of Nat.eqb]. rewrite group_of_app_other; [done|].
    eapply Forall_impl; [exact F7|]. intros [? ?] Hk Heq. simpl in Hk, Heq. subst.
    set_solver.
  - rewrite group_of_app_other; [done|].
    eapply Forall_impl; [exact F8|]. intros [? ?] Hk Heq. simpl in Hk, Heq. subst.
    set_solver.
Qed.

Lemma for_each_ok {X S} (l : list X) (s : S) (body : S -> X -> Py.result S) :
  (forall s x, exists s', body s x = Py.Ok s') -> exists s', App.for_each l s body = Py.Ok s'.
Proof.
  intros Hb; revert s; induction l as [|x l IH]; intros s; simpl; [by eexists|].
  destruct (Hb s x) as [s' ->]. cbn. apply IH.
Qed.

Lemma numeric_add_ok key_ old_val st a :
  exists st', App.numeric_add key_ old_val st a = Py.Ok st'.
Proof.
  unfold App.numeric_add.
  destruct (Re.match_ App._NUMERIC_ASSIGN_RE a) as [ma|] eqn:Hm; [|by eexists].
  case_bool_decide; [|by eexists].
  destruct (numeric_groups _ _ Hm) as (k & t & _ & -> & [v ->]%float_numeral).
  cbn. by eexists.
Qed.

Lemma numeric_del_ok adds st d : exists st', App.numeric_del adds st d = Py.Ok st'.
Proof.
  unfold App.numeric_del.
  destruct (Re.match_ App._NUMERIC_ASSIGN_RE d) as [md|] eqn:Hm; [|by eexists].
  destruct (numeric_groups _ _ Hm) as (k & t & _ & -> & [v ->]%float_numeral).
  cbn. apply for_each_ok. intros; apply numeric_add_ok.
Qed.

Lemma scan_hunk_ok st h : exists st', App.scan_hunk st h = Py.Ok st'.
Proof.
  unfold App.scan_hunk.
  match goal with
  | |- context [App.for_each ?l ?s ?b] =>
      destruct (for_each_ok l s b) as [fn ->]; [intros; apply numeric_del_ok|]
  end.
  cbn. by eexists.
Qed.

(** [simple_heuristics] never raises. *)
Lemma simple_heuristics_ok hunks : exists he, App.simple_heuristics hunks = Py.Ok he.
Proof.
  unfold App.simple_heuristics.
  match goal with
  | |- context [App.for_each ?l ?s ?b] =>
      destruct (for_each_ok l s b) as [st ->]; [intros; apply scan_hunk_ok|]
  end.
  cbn. by eexists.
Qed.

(** [make_change_record] never raises. *)
Lemma make_change_record_ok env a b ln rn n sw :
  exists r, App.make_change_record env a b ln rn n sw = Py.Ok r.
Proof.
  unfold App.make_change_record.
  destruct (parse_loop_ok (length (Py.splitlines
    (App.unified_diff_text (App.to_lines a sw) (App.to_lines b sw) ln rn n)))
    (Py.splitlines (App.unified_diff_text (App.to_lines a sw) (App.to_lines b sw) ln rn n)) [])
    as [hs Hhs].
  unfold App.parse_unified_diff. rewrite Hhs. cbn.
  destruct (App.similarity_scores a b) as [[sm_char sm_line] jacc].
  destruct (simple_heuristics_ok hs) as [he ->]. cbn. by eexists.
Qed.

End HeuristicsTotal.

End TextAndPatterns.

(* ===================================================================== *)
(** * [SequenceMatcher]: the index of [b]                                 *)
(* ===================================================================== *)

Section IndexOfB.
Context `{Countable A}.
Implicit Types (a b : list A) (x : A).

Lemma item_lookup {X} (l : list X) (i : Z) (v : X) :
  difflib.item l i = Some v <-> 0 <= i /\ l !! Z.to_nat i = Some v.
Proof.
  unfold difflib.item. destruct (Z.ltb_spec i 0); [|by intuition].
  split; [done | lia].
Qed.

Lemma item_Some_lt {X} (l : list X) (i : Z) (v : X) :
  difflib.item l i = Some v -> 0 <= i < Z.of_nat (length l).
Proof.
  intros [? Hl%lookup_lt_Some]%item_lookup. lia.
Qed.

Lemma item_cons {X} (y : X) (l : list X) (i : Z) :
  0 < i -> difflib.item (y :: l) i = difflib.item l (i - 1).
Proof.
  intros Hi. unfold difflib.item.
  destruct (Z.ltb_spec i 0), (Z.ltb_spec (i - 1) 0); try lia.
  replace (Z.to_nat i) with (S (Z.to_nat (i - 1))) by lia. done.
Qed.

Lemma elem_of_positions x l s j :
  j ∈ positions x l s <-> s <= j /\ difflib.item l (j - s) = Some x.
Proof.
  revert s; induction l as [|y l IH]; intros s; simpl.
  - rewrite elem_of_nil. split; [done|]. intros [_ Hi%item_Some_lt]. simpl in Hi. lia.
  - assert (j ∈ positions x l (s + 1) <-> s < j /\ difflib.item (y :: l) (j - s) = Some x) as IH'.
    { rewrite IH. split.
      - intros [? Hi]. split; [lia|]. rewrite item_cons by lia.
        by replace (j - s - 1) with (j - (s + 1)) by lia.
      - intros [? Hi]. split; [lia|]. rewrite item_cons in Hi by lia.
        by replace (j - s - 1) with (j - (s + 1)) in Hi by lia. }
    destruct (decide (x = y)) as [->|Hne].
    + rewrite elem_of_cons, IH'. split.
      * intros [-> | [? ?]]; [|split; [lia | done]].
        split; [lia|]. by replace (s - s) with 0 by lia.
      * intros [Hs Hi]. destruct (decide (j = s)) as [|]; [by left | right].
        split; [lia | done].
    + rewrite IH'. split; [intros [? ?]; split; [lia | done]|].
      intros [Hs Hi]. split; [|done].
      destruct (decide (j = s)) as [->|]; [|lia].
      replace (s - s) with 0 in Hi by lia. cbv in Hi. congruence.
Qed.

Lemma positions_sorted x l s : StronglySorted Z.lt (positions x l s).
Proof.
  revert s; induction l as [|y l IH]; intros s; simpl; [constructor|].
  destruct (decide (x = y)); [|apply IH].
  constructor; [apply IH|]. apply Forall_forall. intros j [? _]%elem_of_positions. lia.
Qed.

Lemma index_fold_lookup (l : list A) (s : Z) (m : gmap A (list Z)) x :
  foldl (fun (m : gmap A (list Z)) (ie : Z * A) =>
           <[ie.2 := default [] (m !! ie.2) ++ [ie.1]]> m)
        m (zip (seqZ s (Z.of_nat (length l))) l) !! x
  = match positions x l s with
    | [] => m !! x
    | ps => Some (default [] (m !! x) ++ ps)
    end.
Proof.
  revert s m; induction l as [|y l IH]; intros s m; [done|].
  rewrite seqZ_cons by (simpl; lia).
  replace (Z.pred (Z.of_nat (length (y :: l)))) with (Z.of_nat (length l)) by (simpl; lia).
  cbn [zip zip_with foldl positions]. rewrite IH.
  replace (Z.succ s) with (s + 1) by lia. simpl.
  destruct (decide (x = y)) as [->|Hne].
  - rewrite lookup_insert_eq. simpl.
    destruct (positions y l (s + 1)); [done|]. by rewrite <- app_assoc.
  - by rewrite lookup_insert_ne.
Qed.

Lemma index_all_lookup b x :
  difflib.index_all b !! x =
  match positions x b 0 with [] => None | ps => Some ps end.
Proof.
  unfold difflib.index_all. rewrite index_fold_lookup, lookup_empty. done.
Qed.

(** An entry of [b2j] lists the positions of its key in [b], in
    increasing order and all of them. *)
Lemma chain_b_lookup b x js :
  difflib.chain_b b !! x = Some js -> js = positions x b 0.
Proof.
  unfold difflib.chain_b. destruct (200 <=? Z.of_nat (length b)).
  - intros [Hl _]%map_lookup_filter_Some. rewrite index_all_lookup in Hl.
    destruct (positions x b 0); [done | congruence].
  - rewrite index_all_lookup. destruct (positions x b 0); [done | congruence].
Qed.

Lemma chain_b_sound b x js j :
  difflib.chain_b b !! x = Some js -> j ∈ js -> difflib.item b j = Some x.
Proof.
  intros ->%chain_b_lookup [_ Hi]%elem_of_positions.
  by replace (j - 0) with j in Hi by lia.
Qed.

End IndexOfB.

(* ===================================================================== *)
(** * [find_longest_match] returns a common block                         *)
(* ===================================================================== *)

Section LongestMatch.
Context `{Countable A}.
Implicit Types (a b : list A).

Lemma same_true (x y : option A) : difflib.same x y = true -> exists v, x = Some v /\ y = Some v.
Proof.
  destruct x as [x|], y as [y|]; simpl; try done.
  intros ->%bool_decide_eq_true. eauto.
Qed.

Lemma flm_row_ok a b alo blo bhi i x j2len js best newj2len best' new' :
  alo <= i -> difflib.item a i = Some x ->
  Forall (fun j => difflib.item b j = Some x) js ->
  row_ok a b alo blo bhi (i - 1) j2len ->
  row_ok a b alo blo bhi i newj2len ->
  in_rect (alo, i + 1, blo, bhi) best -> is_match a b best ->
  difflib.flm_row i blo bhi j2len js best newj2len = (best', new') ->
  row_ok a b alo blo bhi i new' /\ in_rect (alo, i + 1, blo, bhi) best' /\ is_match a b best'.
Proof.
  intros Hi Hx Hjs Hprev. revert best newj2len.
  induction Hjs as [|j js Hj _ IH]; intros best newj2len Hnew Hr Hm; simpl.
  - intros [= <- <-]. done.
  - destruct (Z.ltb_spec j blo) as [|Hlo]; [by apply IH|].
    destruct (Z.leb_spec bhi j) as [|Hhi]; [intros [= <- <-]; done|].
    set (k := default 0 (j2len !! (j - 1)) + 1).
    assert (1 <= k /\ in_rect (alo, i + 1, blo, bhi) (i - k + 1, j - k + 1, k) /\
            is_match a b (i - k + 1, j - k + 1, k)) as (Hk & Hrk & Hmk).
    { unfold k. destruct (j2len !! (j - 1)) as [k0|] eqn:Hk0; simpl.
      - destruct (Hprev _ _ Hk0) as (Hk1 & _ & (? & ? & ? & ?) & (_ & Hm0)).
        split; [lia|]. split; [unfold in_rect; lia|]. split; [lia|].
        intros d Hd. destruct (decide (d = k0)) as [->|].
        + exists x. split; [rewrite <- Hx | rewrite <- Hj]; f_equal; lia.
        + destruct (Hm0 d ltac:(lia)) as (v & Hv1 & Hv2).
          exists v. split; [rewrite <- Hv1 | rewrite <- Hv2]; f_equal; lia.
      - split; [lia|]. split; [unfold in_rect; lia|]. split; [lia|].
        intros d Hd. assert (d = 0) as -> by lia. exists x.
        split; [rewrite <- Hx | rewrite <- Hj]; f_equal; lia. }
    apply IH.
    + intros j' k'. rewrite lookup_insert. case_decide as Hjj.
      * intros [= <-]. subst j'. done.
      * apply Hnew.
    + by destruct (best.2 <? k).
    + by destruct (best.2 <? k).
Qed.

Lemma row_ok_empty a b alo blo bhi i : row_ok a b alo blo bhi i ∅.
Proof. intros j k. by rewrite lookup_empty. Qed.

Lemma in_rect_mono_ahi alo ahi ahi' blo bhi m :
  ahi <= ahi' -> in_rect (alo, ahi, blo, bhi) m -> in_rect (alo, ahi', blo, bhi) m.
Proof. destruct m as [[i j] k]. unfold in_rect. lia. Qed.

Lemma foldl_seqZ_inv {T} (Inv : Z -> T -> Prop) (f : T -> Z -> T) (n : nat) (s : Z) (st : T) :
  Inv s st ->
  (forall i st, s <= i < s + Z.of_nat n -> Inv i st -> Inv (i + 1) (f st i)) ->
  Inv (s + Z.of_nat n) (foldl f st (seqZ s (Z.of_nat n))).
Proof.
  revert s st; induction n as [|n IH]; intros s st H0 Hstep.
  - simpl. by rewrite Z.add_0_r.
  - rewrite seqZ_cons by lia. simpl foldl.
    replace (Z.pred (Z.of_nat (S n))) with (Z.of_nat n) by lia.
    replace (s + Z.of_nat (S n)) with (Z.succ s + Z.of_nat n) by lia.
    apply IH.
    + replace (Z.succ s) with (s + 1) by lia. apply Hstep; [lia | done].
    + intros i st' Hi. apply Hstep. lia.
Qed.

Lemma extend_left_ok fuel (sm : @difflib.SequenceMatcher A _ _) junk alo ahi blo bhi best :
  in_rect (alo, ahi, blo, bhi) best -> is_match (difflib.a sm) (difflib.b sm) best ->
  in_rect (alo, ahi, blo, bhi) (difflib.extend_left fuel sm junk alo blo best) /\
  is_match (difflib.a sm) (difflib.b sm) (difflib.extend_left fuel sm junk alo blo best).
Proof.
  revert best; induction fuel as [|fuel IH]; intros [[i j] k] Hr Hm; [done|].
  simpl. destruct (_ && _) eqn:Hc; [|done].
  apply andb_true_iff in Hc as [Hc (v & Ha & Hb)%same_true].
  apply andb_true_iff in Hc as [Hc _]. apply andb_true_iff in Hc as [?%Z.ltb_lt ?%Z.ltb_lt].
  apply IH.
  - unfold in_rect in *. lia.
  - destruct Hm as [Hk Hm]. split; [lia|]. intros d Hd.
    destruct (decide (d = 0)) as [->|].
    + exists v. split; [rewrite <- Ha | rewrite <- Hb]; f_equal; lia.
    + destruct (Hm (d - 1) ltac:(lia)) as (w & Hw1 & Hw2).
      exists w. split; [rewrite <- Hw1 | rewrite <- Hw2]; f_equal; lia.
Qed.

Lemma extend_right_ok fuel (sm : @difflib.SequenceMatcher A _ _) junk alo ahi blo bhi best :
  in_rect (alo, ahi, blo, bhi) best -> is_match (difflib.a sm) (difflib.b sm) best ->
  in_rect (alo, ahi, blo, bhi) (difflib.extend_right fuel sm junk ahi bhi best) /\
  is_match (difflib.a sm) (difflib.b sm) (difflib.extend_right fuel sm junk ahi bhi best).
Proof.
  revert best; induction fuel as [|fuel IH]; intros [[i j] k] Hr Hm; [done|].
  simpl. destruct (_ && _) eqn:Hc; [|done].
  apply andb_true_iff in Hc as [Hc (v & Ha & Hb)%same_true].
  apply andb_true_iff in Hc as [Hc _]. apply andb_true_iff in Hc as [?%Z.ltb_lt ?%Z.ltb_lt].
  apply IH.
  - unfold in_rect in *. lia.
  - destruct Hm as [Hk Hm]. split; [lia|]. intros d Hd.
    destruct (decide (d = k)) as [->|]; [by exists v | apply Hm; lia].
Qed.

Lemma new_b2j_sound a b : b2j_sound (difflib.new a b).
Proof. intros x js j. apply chain_b_sound. Qed.

(** The block returned lies in the range asked for and is common to
    [a] and [b]. *)
Lemma find_longest_match_ok (sm : @difflib.SequenceMatcher A _ _) alo ahi blo bhi :
  b2j_sound sm -> alo <= ahi -> blo <= bhi ->
  in_rect (alo, ahi, blo, bhi) (difflib.find_longest_match sm alo ahi blo bhi) /\
  is_match (difflib.a sm) (difflib.b sm) (difflib.find_longest_match sm alo ahi blo bhi).
Proof.
  intros Hsound Ha Hb. unfold difflib.find_longest_match.
  set (f := fun (st : Z * Z * Z * gmap Z Z) (i : Z) => _).
  assert (in_rect (alo, ahi, blo, bhi) (foldl f (alo, blo, 0, ∅) (seqZ alo (ahi - alo))).1 /\
          is_match (difflib.a sm) (difflib.b sm)
                   (foldl f (alo, blo, 0, ∅) (seqZ alo (ahi - alo))).1) as [Hr Hm].
  { pose proof (foldl_seqZ_inv
      (fun i st => in_rect (alo, i, blo, bhi) st.1 /\
                   is_match (difflib.a sm) (difflib.b sm) st.1 /\
                   row_ok (difflib.a sm) (difflib.b sm) alo blo bhi (i - 1) st.2)
      f (Z.to_nat (ahi - alo)) alo (alo, blo, 0, ∅)) as Hinv.
    replace (Z.of_nat (Z.to_nat (ahi - alo))) with (ahi - alo) in Hinv by lia.
    replace (alo + (ahi - alo)) with ahi in Hinv by lia.
    destruct Hinv as (? & ? & _); [| |done].
    - simpl. split; [lia|]. split; [|apply row_ok_empty]. split; [lia|]. intros; lia.
    - intros i [best j2len] Hi (Hr & Hm & Hrow). unfold f. simpl.
      destruct (difflib.item (difflib.a sm) i) as [x|] eqn:Hx; simpl.
      + destruct (difflib.flm_row _ _ _ _ _ _ _) as [best' new'] eqn:Hrow'.
        assert (Forall (fun j => difflib.item (difflib.b sm) j = Some x)
                       (default [] (difflib.b2j sm !! x))) as Hjs.
        { destruct (difflib.b2j sm !! x) as [js|] eqn:Hjs; simpl; [|constructor].
          apply Forall_forall. intros j Hj. by eapply Hsound. }
        simpl in Hr, Hm, Hrow.
        destruct (flm_row_ok _ _ alo blo bhi i x j2len _ best ∅ best' new'
                    ltac:(lia) Hx Hjs Hrow (row_ok_empty _ _ _ _ _ _)
                    (in_rect_mono_ahi alo i (i + 1) blo bhi best ltac:(lia) Hr) Hm Hrow')
          as (? & ? & ?).
        simpl. by replace (i + 1 - 1) with i by lia.
      + simpl in Hr, Hm.
        split; [apply (in_rect_mono_ahi _ i); [lia | done]|].
        split; [done | apply row_ok_empty]. }
  destruct (extend_left_ok (Z.to_nat (ahi - alo)) sm false alo ahi blo bhi _ Hr Hm) as [Hr1 Hm1].
  destruct (extend_right_ok (Z.to_nat (ahi - alo)) sm false alo ahi blo bhi _ Hr1 Hm1) as [Hr2 Hm2].
  destruct (extend_left_ok (Z.to_nat (ahi - alo)) sm true alo ahi blo bhi _ Hr2 Hm2) as [Hr3 Hm3].
  apply (extend_right_ok (Z.to_nat (ahi - alo)) sm true alo ahi blo bhi _ Hr3 Hm3).
Qed.

End LongestMatch.

(* ===================================================================== *)
(** * [get_matching_blocks] returns a staircase of common blocks          *)
(* ===================================================================== *)

Section MatchingBlocks.
Context `{Countable A}.
Implicit Types (a b : list A) (m : Z * Z * Z) (r : Z * Z * Z * Z).

Lemma apart_sym r1 r2 : apart r1 r2 -> apart r2 r1.
Proof. unfold apart. tauto. Qed.

Lemma all_apart_cons r l : all_apart (r :: l) <-> Forall (apart r) l /\ all_apart l.
Proof.
  split; [intros Hs; by inversion Hs | intros [? ?]; by constructor].
Qed.

Lemma all_apart_perm l l' : l ≡ₚ l' -> all_apart l -> all_apart l'.
Proof.
  induction 1 as [|x l l' Hp IH|x y l|l l' l'' _ IH1 _ IH2].
  - done.
  - rewrite !all_apart_cons. intros [? ?]. split; [by rewrite <- Hp | auto].
  - rewrite !all_apart_cons, !Forall_cons. intros ((? & ?) & ? & ?).
    split_and!; try done.
  - auto.
Qed.

Lemma all_apart_app_r l1 l2 : all_apart (l1 ++ l2) -> all_apart l2.
Proof.
  induction l1 as [|x l1 IH]; [done|]. simpl. rewrite all_apart_cons. intros [_ ?]; auto.
Qed.

Lemma apart_within r r' x : within r r' -> apart r x -> apart r' x.
Proof.
  destruct r as [[[??]?]?], r' as [[[??]?]?], x as [[[??]?]?].
  unfold within, apart, before. lia.
Qed.

(** A range may be replaced by ranges inside it that are apart from
    each other. *)
Lemma all_apart_replace r news rest :
  all_apart (r :: rest) -> Forall (within r) news -> all_apart news ->
  all_apart (news ++ rest).
Proof.
  rewrite all_apart_cons. intros [Hr Hrest] Hw Hn.
  induction news as [|n news IH]; [done|]. simpl.
  apply all_apart_cons in Hn as [Hn1 Hn2]. apply Forall_cons in Hw as [Hw1 Hw2].
  apply all_apart_cons. split; [|by apply IH].
  apply Forall_app. split; [done|].
  eapply Forall_impl; [exact Hr|]. intros x. by apply apart_within.
Qed.

Lemma mb_loop_ok fuel (sm : @difflib.SequenceMatcher A _ _) queue mbs :
  b2j_sound sm -> Forall wf_rect queue ->
  Forall (good_block (difflib.a sm) (difflib.b sm)) mbs ->
  all_apart (queue ++ (rect_of <$> mbs)) ->
  Forall (good_block (difflib.a sm) (difflib.b sm)) (difflib.mb_loop fuel sm queue mbs) /\
  all_apart (rect_of <$> difflib.mb_loop fuel sm queue mbs).
Proof.
  intros Hsound. revert queue mbs; induction fuel as [|fuel IH]; intros queue mbs Hq Hg Hap.
  { simpl. split; [done | by eapply all_apart_app_r]. }
  destruct queue as [|[[[alo ahi] blo] bhi] queue].
  { simpl. split; [done | by eapply all_apart_app_r]. }
  cbn [difflib.mb_loop]. apply Forall_cons in Hq as [[Ha Hb] Hq].
  destruct (find_longest_match_ok sm alo ahi blo bhi Hsound Ha Hb) as [Hr Hm].
  destruct (difflib.find_longest_match sm alo ahi blo bhi) as [[i j] k].
  destruct (Z.eqb_spec k 0) as [->|Hk].
  { apply IH; try done. simpl in Hap. by apply all_apart_cons in Hap as [_ ?]. }
  destruct Hr as (Hr1 & Hr2 & Hr3 & Hr4). pose proof Hm as [Hk0 _].
  set (pl := if (alo <? i) && (blo <? j) then [(alo, i, blo, j)] else []).
  set (pr := if (i + k <? ahi) && (j + k <? bhi) then [(i + k, ahi, j + k, bhi)] else []).
  match goal with
  | |- context [difflib.mb_loop fuel sm ?q _] => replace q with (pr ++ pl ++ queue)
  end.
  2:{ unfold pr, pl. by destruct ((alo <? i) && (blo <? j)), ((i + k <? ahi) && (j + k <? bhi)). }
  assert (Forall wf_rect pr /\ Forall wf_rect pl /\
          Forall (within (alo, ahi, blo, bhi)) pr /\ Forall (within (alo, ahi, blo, bhi)) pl /\
          all_apart (pr ++ pl ++ [(i, i + k, j, j + k)])) as (Wr & Wl & Ir & Il & Hnews).
  { unfold pr, pl.
    destruct ((alo <? i) && (blo <? j)) eqn:E1;
      destruct ((i + k <? ahi) && (j + k <? bhi)) eqn:E2;
      try (apply andb_true_iff in E1 as [?%Z.ltb_lt ?%Z.ltb_lt]);
      try (apply andb_true_iff in E2 as [?%Z.ltb_lt ?%Z.ltb_lt]);
      split_and!; try apply Forall_nil; try (apply Forall_singleton; simpl; lia);
      simpl;
      repeat (apply all_apart_cons; split;
              [repeat (apply Forall_cons; split; [unfold apart, before; lia|]);
               apply Forall_nil|]);
      constructor. }
  apply IH.
  - by repeat (apply Forall_app; split).
  - apply Forall_app; split; [done|]. apply Forall_singleton. split; [simpl; lia | done].
  - rewrite fmap_app. simpl.
    apply (all_apart_perm ((pr ++ pl ++ [(i, i + k, j, j + k)]) ++ queue ++ (rect_of <$> mbs))).
    { rewrite <- !app_assoc. do 2 apply Permutation_app_head.
      rewrite (app_assoc queue). apply Permutation_app_comm. }
    apply (all_apart_replace (alo, ahi, blo, bhi)); [done | | done].
    repeat (apply Forall_app; split); try done.
    apply Forall_singleton; simpl; lia.
Qed.

#[local] Instance block_le_trans : Transitive difflib.block_le.
Proof. intros [[??]?] [[??]?] [[??]?]. unfold difflib.block_le. lia. Qed.

#[local] Instance block_le_total : Total difflib.block_le.
Proof. intros [[??]?] [[??]?]. unfold difflib.block_le. lia. Qed.

Lemma good_block_bounds a b i j k :
  good_block a b (i, j, k) ->
  0 <= i /\ i + k <= Z.of_nat (length a) /\ 0 <= j /\ j + k <= Z.of_nat (length b).
Proof.
  intros [Hk [_ Hm]]. simpl in Hk.
  destruct (Hm 0 ltac:(lia)) as (x & ?%item_Some_lt & ?%item_Some_lt).
  destruct (Hm (k - 1) ltac:(lia)) as (y & ?%item_Some_lt & ?%item_Some_lt). lia.
Qed.

Lemma sorted_stair a b (l : list (Z * Z * Z)) i j :
  Forall (good_block a b) l -> all_apart (rect_of <$> l) ->
  StronglySorted difflib.block_le l ->
  Forall (fun m => i <= m.1.1 /\ j <= m.1.2) l ->
  stair_from a b i j l.
Proof.
  intros Hg; revert i j; induction Hg as [|[[ai bj] sz] l Hx Hg IH]; intros i j Hap Hs Hlo;
    [done|].
  rewrite fmap_cons in Hap. apply all_apart_cons in Hap as [Hap1 Hap2].
  apply StronglySorted_inv in Hs as [Hs2 Hs1]. apply Forall_cons in Hlo as [[? ?] _].
  destruct (good_block_bounds _ _ _ _ _ Hx) as (? & ? & ? & ?). simpl in *.
  split; [done|]. split; [done|]. split; [done|]. split; [done|].
  split; [apply Hx|]. apply IH; try done.
  apply Forall_forall. intros [[i' j'] k'] Hin.
  rewrite Forall_forall in Hap1. rewrite Forall_forall in Hs1. rewrite Forall_forall in Hg.
  specialize (Hap1 (rect_of (i', j', k')) ltac:(by apply list_elem_of_fmap_2)).
  specialize (Hs1 _ Hin). destruct (Hg _ Hin) as [Hk' _].
  simpl in *. unfold apart, before, difflib.block_le in *. simpl in *. lia.
Qed.

Lemma stair_from_app a b i j l1 m :
  stair_from a b i j (l1 ++ [m]) <->
  stair_from a b i j l1 /\
  stair_from a b (default i ((fun x : Z * Z * Z => x.1.1 + x.2) <$> last l1))
                 (default j ((fun x : Z * Z * Z => x.1.2 + x.2) <$> last l1)) [m].
Proof.
  revert i j; induction l1 as [|[[ai bj] sz] l1 IH]; intros i j.
  - simpl. destruct m as [[??]?]. tauto.
  - cbn [app stair_from]. rewrite IH.
    replace (last ((ai, bj, sz) :: l1)) with
      (Some (default (ai, bj, sz) (last l1))).
    2:{ destruct l1 as [|x l1]; [done|]. rewrite last_cons_cons.
        destruct (last (x :: l1)) eqn:E; [done|]. by apply last_None in E. }
    destruct (last l1) as [[[??]?]|]; simpl; tauto.
Qed.

Lemma stair_from_prefix a b i j l1 l2 :
  stair_from a b i j (l1 ++ l2) -> stair_from a b i j l1.
Proof.
  revert i j; induction l1 as [|[[ai bj] sz] l1 IH]; intros i j; [done|].
  cbn [app stair_from]. intros (? & ? & ? & ? & ? & ?%IH). done.
Qed.

Lemma is_match_join a b i j k1 k2 :
  is_match a b (i, j, k1) -> is_match a b (i + k1, j + k1, k2) ->
  is_match a b (i, j, k1 + k2).
Proof.
  intros [? H1] [? H2]. split; [lia|]. intros d Hd.
  destruct (Z.lt_ge_cases d k1) as [|]; [apply H1; lia|].
  destruct (H2 (d - k1) ltac:(lia)) as (x & Hx1 & Hx2).
  exists x. split; [rewrite <- Hx1 | rewrite <- Hx2]; f_equal; lia.
Qed.

(** Merging adjacent blocks keeps the staircase. *)
Lemma collapse_stair a b (l : list (Z * Z * Z)) :
  stair_from a b 0 0 l -> Forall (fun m => 0 < m.2) l ->
  stair_from a b 0 0 (difflib.collapse l) /\ Forall (fun m => 0 < m.2) (difflib.collapse l).
Proof.
  intros Hst Hpos. unfold difflib.collapse.
  set (f := difflib.collapse_step).
  assert (forall l', l' `prefix_of` l ->
    (l' = [] /\ foldl f (0, 0, 0, []) l' = (0, 0, 0, [])) \/
    (exists i1 j1 k1 acc, foldl f (0, 0, 0, []) l' = (i1, j1, k1, acc) /\ 0 < k1 /\
       stair_from a b 0 0 (acc ++ [(i1, j1, k1)]) /\ Forall (fun m => 0 < m.2) acc /\
       Some (i1 + k1, j1 + k1) =
         (fun x : Z * Z * Z => (x.1.1 + x.2, x.1.2 + x.2)) <$> last l')) as Hinv.
  { induction l' as [|x l' IH] using rev_ind; intros Hpre; [by left | right].
    rewrite foldl_snoc.
    assert (l' `prefix_of` l) as Hpre' by (eapply prefix_app_l; exact Hpre).
    specialize (IH Hpre').
    assert (stair_from a b 0 0 (l' ++ [x])) as Hx.
    { destruct Hpre as [rest ->]. by apply stair_from_prefix in Hst. }
    assert (0 < x.2) as Hxpos.
    { rewrite Forall_forall in Hpos. apply Hpos. destruct Hpre as [rest ->]. set_solver. }
    apply stair_from_app in Hx as [_ Hx]. destruct x as [[i2 j2] k2].
    simpl in Hxpos, Hx. destruct Hx as (Hi & Hj & Hbi & Hbj & Hm2 & _).
    rewrite last_snoc. simpl.
    destruct IH as [[-> ->] | (i1 & j1 & k1 & acc & -> & Hk1 & Hacc & Hpacc & Hend)].
    - simpl in Hi, Hj. unfold f, difflib.collapse_step.
      destruct ((0 + 0 =? i2) && (0 + 0 =? j2)) eqn:Hadj.
      + apply andb_true_iff in Hadj as [Hi2%Z.eqb_eq Hj2%Z.eqb_eq]. simpl in Hi2, Hj2.
        subst i2 j2. exists 0, 0, (0 + k2), []. simpl.
        split_and!; try done; try lia; try (f_equal; f_equal; lia).
        destruct Hm2 as [? Hm2]. intros d Hd. apply Hm2. lia.
      + exists i2, j2, k2, []. simpl. split_and!; try done; try lia. apply Hm2.
    - destruct (last l') as [[[li lj] lk]|] eqn:Hlast; [|done].
      simpl in Hend, Hi, Hj. injection Hend as Hei Hej. rewrite <- Hei in Hi. rewrite <- Hej in Hj.
      apply stair_from_app in Hacc as [Hacc Hp].
      simpl in Hp. destruct Hp as (Hpi & Hpj & ? & ? & Hm1 & _).
      unfold f, difflib.collapse_step. destruct ((i1 + k1 =? i2) && (j1 + k1 =? j2)) eqn:Hadj.
      + apply andb_true_iff in Hadj as [Hi2%Z.eqb_eq Hj2%Z.eqb_eq]. subst i2 j2.
        exists i1, j1, (k1 + k2), acc. split_and!; try done; try lia.
        * apply stair_from_app. split; [done|]. simpl.
          split_and!; try done; try lia. by apply is_match_join.
        * f_equal. f_equal; lia.
      + exists i2, j2, k2, (acc ++ [(i1, j1, k1)]).
        destruct (Z.eqb_spec k1 0) as [|_]; [lia|].
        split_and!; try done.
        * apply stair_from_app. split.
          -- apply stair_from_app. split; [done|]. simpl. tauto.
          -- rewrite last_snoc. simpl. tauto.
        * apply Forall_app. split; [done|]. by apply Forall_singleton. }
  destruct (Hinv l ltac:(done)) as [[-> ->] | (i1 & j1 & k1 & acc & -> & Hk1 & Hacc & Hpacc & _)].
  - simpl. done.
  - destruct (Z.eqb_spec k1 0) as [|_]; [lia|]. split; [done|].
    apply Forall_app. split; [done|]. by apply Forall_singleton.
Qed.

(** The blocks of [get_matching_blocks]: a staircase of common blocks
    that ends with the empty block at the two lengths. *)
Lemma get_matching_blocks_stair a b :
  stair_from a b 0 0 (difflib.get_matching_blocks (difflib.new a b)).
Proof.
  unfold difflib.get_matching_blocks. cbn [difflib.a difflib.b difflib.new].
  set (mbs := difflib.mb_loop _ _ _ _).
  destruct (mb_loop_ok (2 * length a + 1) (difflib.new a b)
              [(0, Z.of_nat (length a), 0, Z.of_nat (length b))] []) as [Hg Hap].
  { apply new_b2j_sound. }
  { apply Forall_singleton. simpl. lia. }
  { constructor. }
  { simpl. apply all_apart_cons. split; constructor. }
  cbn [difflib.a difflib.b difflib.new] in Hg, Hap. fold mbs in Hg, Hap.
  assert (Forall (good_block a b) (merge_sort difflib.block_le mbs)) as Hg'.
  { by rewrite merge_sort_Permutation. }
  assert (stair_from a b 0 0 (merge_sort difflib.block_le mbs)) as Hsorted.
  { apply sorted_stair; [done| |apply (StronglySorted_merge_sort _)|].
    - eapply all_apart_perm; [|exact Hap]. by rewrite merge_sort_Permutation.
    - eapply Forall_impl; [exact Hg'|]. intros [[i j] k] Hb.
      destruct (good_block_bounds _ _ _ _ _ Hb) as (? & _ & ? & _). simpl. lia. }
  assert (Forall (fun m => 0 < m.2) (merge_sort difflib.block_le mbs)) as Hpos'.
  { eapply Forall_impl; [exact Hg'|]. by intros m [? _]. }
  destruct (collapse_stair a b (merge_sort difflib.block_le mbs) Hsorted Hpos') as [Hst Hpos].
  apply stair_from_app. split; [done|].
  - assert (forall l i j, stair_from a b i j l ->
              0 <= i <= Z.of_nat (length a) -> 0 <= j <= Z.of_nat (length b) ->
              Forall (fun m => 0 < m.2) l ->
              0 <= default i ((fun x : Z * Z * Z => x.1.1 + x.2) <$> last l) <= Z.of_nat (length a) /\
              0 <= default j ((fun x : Z * Z * Z => x.1.2 + x.2) <$> last l) <= Z.of_nat (length b))
      as Hb.
    { clear. intros l. induction l as [|[[ai bj] sz] l IH]; intros i j Hs Hi Hj Hp; [done|].
      simpl in Hs. destruct Hs as (? & ? & ? & ? & ? & Hs).
      apply Forall_cons in Hp as [Hp1 Hp]. simpl in Hp1.
      specialize (IH _ _ Hs ltac:(lia) ltac:(lia) Hp).
      destruct l as [|x l]; [simpl; lia|]. rewrite last_cons_cons.
      destruct (last (x :: l)) eqn:E; [exact IH | by apply last_None in E]. }
    specialize (Hb _ 0 0 Hst ltac:(lia) ltac:(lia) Hpos).
    simpl. split_and!; try lia.
Qed.

End MatchingBlocks.

(* ===================================================================== *)
(** * Opcodes and their groups                                            *)
(* ===================================================================== *)

Section Opcodes.
Context `{Countable A}.
Implicit Types (a b : list A) (c : difflib.tag * Z * Z * Z * Z).

Lemma contig_cons c l :
  contig (c :: l) <-> (forall c2, head l = Some c2 -> op_end c = op_start c2) /\ contig l.
Proof.
  destruct l as [|c2 l]; simpl.
  - split; [intros _; split; [done | done] | done].
  - split; [intros [? ?]; split; [by intros ? [= <-] | done]|].
    intros [Hh ?]. split; [by apply Hh | done].
Qed.

Lemma contig_app l1 l2 :
  contig (l1 ++ l2) <->
  contig l1 /\ contig l2 /\
  (forall c1 c2, last l1 = Some c1 -> head l2 = Some c2 -> op_end c1 = op_start c2).
Proof.
  induction l1 as [|c l1 IH].
  - simpl. split; [intros ?; split_and!; done | tauto].
  - change ((c :: l1) ++ l2) with (c :: (l1 ++ l2)). rewrite !contig_cons, IH.
    destruct l1 as [|c' l1].
    + simpl. split.
      * intros (Hh & _ & ? & _). split_and!; try done.
        intros c1 c2 [= <-] ?. by apply Hh.
      * intros (_ & ? & Hj). split_and!; try done. intros c2 ?. by apply (Hj c).
    + rewrite last_cons_cons. simpl. tauto.
Qed.

(** The opcodes built from a staircase of blocks *)
Lemma opcodes_loop a b (l : list (Z * Z * Z)) (i j : Z)
    (ans : list (difflib.tag * Z * Z * Z * Z)) :
  stair_from a b i j l -> 0 <= i -> 0 <= j ->
  exists news,
    (foldl difflib.opcode_step (i, j, ans) l).2 = ans ++ news /\
    Forall (valid_op a b) news /\ contig news /\
    (forall c, head news = Some c -> op_start c = (i, j)).
Proof.
  revert i j ans; induction l as [|[[ai bj] sz] l IH]; intros i j ans Hst Hi Hj.
  { exists []. simpl. rewrite app_nil_r. split_and!; try done. }
  cbn [stair_from] in Hst. destruct Hst as (Hia & Hjb & Hba & Hbb & Hm & Hst).
  pose proof Hm as [Hsz Hm'].
  cbn [foldl].
  set (p := if (i <? ai) && (j <? bj) then [(difflib.replace, i, ai, j, bj)]
            else if i <? ai then [(difflib.delete, i, ai, j, bj)]
            else if j <? bj then [(difflib.insert, i, ai, j, bj)] else []).
  set (e := if sz =? 0 then [] else [(difflib.equal, ai, ai + sz, bj, bj + sz)]).
  replace (difflib.opcode_step (i, j, ans) (ai, bj, sz)) with
    (ai + sz, bj + sz, ans ++ p ++ e).
  2:{ unfold difflib.opcode_step, p, e.
      destruct ((i <? ai) && (j <? bj)), (i <? ai), (j <? bj), (sz =? 0);
        by rewrite <- ?app_assoc, ?app_nil_r. }
  destruct (IH (ai + sz) (bj + sz) (ans ++ p ++ e) Hst ltac:(lia) ltac:(lia))
    as (news & -> & Hv & Hc & Hh).
  exists (p ++ e ++ news). rewrite <- !app_assoc.
  assert (Forall (valid_op a b) p /\ contig p /\
          (forall c, head p = Some c -> op_start c = (i, j)) /\
          (forall c, last p = Some c -> op_end c = (ai, bj)) /\
          (p = [] -> i = ai /\ j = bj)) as (Vp & Cp & Sp & Ep & Np).
  { unfold p.
    destruct (Z.ltb_spec i ai), (Z.ltb_spec j bj); simpl;
      split_and!; try done; try (intros ? [= <-]; done); try lia;
      apply Forall_singleton; simpl; lia. }
  assert (Forall (valid_op a b) e /\ contig e /\
          (forall c, head e = Some c -> op_start c = (ai, bj)) /\
          (forall c, last e = Some c -> op_end c = (ai + sz, bj + sz)) /\
          (e = [] -> sz = 0)) as (Ve & Ce & Se & Ee & Ne).
  { unfold e. destruct (Z.eqb_spec sz 0); simpl;
      split_and!; try done; try (intros ? [= <-]; done).
    apply Forall_singleton. simpl. split_and!; try lia. intros d Hd. apply Hm'. lia. }
  split_and!; try done.
  - by repeat (apply Forall_app; split).
  - apply contig_app. split_and!; [done| |].
    + apply contig_app. split_and!; [done|done|].
      intros c1 c2 H1 H2. rewrite (Ee _ H1), (Hh _ H2). done.
    + intros c1 c2 H1 H2. rewrite (Ep _ H1).
      destruct e as [|c e'] eqn:He.
      * simpl in H2. rewrite (Hh _ H2). rewrite (Ne eq_refl). f_equal; lia.
      * simpl in H2. injection H2 as <-. symmetry. by apply Se.
  - intros c Hc'. destruct p as [|c0 p'] eqn:Hp.
    + destruct (Np eq_refl) as [-> ->]. destruct e as [|c1 e'] eqn:He.
      * simpl in Hc'. rewrite (Hh _ Hc'). rewrite (Ne eq_refl). f_equal; lia.
      * simpl in Hc'. injection Hc' as <-. by apply Se.
    + simpl in Hc'. injection Hc' as <-. by apply Sp.
Qed.

Lemma get_opcodes_ok a b :
  Forall (valid_op a b) (difflib.get_opcodes (difflib.new a b)) /\
  contig (difflib.get_opcodes (difflib.new a b)).
Proof.
  unfold difflib.get_opcodes.
  destruct (opcodes_loop a b (difflib.get_matching_blocks (difflib.new a b)) 0 0 [])
    as (news & -> & ? & ? & _); [apply get_matching_blocks_stair | lia | lia | done].
Qed.

(** A part of an [equal] opcode is an [equal] opcode. *)
Lemma valid_op_head a b i1 i2 j1 j2 n :
  0 <= n -> valid_op a b (difflib.equal, i1, i2, j1, j2) ->
  valid_op a b (difflib.equal, i1, Z.min i2 (i1 + n), j1, Z.min j2 (j1 + n)).
Proof.
  intros Hn (? & ? & ? & ? & ? & Hm). simpl. split_and!; try lia.
  intros d Hd. apply Hm. lia.
Qed.

Lemma valid_op_tail a b i1 i2 j1 j2 n :
  0 <= n -> valid_op a b (difflib.equal, i1, i2, j1, j2) ->
  valid_op a b (difflib.equal, Z.max i1 (i2 - n), i2, Z.max j1 (j2 - n), j2).
Proof.
  intros Hn (? & ? & ? & ? & ? & Hm). simpl. split_and!; try lia.
  intros d Hd.
  destruct (Hm (Z.max i1 (i2 - n) - i1 + d) ltac:(lia)) as (x & Hx1 & Hx2).
  exists x. split; [rewrite <- Hx1 | rewrite <- Hx2]; f_equal; lia.
Qed.

Lemma fix_first_ok a b n codes :
  0 <= n -> Forall (valid_op a b) codes -> contig codes ->
  Forall (valid_op a b) (difflib.fix_first n codes) /\ contig (difflib.fix_first n codes).
Proof.
  intros Hn Hv Hc. unfold difflib.fix_first.
  destruct codes as [|[[[[tg i1] i2] j1] j2] codes]; [done|].
  destruct tg; try done. simpl.
  apply Forall_cons in Hv as [Hv1 Hv]. apply contig_cons in Hc as [Hh Hc].
  split; [apply Forall_cons; split; [by apply valid_op_tail | done]|].
  apply contig_cons. split; [|done]. intros c2 H2. by rewrite <- (Hh _ H2).
Qed.

Lemma contig_snoc l c :
  contig (l ++ [c]) <-> contig l /\ (forall c1, last l = Some c1 -> op_end c1 = op_start c).
Proof.
  rewrite contig_app. simpl. split.
  - intros (? & _ & Hj). split; [done|]. intros c1 H1. by apply Hj.
  - intros (? & Hj). split_and!; try done. intros c1 c2 H1 [= <-]. by apply Hj.
Qed.

Lemma fix_last_ok a b n codes :
  0 <= n -> Forall (valid_op a b) codes -> contig codes ->
  Forall (valid_op a b) (difflib.fix_last n codes) /\ contig (difflib.fix_last n codes).
Proof.
  intros Hn Hv Hc. unfold difflib.fix_last.
  destruct (last codes) as [[[[[tg i1] i2] j1] j2]|] eqn:Hl; [|done].
  destruct tg; try done.
  apply last_Some in Hl as [l' ->].
  rewrite length_app. simpl. replace (Nat.pred (length l' + 1)) with (length l' + 0)%nat by lia.
  rewrite insert_app_r. simpl.
  apply Forall_app in Hv as [Hv Hv1]. rewrite Forall_singleton in Hv1.
  apply contig_snoc in Hc as [Hc Hj].
  split; [apply Forall_app; split; [done|]; apply Forall_singleton; by apply valid_op_head|].
  apply contig_snoc. split; [done|]. intros c1 H1. by rewrite (Hj _ H1).
Qed.

Lemma grouped_loop a b n codes group groups :
  0 <= n ->
  Forall (valid_op a b) (group ++ codes) -> contig (group ++ codes) ->
  Forall (good_group a b) groups ->
  Forall (valid_op a b) (foldl (difflib.group_step n) (group, groups) codes).1 /\
  contig (foldl (difflib.group_step n) (group, groups) codes).1 /\
  Forall (good_group a b) (foldl (difflib.group_step n) (group, groups) codes).2.
Proof.
  intros Hn. revert group groups; induction codes as [|c codes IH];
    intros group groups Hv Hc Hg.
  { simpl. rewrite app_nil_r in Hv, Hc. done. }
  destruct c as [[[[tg i1] i2] j1] j2]. cbn [foldl].
  destruct (bool_decide (tg = difflib.equal) && (n + n <? i2 - i1)) eqn:Hsplit.
  - replace (difflib.group_step n (group, groups) (tg, i1, i2, j1, j2)) with
      ([(tg, Z.max i1 (i2 - n), i2, Z.max j1 (j2 - n), j2)],
       groups ++ [group ++ [(tg, i1, Z.min i2 (i1 + n), j1, Z.min j2 (j1 + n))]])
      by (unfold difflib.group_step; by rewrite Hsplit).
    apply andb_true_iff in Hsplit as [->%bool_decide_eq_true _].
    apply Forall_app in Hv as [Hv1 Hv2]. apply Forall_cons in Hv2 as [Hvc Hv2].
    apply contig_app in Hc as (Hc1 & Hc2 & Hj). apply contig_cons in Hc2 as [Hh Hc2].
    apply IH.
    + apply Forall_cons. split; [by apply valid_op_tail | done].
    + simpl. apply contig_cons. split; [|done]. intros c2 H2. by rewrite <- (Hh _ H2).
    + apply Forall_app. split; [done|]. apply Forall_singleton. split_and!.
      * by destruct group.
      * apply Forall_app. split; [done|]. apply Forall_singleton. by apply valid_op_head.
      * apply contig_snoc. split; [done|]. intros c1 H1. by rewrite (Hj c1 _ H1 eq_refl).
  - replace (difflib.group_step n (group, groups) (tg, i1, i2, j1, j2)) with
      (group ++ [(tg, i1, i2, j1, j2)], groups)
      by (unfold difflib.group_step; by rewrite Hsplit).
    apply IH; [| |done].
    + by rewrite <- app_assoc.
    + by rewrite <- app_assoc.
Qed.

(** Every group that [get_grouped_opcodes] yields is a row of valid
    opcodes (for a context of no less than zero lines). *)
Lemma get_grouped_opcodes_ok a b n :
  0 <= n -> Forall (good_group a b) (difflib.get_grouped_opcodes (difflib.new a b) n).
Proof.
  intros Hn. unfold difflib.get_grouped_opcodes.
  destruct (get_opcodes_ok a b) as [Hv Hc].
  destruct (difflib.get_opcodes (difflib.new a b)) as [|c0 codes0] eqn:Hcodes.
  { (* two empty sequences: the stand-in opcode makes no group *)
    destruct (Z.eq_dec n 0) as [->|]; [done|].
    unfold difflib.fix_first, difflib.fix_last. simpl.
    replace (Z.max 0 (1 - n)) with 0 by lia. simpl.
    replace (Z.min 1 (0 + n)) with 1 by lia. simpl.
    destruct (Z.ltb_spec (n + n) (1 - 0)); [lia|]. simpl. done. }
  destruct (fix_first_ok a b n (c0 :: codes0) Hn Hv Hc) as [Hv1 Hc1].
  destruct (fix_last_ok a b n _ Hn Hv1 Hc1) as [Hv2 Hc2].
  cbv zeta.
  set (codes := difflib.fix_last n (difflib.fix_first n (c0 :: codes0))) in *.
  pose proof (grouped_loop a b n codes [] [] Hn Hv2 Hc2 ltac:(constructor)) as Hloop.
  destruct (foldl (difflib.group_step n) ([], []) codes) as [group groups].
  destruct Hloop as (Hg1 & Hg2 & Hg3). cbn [fst snd] in *.
  assert (group <> [] -> Forall (good_group a b) (groups ++ [group])) as Hfin.
  { intros Hne. apply Forall_app. split; [done|]. by apply Forall_singleton. }
  destruct group as [|[[[[tg ?] ?] ?] ?] [|c' group']]; [done| |];
    destruct tg; try (by apply Hfin); done.
Qed.

End Opcodes.

(* ===================================================================== *)
(** * The text of a unified diff and its lines                            *)
(* ===================================================================== *)

Section DiffText.
Context {U : UnicodeData}.

Lemma splitlines_break (c : char) (s : str) :
  Py.is_linebreak c = true ->
  Py.splitlines (c :: s) =
    [] :: (if N.eqb c CR
           then match s with
                | c' :: s'' => if N.eqb c' LF then Py.splitlines s'' else Py.splitlines s
                | [] => Py.splitlines s
                end
           else Py.splitlines s).
Proof. intros Hc. simpl. by rewrite Hc. Qed.

(** The lines of a text that is followed by a newline and more text:
    the lines of the text itself, with an empty line when it is empty
    or ends in a line break other than a lone carriage return. *)
Lemma splitlines_app_LF (x y : str) :
  exists l0, Py.splitlines (x ++ LF :: y) = l0 ++ Py.splitlines y /\ l0 <> [] /\
             (l0 = Py.splitlines x \/ l0 = Py.splitlines x ++ [[]]).
Proof.
  induction x as [x IH] using (induction_ltof1 _ (@length N)); unfold ltof in IH.
  destruct x as [|c x].
  { exists [[]]. split_and!; [done | done | by right]. }
  change ((c :: x) ++ LF :: y) with (c :: (x ++ LF :: y)).
  destruct (Py.is_linebreak c) eqn:Hc.
  - rewrite !splitlines_break by done.
    destruct (N.eqb_spec c CR) as [->|Hcr].
    + destruct x as [|c' x'].
      * exists [[]]. simpl. split_and!; [done | done | by left].
      * change ((c' :: x') ++ LF :: y) with (c' :: (x' ++ LF :: y)). cbv beta iota.
        destruct (N.eqb c' LF).
        -- destruct (IH x' ltac:(simpl; lia)) as (l0 & -> & _ & Hl0).
           exists ([] :: l0). split_and!; [done | done |].
           destruct Hl0 as [-> | ->]; [by left | by right].
        -- destruct (IH (c' :: x') ltac:(simpl; lia)) as (l0 & Hs & _ & Hl0).
           change ((c' :: x') ++ LF :: y) with (c' :: (x' ++ LF :: y)) in Hs. rewrite Hs.
           exists ([] :: l0). split_and!; [done | done |].
           destruct Hl0 as [-> | ->]; [by left | by right].
    + destruct (IH x ltac:(simpl; lia)) as (l0 & -> & _ & Hl0).
      exists ([] :: l0). split_and!; [done | done |].
      destruct Hl0 as [-> | ->]; [by left | by right].
  - rewrite !splitlines_cons_plain by done.
    destruct (IH x ltac:(simpl; lia)) as (l0 & -> & Hne & Hl0).
    destruct l0 as [|l l0]; [done|]. simpl.
    exists ((c :: l) :: l0). split_and!; [done | done |].
    destruct (Py.splitlines x) as [|l' ls'].
    + destruct Hl0 as [Hl0 | Hl0]; [done|]. injection Hl0 as -> ->. by left.
    + destruct Hl0 as [Hl0 | Hl0]; injection Hl0 as -> ->; [by left | by right].
Qed.

(** ** The lines of a diff, before they are joined *)

Lemma simage_cons d ds :
  simage (d :: ds) =
  match d with
  | Hdr h => [h]
  | Body k c => (marker k :: c) :: match ds with [] => [] | _ :: _ => [[]] end
  end ++ simage ds.
Proof. done. Qed.

Lemma break_free_marker k c : break_free c -> break_free (marker k :: c).
Proof. intros Hc. constructor; [by destruct k | done]. Qed.

Lemma splitlines_join_render (ds : list dline) :
  Forall dline_ok ds -> Py.splitlines (Py.join [LF] (render <$> ds)) = simage ds.
Proof.
  induction 1 as [|d ds Hd Hds IH]; [done|].
  destruct ds as [|d' ds].
  - destruct d as [h|k c]; cbn [fmap list_fmap render Py.join simage dline_ok app] in *.
    + destruct Hd. by apply splitlines_plain.
    + change (marker k :: c ++ [LF]) with ((marker k :: c) ++ LF :: []).
      rewrite (splitlines_line (marker k :: c) []) by (by apply break_free_marker). done.
  - rewrite fmap_cons, join_cons by done.
    rewrite simage_cons, <- IH.
    destruct d as [h|k c]; simpl in Hd.
    + destruct Hd. change (render (Hdr h) ++ [LF] ++ ?t) with (h ++ LF :: t).
      by rewrite splitlines_line.
    + change (render (Body k c) ++ [LF] ++ ?t) with ((marker k :: c ++ [LF]) ++ LF :: t).
      replace ((marker k :: c ++ [LF]) ++ LF :: Py.join [LF] (render <$> d' :: ds))
        with ((marker k :: c) ++ LF :: (LF :: Py.join [LF] (render <$> d' :: ds))).
      2:{ simpl. by rewrite <- app_assoc. }
      rewrite (splitlines_line (marker k :: c)) by (by apply break_free_marker).
      by rewrite splitlines_LF.
Qed.

(** ** The inner loop of the parser on such lines *)

Lemma hunk_body_skip_empty lines ops ob nb :
  App.hunk_body ([] :: lines) ops ob nb = App.hunk_body lines ops ob nb.
Proof. reflexivity. Qed.

Lemma hunk_body_marked k c lines ops ob nb :
  App.hunk_body ((marker k :: c) :: lines) ops ob nb =
  App.hunk_body lines (ops ++ op_of (Body k c)) (ob ++ old_of (Body k c))
                (nb ++ new_of (Body k c)).
Proof. destruct k; simpl; by rewrite ?app_nil_r. Qed.

Lemma hunk_body_simage (body rest : list dline) ops ob nb :
  Forall is_body body -> at_header rest ->
  App.hunk_body (simage (body ++ rest)) ops ob nb =
  (ops ++ (body ≫= op_of), ob ++ (body ≫= old_of), nb ++ (body ≫= new_of), simage rest).
Proof.
  intros Hb Hr; revert ops ob nb; induction Hb as [|d body Hd _ IH]; intros ops ob nb.
  - simpl. rewrite !app_nil_r. destruct rest as [|[h|k c] rest]; [done| |done].
    simpl in *. by rewrite Hr.
  - destruct d as [h|k c]; [done|].
    change ((Body k c :: body) ++ rest) with (Body k c :: (body ++ rest)).
    rewrite simage_cons. cbn [app]. rewrite hunk_body_marked.
    assert (forall l, App.hunk_body (match body ++ rest with [] => [] | _ :: _ => [[]] end ++ l)
                        (ops ++ op_of (Body k c)) (ob ++ old_of (Body k c))
                        (nb ++ new_of (Body k c)) =
                      App.hunk_body l (ops ++ op_of (Body k c)) (ob ++ old_of (Body k c))
                        (nb ++ new_of (Body k c))) as ->.
    { intros l. by destruct (body ++ rest). }
    rewrite IH. cbn [mbind list_bind]. change (mbind ?f ?l) with (l ≫= f).
    by rewrite <- !app_assoc.
Qed.

End DiffText.

(* ===================================================================== *)
(** * The header of a hunk: printed, then matched                         *)
(* ===================================================================== *)

Section HunkHeader.
Context {U : UnicodeData}.

Lemma not_digit_at (c : char) (t : str) : (c < 48)%N -> Re.at_word Re.digit (c :: t) = false.
Proof. intros Hc. simpl. by apply ascii_not_digit. Qed.

Lemma head_opt_lit_yes s sn t cs :
  head (Re.rmatch (Re.Opt (Re.Lit s)) (Re.State sn (s ++ t) cs))
  = Some (Re.State (rev s ++ sn) t cs).
Proof.
  change (Re.rmatch (Re.Opt (Re.Lit s)) ?st) with (Re.rmatch (Re.Lit s) st ++ [st]).
  by rewrite rmatch_lit_app.
Qed.

Lemma head_opt_lit_no s sn rs cs :
  Py.startswith s rs = false ->
  head (Re.rmatch (Re.Opt (Re.Lit s)) (Re.State sn rs cs)) = Some (Re.State sn rs cs).
Proof. intros Hs. simpl. by rewrite Hs. Qed.

Lemma head_lit_cat s r sn t cs :
  head (Re.rmatch (Re.Lit s ⋅ r) (Re.State sn (s ++ t) cs))
  = head (Re.rmatch r (Re.State (rev s ++ sn) t cs)).
Proof.
  change (Re.rmatch (Re.Lit s ⋅ r) ?st) with (Re.rmatch (Re.Lit s) st ≫= Re.rmatch r).
  rewrite rmatch_lit_app. simpl. by rewrite app_nil_r.
Qed.

(** The part [(\d+),?(\d* )] of the pattern, on a printed range that is
    followed by a blank *)
Lemma head_range (n1 n2 : nat) (K : Re.regex) (P : Re.state -> Prop)
    (sn : str) (cs : list (nat * str)) (d1 d2 : str) (c : bool) (t : str) :
  digits d1 -> d1 <> [] -> digits d2 -> (c = false -> d2 = []) ->
  (forall sn', exists m, head (Re.rmatch K (Re.State sn' (32%N :: t) ((n2, d2) :: (n1, d1) :: cs)))
                         = Some m /\ P m) ->
  exists m, head (Re.rmatch (Re.Group n1 (Re.Rep Re.digit 1) ⋅ Re.Opt (Re.Lit (u ","))
                              ⋅ Re.Group n2 (Re.Rep Re.digit 0) ⋅ K)
                    (Re.State sn (d1 ++ comma c ++ d2 ++ 32%N :: t) cs)) = Some m /\ P m.
Proof.
  intros D1 N1 D2 Hc HK.
  set (sn1 := rev d1 ++ sn).
  set (sn2 := rev (comma c) ++ sn1).
  destruct (HK (rev d2 ++ sn2)) as (m & Hm & HP). exists m. split; [|done].
  eapply head_rmatch_cat'.
  { apply head_group_rep; [done| |destruct d1; [done | simpl; lia]].
    destruct c; [by apply not_digit_at|]. rewrite (Hc eq_refl). by apply not_digit_at. }
  eapply (head_rmatch_cat' _ _ _ (Re.State sn2 (d2 ++ 32%N :: t) ((n1, d1) :: cs))).
  { fold sn1. unfold sn2. destruct c.
    - apply head_opt_lit_yes.
    - rewrite (Hc eq_refl). apply head_opt_lit_no. done. }
  eapply head_rmatch_cat'; [|exact Hm].
  apply head_group_rep; [done | by apply not_digit_at | simpl; lia].
Qed.

(** A printed header matches the pattern, and the groups hold the
    printed numbers. *)
Lemma header_match (d1 d2 d3 d4 : str) (c1 c2 : bool) :
  digits d1 -> d1 <> [] -> digits d2 -> (c1 = false -> d2 = []) ->
  digits d3 -> d3 <> [] -> digits d4 -> (c2 = false -> d4 = []) ->
  exists m,
    Re.match_ App.hunk_header_re
      (u "@@ -" ++ (d1 ++ comma c1 ++ d2) ++ u " +" ++ (d3 ++ comma c2 ++ d4) ++ u " @@")
    = Some m /\
    Re.caps m = [(4%nat, d4); (3%nat, d3); (2%nat, d2); (1%nat, d1)].
Proof.
  intros D1 N1 D2 H1 D3 N3 D4 H2. unfold Re.match_, Re.start, App.hunk_header_re.
  rewrite head_lit_cat.
  replace ((d1 ++ comma c1 ++ d2) ++ u " +" ++ (d3 ++ comma c2 ++ d4) ++ u " @@")
    with (d1 ++ comma c1 ++ d2 ++ 32%N :: (u "+" ++ d3 ++ comma c2 ++ d4 ++ 32%N :: u "@@")).
  2:{ rewrite <- !app_assoc. done. }
  apply head_range; try done. intros sn'.
  change (32%N :: u "+" ++ ?x) with (u " +" ++ x). rewrite head_lit_cat.
  apply head_range; try done. intros sn''.
  eexists. split.
  { change (32%N :: u "@@") with (u " @@" ++ []). rewrite rmatch_lit_app. done. }
  reflexivity.
Qed.

(** ** [_format_range_unified] *)

Lemma format_range (start stop : Z) :
  0 <= start <= stop ->
  exists d1 d2 c,
    difflib._format_range_unified start stop = d1 ++ comma c ++ d2 /\
    ascii_digits d1 /\ d1 <> [] /\ ascii_digits d2 /\ (c = false -> d2 = []) /\
    App.int (Some d1) = Py.Ok (range_start start stop) /\
    App.int (App.or_one (Some d2)) = Py.Ok (stop - start).
Proof.
  intros Hs. unfold difflib._format_range_unified, range_start.
  destruct (Z.eqb_spec (stop - start) 1) as [H1|H1].
  - exists (Py.str_of_int (start + 1)), [], false.
    destruct (str_of_int_nonneg (start + 1)) as (? & ? & ?); [lia|].
    destruct (Z.eqb_spec (stop - start) 0); [lia|].
    rewrite app_nil_r. split_and!; try done.
    + apply Forall_nil_2.
    + by apply int_str_of_int; lia.
    + rewrite H1. apply int_one.
  - destruct (Z.eqb_spec (stop - start) 0) as [H0|H0].
    + exists (Py.str_of_int (start + 1 - 1)), (Py.str_of_int (stop - start)), true.
      destruct (str_of_int_nonneg (start + 1 - 1)) as (? & ? & ?); [lia|].
      destruct (str_of_int_nonneg (stop - start)) as (? & Hne & ?); [lia|].
      split_and!; try done.
      * replace (start + 1 - 1) with start by lia. apply int_str_of_int; lia.
      * unfold App.or_one. destruct (Py.str_of_int (stop - start)) eqn:E; [done|].
        rewrite <- E. apply int_str_of_int; lia.
    + exists (Py.str_of_int (start + 1)), (Py.str_of_int (stop - start)), true.
      destruct (str_of_int_nonneg (start + 1)) as (? & ? & ?); [lia|].
      destruct (str_of_int_nonneg (stop - start)) as (? & Hne & ?); [lia|].
      split_and!; try done.
      * apply int_str_of_int; lia.
      * unfold App.or_one. destruct (Py.str_of_int (stop - start)) eqn:E; [done|].
        rewrite <- E. apply int_str_of_int; lia.
Qed.

Lemma break_free_ascii_digits (d : str) : ascii_digits d -> break_free d.
Proof.
  intros Hd. eapply Forall_impl; [exact Hd|]. intros c Hc. simpl in Hc.
  unfold Py.is_linebreak. apply bool_decide_eq_false. intros Hb.
  repeat (apply elem_of_cons in Hb as [-> | Hb]; [lia|]). by apply elem_of_nil in Hb.
Qed.

End HunkHeader.

(* ===================================================================== *)
(** * Slices, and what a group of opcodes prints                          *)
(* ===================================================================== *)

Section Slices.
Context {X : Type}.

Lemma slice_in_range (l : list X) (i j : Z) :
  0 <= i <= j -> j <= Z.of_nat (length l) ->
  Py.slice l i j = take (Z.to_nat (j - i)) (drop (Z.to_nat i) l).
Proof.
  intros Hi Hj. unfold Py.slice, Py.clamp_index.
  destruct (Z.ltb_spec i 0), (Z.ltb_spec j 0); try lia.
  by rewrite !Z.min_l by lia.
Qed.

Lemma slice_empty (l : list X) (i : Z) : Py.slice l i i = [].
Proof. unfold Py.slice. by rewrite Z.sub_diag. Qed.

Lemma slice_app (l : list X) (i j k : Z) :
  0 <= i <= j -> j <= k -> k <= Z.of_nat (length l) ->
  Py.slice l i j ++ Py.slice l j k = Py.slice l i k.
Proof.
  intros Hi Hj Hk. rewrite !slice_in_range by lia.
  replace (Z.to_nat (k - i)) with (Z.to_nat (j - i) + Z.to_nat (k - j))%nat by lia.
  rewrite <- take_take_drop, drop_drop. do 3 f_equal. lia.
Qed.

Lemma slice_lookup (l : list X) (i j : Z) (d : nat) :
  0 <= i <= j -> j <= Z.of_nat (length l) -> Z.of_nat d < j - i ->
  Py.slice l i j !! d = difflib.item l (i + Z.of_nat d).
Proof.
  intros Hi Hj Hd. rewrite slice_in_range by lia.
  rewrite lookup_take_lt by lia. rewrite lookup_drop.
  unfold difflib.item. destruct (Z.ltb_spec (i + Z.of_nat d) 0); [lia|].
  f_equal. lia.
Qed.

Lemma slice_length (l : list X) (i j : Z) :
  0 <= i <= j -> j <= Z.of_nat (length l) ->
  length (Py.slice l i j) = Z.to_nat (j - i).
Proof.
  intros Hi Hj. rewrite slice_in_range by lia.
  rewrite length_take, length_drop. lia.
Qed.

Lemma Forall_slice (P : X -> Prop) (l : list X) (i j : Z) :
  Forall P l -> Forall P (Py.slice l i j).
Proof. intros Hl. unfold Py.slice. by apply Forall_take, Forall_drop. Qed.

End Slices.

Section GroupText.
Context {U : UnicodeData}.

Lemma chop_newline_line (c : str) : chop_newline (c ++ [LF]) = c.
Proof.
  unfold chop_newline, Py.endswith. rewrite rev_app_distr. simpl.
  rewrite length_app. simpl.
  replace (length c + 1 - 1)%nat with (length c) by lia.
  by rewrite take_app_length.
Qed.

Lemma render_marked (k : App.opkind) (ls : list str) :
  Forall is_line ls ->
  (fun l => marker k :: l) <$> ls = render <$> ((fun l => Body k (chop_newline l)) <$> ls).
Proof.
  induction 1 as [|l ls (c & -> & _) _ IH]; [done|].
  rewrite !fmap_cons, IH. f_equal. cbn [render]. by rewrite chop_newline_line.
Qed.

Lemma group_lines_render (a b : list str) (g : list (difflib.tag * Z * Z * Z * Z)) :
  Forall is_line a -> Forall is_line b ->
  difflib.group_lines a b g = render <$> (g ≫= op_dlines a b).
Proof.
  intros Ha Hb. unfold difflib.group_lines.
  induction g as [|[[[[tg i1] i2] j1] j2] g IH]; [done|].
  cbn [mbind list_bind]. change (mbind ?f ?l) with (l ≫= f) in *.
  rewrite fmap_app, <- IH. f_equal.
  pose proof (Forall_slice _ _ i1 i2 Ha) as Hsa.
  pose proof (Forall_slice _ _ j1 j2 Hb) as Hsb.
  unfold op_dlines.
  pose proof (render_marked App.del _ Hsa) as Hd.
  pose proof (render_marked App.add _ Hsb) as Hi.
  pose proof (render_marked App.ctx _ Hsa) as He.
  destruct tg; [ | | | exact He]; repeat case_bool_decide; rewrite ?fmap_app;
    first [ exact (f_equal2 app Hd Hi) | exact (f_equal2 app Hd eq_refl)
          | exact (f_equal2 app eq_refl Hi) | done ].
Qed.

Lemma op_dlines_body (a b : list str) c : Forall is_body (op_dlines a b c).
Proof.
  destruct c as [[[[tg i1] i2] j1] j2]. unfold op_dlines.
  destruct tg; repeat case_bool_decide; rewrite ?Forall_app, ?Forall_fmap;
    repeat split; try apply Forall_nil_2; by apply Forall_true.
Qed.

Lemma op_dlines_ok (a b : list str) c :
  Forall is_line a -> Forall is_line b -> Forall dline_ok (op_dlines a b c).
Proof.
  intros Ha Hb. destruct c as [[[[tg i1] i2] j1] j2].
  pose proof (Forall_slice _ _ i1 i2 Ha) as Hsa.
  pose proof (Forall_slice _ _ j1 j2 Hb) as Hsb.
  assert (forall k ls, Forall is_line ls ->
            Forall dline_ok ((fun l => Body k (chop_newline l)) <$> ls)) as Hk.
  { intros k ls Hls. rewrite Forall_fmap. eapply Forall_impl; [exact Hls|].
    intros l (c & -> & Hc). simpl. by rewrite chop_newline_line. }
  unfold op_dlines.
  destruct tg; repeat case_bool_decide; rewrite ?Forall_app;
    repeat split; try apply Forall_nil_2; by apply Hk.
Qed.

Lemma bind_old_of (k : App.opkind) (ls : list str) :
  ((fun l => Body k (chop_newline l)) <$> ls) ≫= old_of =
  if decide (k = App.add) then [] else chop_newline <$> ls.
Proof.
  induction ls as [|l ls IH]; [by destruct (decide _)|].
  rewrite fmap_cons. cbn [mbind list_bind]. change (mbind ?f ?l) with (l ≫= f) in *.
  rewrite IH. by destruct k.
Qed.

Lemma bind_new_of (k : App.opkind) (ls : list str) :
  ((fun l => Body k (chop_newline l)) <$> ls) ≫= new_of =
  if decide (k = App.del) then [] else chop_newline <$> ls.
Proof.
  induction ls as [|l ls IH]; [by destruct (decide _)|].
  rewrite fmap_cons. cbn [mbind list_bind]. change (mbind ?f ?l) with (l ≫= f) in *.
  rewrite IH. by destruct k.
Qed.

(** The two sides of an [equal] opcode are the same lines. *)
Lemma equal_slices (a b : list str) i1 i2 j1 j2 :
  valid_op a b (difflib.equal, i1, i2, j1, j2) -> Py.slice a i1 i2 = Py.slice b j1 j2.
Proof.
  intros (Hi & Hi2 & Hj & Hj2 & Hlen & Heq).
  apply list_eq_same_length with (Z.to_nat (i2 - i1)).
  - rewrite slice_length by done. f_equal. lia.
  - by apply slice_length.
  - intros d x y Hd Hx Hy.
    rewrite slice_lookup in Hx by lia. rewrite slice_lookup in Hy by lia.
    destruct (Heq (Z.of_nat d)) as (z & Hz1 & Hz2); [lia|]. congruence.
Qed.

(** The old side and the new side of one opcode *)
Lemma op_dlines_sides (a b : list str) tg i1 i2 j1 j2 :
  valid_op a b (tg, i1, i2, j1, j2) ->
  op_dlines a b (tg, i1, i2, j1, j2) ≫= old_of = chop_newline <$> Py.slice a i1 i2 /\
  op_dlines a b (tg, i1, i2, j1, j2) ≫= new_of = chop_newline <$> Py.slice b j1 j2.
Proof.
  intros Hv. pose proof Hv as (Hi & Hi2 & Hj & Hj2 & Ht).
  unfold op_dlines. destruct tg.
  - cbn [bool_decide decide_rel]. repeat case_bool_decide;
      try (exfalso; by set_solver).
    rewrite !bind_app, !bind_old_of, !bind_new_of. cbn. by rewrite app_nil_r.
  - subst j2. cbn [bool_decide decide_rel]. repeat case_bool_decide;
      try (exfalso; by set_solver).
    rewrite !bind_app, !bind_old_of, !bind_new_of. cbn.
    by rewrite slice_empty, app_nil_r.
  - subst i2. cbn [bool_decide decide_rel]. repeat case_bool_decide;
      try (exfalso; by set_solver).
    rewrite !bind_app, !bind_old_of, !bind_new_of. cbn.
    by rewrite slice_empty.
  - rewrite bind_old_of, bind_new_of. cbn. by rewrite (equal_slices _ _ _ _ _ _ Hv).
Qed.

Lemma valid_op_bounds (a b : list str) c :
  valid_op a b c ->
  0 <= (op_start c).1 <= (op_end c).1 /\ (op_end c).1 <= Z.of_nat (length a) /\
  0 <= (op_start c).2 <= (op_end c).2 /\ (op_end c).2 <= Z.of_nat (length b).
Proof. destruct c as [[[[tg i1] i2] j1] j2]. simpl. intuition lia. Qed.

(** The old side and the new side of a run of opcodes that follow one
    another: the lines between where the first starts and where the last
    ends. *)
Lemma group_sides (a b : list str) (g : list (difflib.tag * Z * Z * Z * Z)) c0 cl :
  Forall (valid_op a b) g -> contig g -> head g = Some c0 -> last g = Some cl ->
  (0 <= (op_start c0).1 <= (op_end cl).1 /\ (op_end cl).1 <= Z.of_nat (length a) /\
   0 <= (op_start c0).2 <= (op_end cl).2 /\ (op_end cl).2 <= Z.of_nat (length b)) /\
  (g ≫= op_dlines a b) ≫= old_of
    = chop_newline <$> Py.slice a (op_start c0).1 (op_end cl).1 /\
  (g ≫= op_dlines a b) ≫= new_of
    = chop_newline <$> Py.slice b (op_start c0).2 (op_end cl).2.
Proof.
  intros Hv; revert c0; induction Hv as [|c g Hc Hg IH]; intros c0 Hct Hh Hl; [done|].
  injection Hh as <-.
  pose proof (valid_op_bounds _ _ _ Hc) as Hb.
  destruct g as [|c2 g].
  - injection Hl as <-. split; [done|].
    cbn [mbind list_bind]. change (mbind ?f ?l) with (l ≫= f).
    rewrite !app_nil_r. destruct c as [[[[tg i1] i2] j1] j2].
    by apply op_dlines_sides.
  - destruct Hct as [Hce Hct].
    destruct (IH c2 Hct eq_refl) as (Hb2 & Ho & Hn).
    { by rewrite last_cons_cons in Hl. }
    pose proof Hb as Hb'. rewrite Hce in Hb'. split; [lia|].
    rewrite (bind_cons (op_dlines a b) c (c2 :: g)), !bind_app.
    rewrite Ho, Hn. clear IH Ho Hn. destruct c as [[[[tg i1] i2] j1] j2].
    destruct (op_dlines_sides a b tg i1 i2 j1 j2 Hc) as [-> ->].
    rewrite <- !fmap_app. cbn [op_start op_end fst snd] in *.
    unfold op_end, op_start in Hce. cbn [fst snd] in Hce.
    injection Hce as Hei Hej. rewrite <- Hei, <- Hej in *.
    split; f_equal; apply slice_app; lia.
Qed.

End GroupText.

(* ===================================================================== *)
(** * From the groups of opcodes to the parsed hunks                      *)
(* ===================================================================== *)

Section GroupsToHunks.
Context {U : UnicodeData}.

Lemma head_last_nonempty {X} (g : list X) :
  g <> [] -> exists c0 cl, head g = Some c0 /\ last g = Some cl.
Proof.
  intros Hg. destruct g as [|c g]; [done|]. exists c.
  destruct (last (c :: g)) as [cl|] eqn:E; [by eauto|].
  by apply last_None in E.
Qed.

Lemma hunk_lines_render (a b : list str) g :
  Forall is_line a -> Forall is_line b ->
  difflib.hunk_lines a b [] g = render <$> group_dlines a b g.
Proof.
  intros Ha Hb. unfold difflib.hunk_lines, group_dlines, group_header.
  destruct g as [|c g]; [done|].
  destruct (head_last_nonempty (c :: g)) as (c0 & cl & -> & ->); [done|].
  rewrite fmap_cons, <- group_lines_render by done. done.
Qed.

Lemma group_dlines_body (a b : list str) g :
  Forall is_body (g ≫= op_dlines a b).
Proof.
  induction g as [|c g IH]; [constructor|].
  rewrite bind_cons. apply Forall_app. split; [apply op_dlines_body | done].
Qed.

Lemma break_free_literal (s : string) :
  forallb (fun c => negb (Py.is_linebreak c)) (u s) = true -> break_free (u s).
Proof.
  intros Hs. apply Forall_forall. intros c Hc.
  rewrite forallb_forall in Hs. apply negb_true_iff, Hs.
  by apply list_elem_of_In.
Qed.

(** The header of a good group: one line, recognised as a header, with
    the numbers of the group. *)
Lemma group_header_ok (a b : list str) g c0 cl :
  good_group a b g -> head g = Some c0 -> last g = Some cl ->
  break_free (group_header g) /\ group_header g <> [] /\
  Py.startswith App.hunk_mark (group_header g) = true /\
  exists m, Re.match_ App.hunk_header_re (group_header g) = Some m /\
    App.int (Re.group m 1) = Py.Ok (range_start (op_start c0).1 (op_end cl).1) /\
    App.int (App.or_one (Re.group m 2)) = Py.Ok ((op_end cl).1 - (op_start c0).1) /\
    App.int (Re.group m 3) = Py.Ok (range_start (op_start c0).2 (op_end cl).2) /\
    App.int (App.or_one (Re.group m 4)) = Py.Ok ((op_end cl).2 - (op_start c0).2).
Proof.
  intros (Hne & Hv & Hct) Hh Hl. unfold group_header. rewrite Hh, Hl.
  destruct (group_sides a b g c0 cl Hv Hct Hh Hl) as ((Hi & Hi2 & Hj & Hj2) & _).
  destruct (format_range (op_start c0).1 (op_end cl).1 Hi)
    as (d1 & d2 & c1 & -> & D1 & N1 & D2 & C1 & I1 & I2).
  destruct (format_range (op_start c0).2 (op_end cl).2 Hj)
    as (d3 & d4 & c2 & -> & D3 & N3 & D4 & C2 & I3 & I4).
  split_and!.
  - repeat apply break_free_app; try (by apply break_free_ascii_digits);
      try (by apply break_free_literal); try constructor.
    + destruct c1; [by apply break_free_literal | constructor].
    + destruct c2; [by apply break_free_literal | constructor].
  - done.
  - done.
  - rewrite app_nil_r.
    destruct (header_match d1 d2 d3 d4 c1 c2) as (m & Hm & Hcaps);
      try done; try (by apply ascii_digits_digits).
    exists m. split; [exact Hm|]. unfold Re.group. rewrite Hcaps. cbn.
    done.
Qed.

Lemma at_header_groups (a b : list str) gs :
  Forall (good_group a b) gs -> at_header (gs ≫= group_dlines a b).
Proof.
  intros Hgs. destruct Hgs as [|g gs Hg Hgs]; [done|].
  rewrite bind_cons. pose proof Hg as (Hne & _).
  destruct g as [|c g]; [done|]. cbn [group_dlines app at_header].
  destruct (head_last_nonempty (c :: g)) as (c0 & cl & Hh & Hl); [done|].
  by destruct (group_header_ok a b _ c0 cl Hg Hh Hl) as (_ & _ & ? & _).
Qed.

(** The parser, on the lines of the groups, gives one hunk for each
    group. *)
Lemma parse_groups (a b : list str) gs hunks :
  Forall (good_group a b) gs ->
  parse_lines (simage (gs ≫= group_dlines a b)) hunks
  = Py.Ok (hunks ++ (gs ≫= hunk_of a b)).
Proof.
  intros Hgs; revert hunks; induction Hgs as [|g gs Hg Hgs IH]; intros hunks.
  { cbn. by rewrite app_nil_r. }
  rewrite !bind_cons. pose proof Hg as (Hne & _).
  destruct (head_last_nonempty g Hne) as (c0 & cl & Hh & Hl).
  destruct (group_header_ok a b g c0 cl Hg Hh Hl)
    as (_ & _ & Hs & m & Hm & I1 & I2 & I3 & I4).
  unfold group_dlines at 1. destruct g as [|c g']; [done|].
  set (g := c :: g') in *.
  change ((Hdr (group_header g) :: g ≫= op_dlines a b) ++ ?r)
    with (Hdr (group_header g) :: ((g ≫= op_dlines a b) ++ r)).
  rewrite simage_cons. cbn [app].
  rewrite parse_lines_cons. unfold parse_step. rewrite Hs, Hm, I1, I2, I3, I4.
  rewrite hunk_body_simage;
    [|apply group_dlines_body | by apply at_header_groups].
  repeat (change (mbind ?f (Py.Ok ?x)) with (f x); cbv beta).
  cbn [fst snd app]. rewrite IH. unfold hunk_of at 2. rewrite Hh, Hl.
  by rewrite <- app_assoc.
Qed.

Lemma group_dlines_ok (a b : list str) gs :
  Forall is_line a -> Forall is_line b -> Forall (good_group a b) gs ->
  Forall dline_ok (gs ≫= group_dlines a b).
Proof.
  intros Ha Hb. induction 1 as [|g gs Hg Hgs IH]; [constructor|].
  rewrite bind_cons. apply Forall_app. split; [|done].
  pose proof Hg as (Hne & _).
  destruct (head_last_nonempty g Hne) as (c0 & cl & Hh & Hl).
  destruct (group_header_ok a b g c0 cl Hg Hh Hl) as (Hbf & Hn & _).
  unfold group_dlines. destruct g as [|c g']; [done|].
  constructor; [done|]. generalize (c :: g'). intros g.
  induction g as [|c' g IHg]; [constructor|].
  rewrite bind_cons. apply Forall_app. split; [by apply op_dlines_ok | done].
Qed.

(** The hunks of a diff of lines: one for each group of opcodes, as soon
    as no line of the file names begins like a header. *)
Lemma parse_unified_diff_text (a b : list str) (ln rn : str) (n : Z) :
  Forall is_line a -> Forall is_line b -> 0 <= n ->
  Forall (fun l => Py.startswith App.hunk_mark l = false) (file_lines ln rn) ->
  App.parse_unified_diff (App.unified_diff_text a b ln rn n)
  = Py.Ok (difflib.get_grouped_opcodes (difflib.new a b) n ≫= hunk_of a b).
Proof.
  intros Ha Hb Hn Hnames.
  pose proof (get_grouped_opcodes_ok a b n Hn) as Hgs.
  unfold App.unified_diff_text, difflib.unified_diff.
  set (gs := difflib.get_grouped_opcodes (difflib.new a b) n) in *.
  destruct gs as [|g0 gs0] eqn:E; [by vm_compute|].
  rewrite <- E in *.
  assert (gs ≫= (fun g => difflib.hunk_lines a b [] g)
          = render <$> (gs ≫= group_dlines a b)) as ->.
  { clear -Ha Hb. induction gs as [|g gs IH]; [done|].
    rewrite !bind_cons, fmap_app, IH, hunk_lines_render by done. done. }
  pose proof (group_dlines_ok a b gs Ha Hb Hgs) as Hok.
  pose proof (parse_groups a b gs [] Hgs) as Hparse.
  assert (gs ≫= group_dlines a b <> []) as Hds.
  { rewrite E, bind_cons. rewrite E in Hgs. apply Forall_cons_1 in Hgs as [(Hne & _) _].
    by destruct g0. }
  set (ds := gs ≫= group_dlines a b) in *. clearbody ds. clear E.
  rewrite !app_nil_r.
  set (h1 := u "--- " ++ ln) in *. set (h2 := u "+++ " ++ rn) in *.
  assert (Py.join [LF] (h1 :: h2 :: (render <$> ds))
          = (h1 ++ LF :: h2) ++ LF :: Py.join [LF] (render <$> ds)) as Hj.
  { rewrite !join_cons; [|by destruct ds | done]. rewrite <- !app_assoc. done. }
  rewrite Hj. clear Hj.
  destruct ((h1 ++ LF :: h2) ++ LF :: Py.join [LF] (render <$> ds)) as [|c t] eqn:Et.
  { by destruct h1. }
  rewrite <- Et. clear Et c t.
  rewrite parse_unified_diff_lines.
  destruct (splitlines_app_LF (h1 ++ LF :: h2) (Py.join [LF] (render <$> ds)))
    as (l0 & -> & _ & Hl0).
  rewrite splitlines_join_render by done.
  rewrite parse_lines_skip_all; [exact Hparse|].
  unfold file_lines in Hnames. rewrite join_cons in Hnames by done.
  rewrite join_singleton in Hnames.
  destruct Hl0 as [-> | ->]; [exact Hnames|].
  apply Forall_app. split; [exact Hnames|]. by apply Forall_singleton.
Qed.

End GroupsToHunks.

(* ===================================================================== *)
(** * The record                                                          *)
(* ===================================================================== *)

Section Record.
Context {U : UnicodeData}.

(** The record is made of the parsed hunks and of the scores. *)
Lemma make_change_record_eq env a b ln rn n sw hs :
  App.parse_unified_diff
    (App.unified_diff_text (App.to_lines a sw) (App.to_lines b sw) ln rn n) = Py.Ok hs ->
  exists heur,
    App.simple_heuristics hs = Py.Ok heur /\
    App.make_change_record env a b ln rn n sw = Py.Ok
      {| App.id := App.strftime_now env ++ u "_" ++ take 6 (App.uuid4_hex env);
         App.rec_source := {| App.left_name := ln; App.right_name := rn |};
         App.rec_stats :=
           {| App.lines_left := Z.of_nat (length (App.to_lines a sw));
              App.lines_right := Z.of_nat (length (App.to_lines b sw));
              App.char_similarity := PyFloat.round (App.similarity_scores a b).1.1 4;
              App.line_similarity := PyFloat.round (App.similarity_scores a b).1.2 4;
              App.token_jaccard := PyFloat.round (App.similarity_scores a b).2 4;
              App.percent_different_estimate :=
                PyFloat.round
                  (PyFloat.mul (PyFloat.sub (PyFloat.of_int 1)
                                            (App.similarity_scores a b).1.1)
                               (PyFloat.of_int 100)) 2 |};
         App.unified_diff :=
           App.unified_diff_text (App.to_lines a sw) (App.to_lines b sw) ln rn n;
         App.hunks := hs;
         App.rec_heuristics := heur |}.
Proof.
  intros Hp. destruct (simple_heuristics_ok hs) as [heur Hh]. exists heur.
  split; [done|]. unfold App.make_change_record. rewrite Hp.
  change (mbind ?f (Py.Ok ?x)) with (f x). cbv beta.
  destruct (App.similarity_scores a b) as [[sm_char sm_line] jacc].
  rewrite Hh. done.
Qed.

Lemma span_slice (l : list str) (i1 i2 : Z) :
  0 <= i1 <= i2 -> i2 <= Z.of_nat (length l) ->
  span l (range_start i1 i2) (i2 - i1) = Py.slice l i1 i2.
Proof.
  intros Hi Hl. rewrite slice_in_range by done. unfold span, range_start.
  destruct (Z.eqb_spec (i2 - i1) 0) as [->|]; [done|].
  do 3 f_equal. lia.
Qed.

Lemma side_texts_old (ds : list dline) :
  App.text <$> filter (fun o => App.op o ∈ [App.ctx; App.del]) (ds ≫= op_of)
  = ds ≫= old_of.
Proof.
  induction ds as [|[h|k c] ds IH]; [done | by rewrite !bind_cons |].
  rewrite !bind_cons. cbn [op_of]. rewrite filter_app, fmap_app, IH. f_equal.
  destruct k; by vm_compute.
Qed.

Lemma side_texts_new (ds : list dline) :
  App.text <$> filter (fun o => App.op o ∈ [App.ctx; App.add]) (ds ≫= op_of)
  = ds ≫= new_of.
Proof.
  induction ds as [|[h|k c] ds IH]; [done | by rewrite !bind_cons |].
  rewrite !bind_cons. cbn [op_of]. rewrite filter_app, fmap_app, IH. f_equal.
  destruct k; by vm_compute.
Qed.

Lemma hunk_of_spans (a b : list str) g :
  good_group a b g -> Forall (snippets_are_spans a b) (hunk_of a b g).
Proof.
  intros Hg. pose proof Hg as (Hne & Hv & Hct).
  destruct (head_last_nonempty g Hne) as (c0 & cl & Hh & Hl).
  unfold hunk_of. rewrite Hh, Hl. apply Forall_singleton.
  destruct (group_sides a b g c0 cl Hv Hct Hh Hl) as ((Hi & Hi2 & Hj & Hj2) & Ho & Hn).
  unfold snippets_are_spans, side_texts. cbn [App.old_snippet App.new_snippet App.ops
    App.old_start App.old_len App.new_start App.new_len].
  rewrite side_texts_old, side_texts_new, !span_slice by done. done.
Qed.

End Record.

(* ===================================================================== *)
(** * A sequence compared with itself                                     *)
(* ===================================================================== *)

Section SelfCompare.
Context `{Countable A}.

Lemma run_neg (a : list A) i : i < 0 -> run a i = 0.
Proof. intros Hi. unfold run. by destruct (Z.ltb_spec i 0); [|lia]. Qed.

Lemma run_to_bounds (a : list A) i : 0 <= run_to a i <= Z.of_nat i + 1.
Proof.
  induction i as [|i IH]; simpl; destruct (a !! _); try destruct (live a _); lia.
Qed.

Lemma run_bounds (a : list A) i : -1 <= i -> 0 <= run a i <= i + 1.
Proof.
  intros Hi. unfold run. destruct (Z.ltb_spec i 0); [lia|].
  pose proof (run_to_bounds a (Z.to_nat i)). lia.
Qed.

Lemma run_nonneg (a : list A) i : 0 <= run a i.
Proof.
  destruct (Z.ltb_spec i 0); [by rewrite run_neg|]. apply run_bounds. lia.
Qed.

Lemma run_step (a : list A) i x :
  difflib.item a i = Some x ->
  run a i = if live a x then run a (i - 1) + 1 else 0.
Proof.
  intros [Hi Hx]%item_lookup. unfold run.
  destruct (Z.ltb_spec i 0); [lia|].
  destruct (Z.to_nat i) as [|i'] eqn:Ei; simpl; rewrite Hx.
  - destruct (live a x); [|done]. destruct (Z.ltb_spec (i - 1) 0); lia.
  - destruct (live a x); [|done]. destruct (Z.ltb_spec (i - 1) 0); [lia|].
    replace (Z.to_nat (i - 1)) with i' by lia. lia.
Qed.

Lemma live_positions (a : list A) x :
  live a x = true -> difflib.chain_b a !! x = Some (positions x a 0).
Proof.
  unfold live. intros [js Hjs]%bool_decide_eq_true.
  by rewrite (chain_b_lookup _ _ _ Hjs) in Hjs.
Qed.

Lemma dead_positions (a : list A) x :
  live a x = false -> difflib.chain_b a !! x = None.
Proof.
  unfold live. intros Hx%bool_decide_eq_false.
  destruct (difflib.chain_b a !! x); [|done]. by destruct Hx.
Qed.

Lemma flm_row_diag (a : list A) i x prev js best new :
  0 <= i -> difflib.item a i = Some x -> live a x = true ->
  Forall (fun j => 0 <= j < Z.of_nat (length a) /\ difflib.item a j = Some x) js ->
  StronglySorted Z.lt js ->
  diag_row a (i - 1) prev -> default 0 (prev !! (i - 1)) = run a (i - 1) ->
  diag_best a (i + 1) i best -> (i ∈ js \/ run a i <= best.2) ->
  diag_row a i new -> (i ∈ js \/ default 0 (new !! i) = run a i) ->
  diag_best a (i + 1) (i + 1)
            (difflib.flm_row i 0 (Z.of_nat (length a)) prev js best new).1 /\
  diag_row a i (difflib.flm_row i 0 (Z.of_nat (length a)) prev js best new).2 /\
  default 0 ((difflib.flm_row i 0 (Z.of_nat (length a)) prev js best new).2 !! i)
    = run a i.
Proof.
  intros Hi Hx Hlive Hjs Hsorted Hprev Hprevi.
  pose proof (run_step a i x Hx) as Hri. rewrite Hlive in Hri.
  revert best new; induction Hjs as [|j js [Hj Hjx] Hjs IH]; intros best new Hb Hbi Hn Hni.
  - simpl. destruct best as [[bi bj] bk]. simpl in *.
    destruct Hbi as [Hbi|Hbi]; [by apply elem_of_nil in Hbi|].
    destruct Hni as [Hni|Hni]; [by apply elem_of_nil in Hni|].
    split; [|done]. destruct Hb as (? & ? & ? & ? & Hb). split_and!; try done.
    intros j Hj. destruct (decide (j = i)) as [->|]; [done | apply Hb; lia].
  - apply StronglySorted_inv in Hsorted as [Hsorted Hlt].
    cbn [difflib.flm_row].
    destruct (Z.ltb_spec j 0); [lia|].
    destruct (Z.leb_spec (Z.of_nat (length a)) j); [lia|].
    set (k := default 0 (prev !! (j - 1)) + 1).
    pose proof (run_step a j x Hjx) as Hrj. rewrite Hlive in Hrj.
    destruct (Hprev (j - 1)) as [Hk1 Hk2].
    assert (k <= run a j /\ k <= run a i) as [Hkj Hki] by (unfold k; lia).
    destruct best as [[bi bj] bk]. cbn [fst snd] in *.
    destruct Hb as (Hd & Hbi0 & Hbk0 & Hlim & Hdone).
    assert (j = i -> k = run a i) as Hkii.
    { intros ->. unfold k. lia. }
    assert (bk < k -> j = i) as Hdiag.
    { intros Hlt'. destruct (Z.lt_trichotomy j i) as [Hji | [Hji | Hji]]; [|done|].
      - specialize (Hdone j ltac:(lia)). lia.
      - destruct Hbi as [Hbi|Hbi]; [|lia].
        apply elem_of_cons in Hbi as [->|Hbi]; [lia|].
        rewrite Forall_forall in Hlt. apply Hlt in Hbi. lia. }
    pose proof (run_bounds a i ltac:(lia)) as Hrb.
    apply IH; try done.
    + destruct (Z.ltb_spec bk k) as [Hlt'|Hge]; [|by split_and!].
      rewrite (Hdiag Hlt'). split_and!; try lia.
      intros j' Hj'. specialize (Hdone j' Hj'). lia.
    + destruct (Z.ltb_spec bk k) as [Hlt'|Hge]; cbn [snd].
      * right. rewrite <- (Hkii (Hdiag Hlt')). lia.
      * destruct Hbi as [Hbi|Hbi]; [|by right].
        apply elem_of_cons in Hbi as [->|Hbi]; [|by left].
        right. rewrite <- (Hkii eq_refl). lia.
    + intros j'. destruct (decide (j' = j)) as [->|Hne].
      * rewrite lookup_insert_eq. simpl. lia.
      * rewrite lookup_insert_ne by done. apply Hn.
    + destruct (decide (i = j)) as [->|Hne].
      * right. rewrite lookup_insert_eq. simpl. by apply Hkii.
      * rewrite lookup_insert_ne by done.
        destruct Hni as [Hni|Hni]; [|by right].
        apply elem_of_cons in Hni as [->|Hni]; [done | by left].
Qed.

(** The row by row search, on the whole of [a] against itself *)
Lemma scan_diag (a : list A) :
  let sm := difflib.new a a in
  let n := Z.of_nat (length a) in
  let scan :=
    foldl (fun (st : (Z * Z * Z) * gmap Z Z) (i : Z) =>
             match difflib.item (difflib.a sm) i with
             | Some x => difflib.flm_row i 0 n st.2 (default [] (difflib.b2j sm !! x)) st.1 ∅
             | None => (st.1, ∅)
             end)
          ((0, 0, 0), ∅) (seqZ 0 (n - 0)) in
  diag_best a n n scan.1.
Proof.
  intros sm n scan.
  pose proof (foldl_seqZ_inv
    (fun i (st : (Z * Z * Z) * gmap Z Z) =>
       diag_best a i i st.1 /\ diag_row a (i - 1) st.2 /\
       default 0 (st.2 !! (i - 1)) = run a (i - 1))
    (fun (st : (Z * Z * Z) * gmap Z Z) (i : Z) =>
       match difflib.item (difflib.a sm) i with
       | Some x => difflib.flm_row i 0 n st.2 (default [] (difflib.b2j sm !! x)) st.1 ∅
       | None => (st.1, ∅)
       end)
    (length a) 0 ((0, 0, 0), ∅)) as Hinv.
  fold n in Hinv. replace (0 + n) with n in Hinv by lia.
  unfold scan. replace (n - 0) with n by lia.
  apply Hinv; clear Hinv.
  - cbn [fst snd]. split_and!.
    + simpl. split_and!; try done. intros; lia.
    + intros j. rewrite lookup_empty. simpl. pose proof (run_nonneg a j).
      pose proof (run_nonneg a (0 - 1)). lia.
    + rewrite lookup_empty. simpl. by rewrite run_neg.
  - intros i [best row] Hi (Hb & Hrow & Hrowi). cbn [fst snd] in *.
    change (difflib.a sm) with a. change (difflib.b2j sm) with (difflib.chain_b a).
    destruct (difflib.item a i) as [x|] eqn:Hx.
    2:{ unfold difflib.item in Hx. destruct (Z.ltb_spec i 0); [lia|].
        apply lookup_ge_None in Hx. lia. }
    pose proof (run_step a i x Hx) as Hri.
    replace (i + 1 - 1) with i by lia.
    assert (diag_best a (i + 1) i best) as Hb'.
    { destruct best as [[bi bj] bk]. destruct Hb as (? & ? & ? & ? & ?).
      split_and!; try done. lia. }
    destruct (live a x) eqn:Hlive.
    + rewrite (live_positions a x Hlive). cbn [default].
      apply (flm_row_diag a i x); try done; try lia.
      * apply Forall_forall. intros j [Hj0 Hj]%elem_of_positions.
        replace (j - 0) with j in Hj by lia.
        split; [|done]. pose proof (item_Some_lt _ _ _ Hj). lia.
      * apply positions_sorted.
      * left. apply elem_of_positions. split; [lia|]. by replace (i - 0) with i by lia.
      * intros j. rewrite lookup_empty. simpl. split; apply run_nonneg.
      * left. apply elem_of_positions. split; [lia|]. by replace (i - 0) with i by lia.
    + rewrite (dead_positions a x Hlive). cbn [default difflib.flm_row fst snd].
      split_and!.
      * destruct best as [[bi bj] bk]. destruct Hb' as (? & ? & ? & ? & Hd).
        split_and!; try done. intros j Hj.
        destruct (decide (j = i)) as [->|]; [lia | apply Hd; lia].
      * intros j. rewrite lookup_empty. simpl. split; apply run_nonneg.
      * rewrite lookup_empty. simpl. lia.
Qed.

Lemma extend_left_self (a : list A) fuel i k :
  0 <= i <= Z.of_nat (length a) -> (Z.to_nat i <= fuel)%nat ->
  difflib.extend_left fuel (difflib.new a a) false 0 0 (i, i, k) = (0, 0, k + i).
Proof.
  revert i k; induction fuel as [|fuel IH]; intros i k Hi Hf.
  - simpl. do 2 f_equal; lia.
  - cbn [difflib.extend_left]. change (difflib.a _) with a. change (difflib.b _) with a.
    destruct (Z.ltb_spec 0 i) as [Hpos|Hz].
    + destruct (difflib.item a (i - 1)) as [y|] eqn:Hy.
      2:{ unfold difflib.item in Hy. destruct (Z.ltb_spec (i - 1) 0); [lia|].
          apply lookup_ge_None in Hy. lia. }
      cbn. rewrite !bool_decide_eq_true_2 by done. cbn.
      rewrite IH by lia. f_equal. lia.
    + cbn. do 2 f_equal; lia.
Qed.

Lemma extend_right_self (a : list A) fuel k :
  0 <= k <= Z.of_nat (length a) -> (Z.to_nat (Z.of_nat (length a) - k) <= fuel)%nat ->
  difflib.extend_right fuel (difflib.new a a) false (Z.of_nat (length a))
    (Z.of_nat (length a)) (0, 0, k) = (0, 0, Z.of_nat (length a)).
Proof.
  revert k; induction fuel as [|fuel IH]; intros k Hk Hf.
  - simpl. do 2 f_equal; lia.
  - cbn [difflib.extend_right]. change (difflib.a _) with a. change (difflib.b _) with a.
    replace (0 + k) with k by lia.
    destruct (Z.ltb_spec k (Z.of_nat (length a))) as [Hlt|Hge].
    + destruct (difflib.item a k) as [y|] eqn:Hy.
      2:{ unfold difflib.item in Hy. destruct (Z.ltb_spec k 0); [lia|].
          apply lookup_ge_None in Hy. lia. }
      cbn. rewrite !bool_decide_eq_true_2 by done. cbn.
      apply IH; lia.
    + cbn. do 2 f_equal; lia.
Qed.

Lemma extend_junk_left (sm : @difflib.SequenceMatcher A _ _) fuel alo blo best :
  difflib.extend_left fuel sm true alo blo best = best.
Proof.
  destruct fuel as [|fuel]; destruct best as [[i j] k]; [done|].
  cbn [difflib.extend_left].
  assert (bool_decide (from_option difflib.isbjunk false
            (difflib.item (difflib.b sm) (j - 1)) = true) = false) as ->.
  { apply bool_decide_eq_false. by destruct (difflib.item _ _). }
  by rewrite andb_false_r.
Qed.

Lemma extend_junk_right (sm : @difflib.SequenceMatcher A _ _) fuel ahi bhi best :
  difflib.extend_right fuel sm true ahi bhi best = best.
Proof.
  destruct fuel as [|fuel]; destruct best as [[i j] k]; [done|].
  cbn [difflib.extend_right].
  assert (bool_decide (from_option difflib.isbjunk false
            (difflib.item (difflib.b sm) (j + k)) = true) = false) as ->.
  { apply bool_decide_eq_false. by destruct (difflib.item _ _). }
  by rewrite andb_false_r.
Qed.

(** The longest block of a sequence and itself is the whole of it. *)
Lemma find_longest_match_self (a : list A) :
  difflib.find_longest_match (difflib.new a a) 0 (Z.of_nat (length a))
                             0 (Z.of_nat (length a))
  = (0, 0, Z.of_nat (length a)).
Proof.
  pose proof (scan_diag a) as Hs. cbv zeta in Hs.
  unfold difflib.find_longest_match.
  destruct (foldl _ _ _).1 as [[bi bj] bk].
  destruct Hs as (<- & Hbi & Hbk & Hlim & _).
  rewrite extend_junk_right, extend_junk_left.
  rewrite extend_left_self by lia.
  apply extend_right_self; lia.
Qed.

End SelfCompare.

Section SelfBlocks.
Context `{Countable A}.

Lemma mb_loop_done (sm : @difflib.SequenceMatcher A _ _) fuel blocks :
  difflib.mb_loop fuel sm [] blocks = blocks.
Proof. by destruct fuel. Qed.

Lemma get_matching_blocks_self (a : list A) :
  difflib.get_matching_blocks (difflib.new a a) =
  if Z.of_nat (length a) =? 0 then [(0, 0, 0)]
  else [(0, 0, Z.of_nat (length a)); (Z.of_nat (length a), Z.of_nat (length a), 0)].
Proof.
  unfold difflib.get_matching_blocks.
  change (difflib.a (difflib.new a a)) with a. change (difflib.b (difflib.new a a)) with a.
  replace (2 * length a + 1)%nat with (S (2 * length a)) by lia.
  cbn [difflib.mb_loop]. rewrite find_longest_match_self.
  destruct (Z.eqb_spec (Z.of_nat (length a)) 0) as [Hz|Hnz].
  - rewrite mb_loop_done, Hz. reflexivity.
  - rewrite ?Z.add_0_l, !Z.ltb_irrefl. cbn [andb].
    rewrite mb_loop_done. cbn [app].
    unfold difflib.collapse.
    change (merge_sort difflib.block_le [(0, 0, Z.of_nat (length a))])
      with [(0, 0, Z.of_nat (length a))].
    cbn [foldl]. unfold difflib.collapse_step.
    change ((0 + 0 =? 0) && (0 + 0 =? 0)) with true. cbv beta iota. rewrite Z.add_0_l.
    destruct (Z.eqb_spec (Z.of_nat (length a)) 0); [done|]. reflexivity.
Qed.


Lemma get_opcodes_self (a : list A) :
  difflib.get_opcodes (difflib.new a a) =
  if Z.of_nat (length a) =? 0 then []
  else [(difflib.equal, 0, Z.of_nat (length a), 0, Z.of_nat (length a))].
Proof.
  unfold difflib.get_opcodes. rewrite get_matching_blocks_self.
  destruct (Z.eqb_spec (Z.of_nat (length a)) 0) as [Hz|Hnz]; [done|].
  cbn [foldl]. unfold difflib.opcode_step.
  change (0 <? 0) with false. cbn [andb app]. rewrite !Z.add_0_l.
  destruct (Z.eqb_spec (Z.of_nat (length a)) 0); [done|].
  rewrite !Z.ltb_irrefl. done.
Qed.

(** With a context count that is not negative, a sequence and itself
    give no group of opcodes. *)
Lemma get_grouped_opcodes_self (a : list A) (n : Z) :
  0 <= n -> difflib.get_grouped_opcodes (difflib.new a a) n = [].
Proof.
  intros Hn. unfold difflib.get_grouped_opcodes. rewrite get_opcodes_self.
  set (L := Z.of_nat (length a)).
  assert (forall i2,
    0 <= i2 ->
    (let codes := difflib.fix_last n
                    (difflib.fix_first n [(difflib.equal, 0, i2, 0, i2)]) in
     let '(group, groups) := foldl (difflib.group_step n) ([], []) codes in
     match group with
     | [] => groups
     | [(difflib.equal, _, _, _, _)] => groups
     | _ => groups ++ [group]
     end) = []) as Hone.
  { intros i2 Hi2. cbn.
    destruct (Z.ltb_spec (n + n) (Z.min i2 (Z.max 0 (i2 - n) + n) - Z.max 0 (i2 - n)));
      [lia | done]. }
  destruct (Z.eqb_spec L 0); [apply (Hone 1); lia | apply (Hone L); lia].
Qed.

End SelfBlocks.

(* ===================================================================== *)
(** * Doubles: the quotient of a number by itself, and of twice a count  *)
(* ===================================================================== *)

Section Doubles.




















(** A finite double divided by itself is one. *)
Lemma div_self (s : bool) (m : positive) (e : Z) :
  PyFloat.div (S754_finite s m e) (S754_finite s m e) = PyFloat.of_int 1.
Proof.
  unfold PyFloat.div, SFdiv.
  assert (SFdiv_core_binary PyFloat.prec PyFloat.emax (Z.pos m) e (Z.pos m) e
          = (9007199254740992, -53, loc_Exact)) as ->.
  { unfold SFdiv_core_binary.
    replace (Zdigits2 (Z.pos m) + e - (Zdigits2 (Z.pos m) + e)) with 0 by lia.
    replace (e - e) with 0 by lia.
    change (Z.min (fexp PyFloat.prec PyFloat.emax 0) 0) with (-53).
    change (0 - -53) with 53. cbv beta iota zeta.
    pose proof (Z_div_mod_full (Z.shiftl (Z.pos m) 53) (Z.pos m) ltac:(lia)) as Hdm.
    destruct (Z.div_eucl (Z.shiftl (Z.pos m) 53) (Z.pos m)) as [q r].
    destruct Hdm as [Hq Hr]. rewrite Z.shiftl_mul_pow2 in Hq by lia.
    assert (r = 0 /\ q = 2 ^ 53) as [-> ->].
    { destruct Hr as [Hr|Hr]; [|lia].
      assert (Z.pos m * (2 ^ 53 - q) = r) as Hd by lia.
      assert (2 ^ 53 - q = 0) by nia. lia. }
    unfold new_location, new_location_even, new_location_odd.
    by destruct (Z.even (Z.pos m)). }
  by destruct s.
Qed.


(** The quotient of a positive count by itself *)
Lemma of_ratio_self (n : Z) : 0 < n -> PyFloat.of_ratio false n n = PyFloat.of_int 1.
Proof.
  intros Hn. destruct n as [|p|p]; [lia| |lia]. unfold PyFloat.of_ratio.
  apply div_self.
Qed.

End Doubles.

(* ===================================================================== *)
(** * Hunks and the lines they come from                                  *)
(* ===================================================================== *)

Section Snippets.
Context {U : UnicodeData}.

(** C3 (amended): when the context count is not negative and no line of
    the two file names begins with the mark of a hunk header,
    [make_change_record] returns a record, and in each of its hunks the
    old snippet is the texts of the context and delete operations, in
    order, joined by newlines, these texts being the lines of the
    normalized left text from [old_start], [old_len] of them, without
    their newlines; likewise for the new snippet, the context and add
    operations and the right text. *)
Theorem hunk_snippets_reproduce_spans env left_text right_text ln rn n sw :
  0 <= n ->
  Forall (fun l => Py.startswith App.hunk_mark l = false) (file_lines ln rn) ->
  exists r, App.make_change_record env left_text right_text ln rn n sw = Py.Ok r /\
    Forall (snippets_are_spans (App.to_lines left_text sw) (App.to_lines right_text sw))
           (App.hunks r).
Proof.
  intros Hn Hnames.
  pose proof (to_lines_lines left_text sw) as Ha.
  pose proof (to_lines_lines right_text sw) as Hb.
  pose proof (parse_unified_diff_text _ _ ln rn n Ha Hb Hn Hnames) as Hp.
  destruct (make_change_record_eq env left_text right_text ln rn n sw _ Hp)
    as (heur & _ & ->).
  eexists. split; [reflexivity|]. cbn [App.hunks]. clear Hp.
  pose proof (get_grouped_opcodes_ok (App.to_lines left_text sw)
                (App.to_lines right_text sw) n Hn) as Hgs.
  revert Hgs. generalize (difflib.get_grouped_opcodes
    (difflib.new (App.to_lines left_text sw) (App.to_lines right_text sw)) n).
  intros gs Hgs. induction Hgs as [|g gs Hg _ IH]; [constructor|].
  rewrite bind_cons. apply Forall_app. split; [by apply hunk_of_spans | done].
Qed.

End Snippets.

(** The amended statement at work on two texts of two lines each *)
Lemma hunk_snippets_reproduce_spans_witness :
  exists r,
    App.make_change_record env0 (u "a" ++ [LF] ++ u "b") (u "a" ++ [LF] ++ u "c")
                           (u "left") (u "right") 3 false = Py.Ok r /\
    Forall (snippets_are_spans (App.to_lines (u "a" ++ [LF] ++ u "b") false)
                               (App.to_lines (u "a" ++ [LF] ++ u "c") false))
           (App.hunks r).
Proof.
  apply (hunk_snippets_reproduce_spans (U := ascii_tables)).
  - lia.
  - vm_compute. repeat constructor.
Defined.

(** C3 as documented fails when a file name holds a line that
    reads as a hunk header: the parser makes a hunk of it, whose old
    snippet is taken from the name and not from the left text. *)
Lemma hunk_snippets_counterexample :
  exists r h,
    App.make_change_record env0 (u "a") (u "b") header_in_name (u "y") 3 false = Py.Ok r /\
    h ∈ App.hunks r /\
    App.old_snippet h <>
      Py.join [LF] (chop_newline <$> span (App.to_lines (u "a") false)
                                          (App.old_start h) (App.old_len h)).
Proof.
  eexists. eexists. split; [vm_compute; reflexivity|]. split.
  - apply list_elem_of_here.
  - vm_compute. discriminate.
Qed.

(* ===================================================================== *)
(** * A text compared with itself                                         *)
(* ===================================================================== *)

Section SameText.
Context {U : UnicodeData}.




Lemma unified_diff_text_same (a : list str) (ln rn : str) (n : Z) :
  0 <= n -> App.unified_diff_text a a ln rn n = App.no_differences.
Proof.
  intros Hn. unfold App.unified_diff_text, difflib.unified_diff.
  by rewrite get_grouped_opcodes_self.
Qed.

Lemma parse_no_differences : App.parse_unified_diff App.no_differences = Py.Ok [].
Proof.
  rewrite parse_unified_diff_lines.
  change (Py.splitlines App.no_differences) with [App.no_differences].
  by rewrite parse_lines_skip.
Qed.

End SameText.




(* ===================================================================== *)
(** * The statistics of the record                                        *)
(* ===================================================================== *)

Section Stats.
Context {U : UnicodeData}.

(** The record that [make_change_record] returns, field by field *)
Lemma make_change_record_fields env a b ln rn n sw :
  exists hs heur,
    App.parse_unified_diff
      (App.unified_diff_text (App.to_lines a sw) (App.to_lines b sw) ln rn n) = Py.Ok hs /\
    App.simple_heuristics hs = Py.Ok heur /\
    App.make_change_record env a b ln rn n sw = Py.Ok
      {| App.id := App.strftime_now env ++ u "_" ++ take 6 (App.uuid4_hex env);
         App.rec_source := {| App.left_name := ln; App.right_name := rn |};
         App.rec_stats :=
           {| App.lines_left := Z.of_nat (length (App.to_lines a sw));
              App.lines_right := Z.of_nat (length (App.to_lines b sw));
              App.char_similarity := PyFloat.round (App.similarity_scores a b).1.1 4;
              App.line_similarity := PyFloat.round (App.similarity_scores a b).1.2 4;
              App.token_jaccard := PyFloat.round (App.similarity_scores a b).2 4;
              App.percent_different_estimate :=
                PyFloat.round
                  (PyFloat.mul (PyFloat.sub (PyFloat.of_int 1)
                                            (App.similarity_scores a b).1.1)
                               (PyFloat.of_int 100)) 2 |};
         App.unified_diff :=
           App.unified_diff_text (App.to_lines a sw) (App.to_lines b sw) ln rn n;
         App.hunks := hs;
         App.rec_heuristics := heur |}.
Proof.
  destruct (parse_loop_ok
    (length (Py.splitlines
       (App.unified_diff_text (App.to_lines a sw) (App.to_lines b sw) ln rn n)))
    (Py.splitlines
       (App.unified_diff_text (App.to_lines a sw) (App.to_lines b sw) ln rn n)) [])
    as [hs Hhs].
  destruct (make_change_record_eq env a b ln rn n sw hs Hhs) as (heur & Hh & Hr).
  by exists hs, heur.
Qed.





End Stats.


(* ===================================================================== *)
(** * The parser on any text                                              *)
(* ===================================================================== *)

Section ParserFacts.
Context {U : UnicodeData}.

Lemma match_header_mark (line : str) (m : Re.state) :
  Re.match_ App.hunk_header_re line = Some m -> Py.startswith App.hunk_mark line = true.
Proof.
  unfold Re.match_. intros Hm%head_Some_elem_of. unfold App.hunk_header_re in Hm.
  apply elem_of_rmatch_cat in Hm as (s1 & (t & Ht & _)%elem_of_rmatch_lit & _).
  simpl in Ht. by rewrite Ht.
Qed.

(** A header line starts a hunk; the body of the hunk is what follows,
    up to the next line with the mark. *)
Lemma parse_lines_header (line : str) (lines : list str) (hunks : list App.hunk) m :
  Re.match_ App.hunk_header_re line = Some m ->
  exists old_start old_len new_start new_len,
    App.int (Re.group m 1) = Py.Ok old_start /\
    App.int (App.or_one (Re.group m 2)) = Py.Ok old_len /\
    App.int (Re.group m 3) = Py.Ok new_start /\
    App.int (App.or_one (Re.group m 4)) = Py.Ok new_len /\
    (Re.group m 2 = Some [] -> old_len = 1) /\
    (Re.group m 4 = Some [] -> new_len = 1) /\
    parse_lines (line :: lines) hunks =
    parse_lines (App.hunk_body lines [] [] []).2
      (hunks ++ [{| App.old_start := old_start; App.old_len := old_len;
                    App.new_start := new_start; App.new_len := new_len;
                    App.ops := (App.hunk_body lines [] [] []).1.1.1;
                    App.old_snippet := Py.join [LF] (App.hunk_body lines [] [] []).1.1.2;
                    App.new_snippet := Py.join [LF] (App.hunk_body lines [] [] []).1.2 |}]).
Proof.
  intros Hm. pose proof (match_header_mark line m Hm) as Hs.
  destruct (header_groups line m Hm) as (g1 & g2 & g3 & g4 & Hc & D1 & N1 & D2 & D3 & N3 & D4).
  assert (Re.group m 1 = Some g1 /\ Re.group m 2 = Some g2 /\
          Re.group m 3 = Some g3 /\ Re.group m 4 = Some g4) as (G1 & G2 & G3 & G4).
  { unfold Re.group. rewrite Hc. done. }
  destruct (int_digits g1 D1 N1) as [n1 I1]. destruct (int_digits g3 D3 N3) as [n3 I3].
  destruct (int_or_one g2 D2) as (n2 & I2 & E2). destruct (int_or_one g4 D4) as (n4 & I4 & E4).
  exists n1, n2, n3, n4. rewrite G1, G2, G3, G4.
  split_and!; try done.
  - intros [= ->]. by apply E2.
  - intros [= ->]. by apply E4.
  - rewrite parse_lines_cons. unfold parse_step. rewrite Hs, Hm, G1, G2, G3, G4, I1, I2, I3, I4.
    repeat (change (mbind ?f (Py.Ok ?x)) with (f x); cbv beta).
    by destruct (App.hunk_body lines [] [] []) as [[[ops ob] nb] rest].
Qed.


(** ** The body of a hunk *)

Lemma hunk_body_unmarked l lines ops ob nb :
  Py.startswith App.hunk_mark l = false ->
  Py.startswith (u "-") l = false -> Py.startswith (u "+") l = false ->
  Py.startswith (u " ") l = false ->
  App.hunk_body (l :: lines) ops ob nb = App.hunk_body lines ops ob nb.
Proof.
  intros H0 H1 H2 H3. cbn [App.hunk_body]. rewrite H0, H1, H2, H3.
  by case_match.
Qed.

Lemma startswith_one (c : char) (l : str) :
  Py.startswith [c] l = true -> l = c :: App.l_1 l.
Proof.
  destruct l as [|d l]; [done|]. simpl.
  by destruct (N.eqb_spec c d) as [->|].
Qed.

Lemma hunk_body_ops lines ops ob nb o :
  o ∈ (App.hunk_body lines ops ob nb).1.1.1 -> o ∈ ops \/ marked_line o ∈ lines.
Proof.
  revert ops ob nb; induction lines as [|l lines IH]; intros ops ob nb; [by left|].
  cbn [App.hunk_body].
  destruct (Py.startswith App.hunk_mark l); [by left|].
  destruct (Py.startswith (u "-") l) eqn:Hd;
    [|destruct (Py.startswith (u "+") l) eqn:Ha;
      [|destruct (Py.startswith (u " ") l) eqn:Hc;
        [|case_match]]].
  1-3: intros [Ho|Ho]%IH; [apply elem_of_app in Ho as [Ho|Ho%list_elem_of_singleton];
                             [by left | right; subst o; unfold marked_line; cbn;
                                        rewrite <- startswith_one by done; left]
                          | right; by right].
  all: intros [Ho|Ho]%IH; [by left | right; by right].
Qed.

Lemma hunk_body_rest lines ops ob nb l :
  l ∈ (App.hunk_body lines ops ob nb).2 -> l ∈ lines.
Proof.
  revert ops ob nb; induction lines as [|l' lines IH]; intros ops ob nb; [done|].
  cbn [App.hunk_body].
  destruct (Py.startswith App.hunk_mark l'); [done|].
  repeat case_match; intros ?%IH; by right.
Qed.

Lemma parse_lines_ops lines hunks hs h :
  parse_lines lines hunks = Py.Ok hs -> h ∈ hs ->
  h ∈ hunks \/ forall o, o ∈ App.ops h -> marked_line o ∈ lines.
Proof.
  revert hunks; induction lines as [lines IH] using (induction_ltof1 _ (@length str));
    unfold ltof in IH; intros hunks Hp Hh.
  destruct lines as [|line lines].
  { rewrite parse_lines_nil in Hp. injection Hp as <-. by left. }
  rewrite parse_lines_cons in Hp. unfold parse_step in Hp.
  destruct (Py.startswith App.hunk_mark line) eqn:Hs.
  2:{ cbn in Hp. destruct (IH lines ltac:(simpl; lia) hunks Hp Hh) as [?|Ho]; [by left|].
      right. intros o Hin. right. by apply Ho. }
  destruct (Re.match_ App.hunk_header_re line) as [m|] eqn:Hm.
  2:{ cbn in Hp. destruct (IH lines ltac:(simpl; lia) hunks Hp Hh) as [?|Ho]; [by left|].
      right. intros o Hin. right. by apply Ho. }
  destruct (parse_lines_header line lines hunks m Hm)
    as (n1 & n2 & n3 & n4 & I1 & I2 & I3 & I4 & _ & _ & _).
  rewrite I1, I2, I3, I4 in Hp.
  repeat (change (mbind ?f (Py.Ok ?x)) with (f x) in Hp; cbv beta in Hp).
  destruct (App.hunk_body lines [] [] []) as [[[ops ob] nb] rest] eqn:Hb.
  cbn [fst snd] in Hp.
  assert (length rest <= length lines)%nat as Hlen by (eapply hunk_body_length; exact Hb).
  destruct (IH rest ltac:(simpl; lia) _ Hp Hh) as [Hin|Ho].
  - apply elem_of_app in Hin as [Hin|Hin%list_elem_of_singleton]; [by left|].
    right. intros o Hino. subst h. cbn [App.ops] in Hino.
    pose proof (hunk_body_ops lines [] [] [] o) as Hops. rewrite Hb in Hops.
    destruct (Hops Hino) as [Hnil|Hl]; [by apply elem_of_nil in Hnil | by right].
  - right. intros o Hino. right.
    pose proof (hunk_body_rest lines [] [] [] (marked_line o)) as Hr. rewrite Hb in Hr.
    apply Hr, Ho, Hino.
Qed.


(** C9: in the body of a hunk a line that begins with none of the
    markers adds no operation and nothing to the snippets, the empty
    line among them; so the lines of a hunk, each closed by a newline
    and all joined by newlines, give one operation each and no other;
    and every operation of a parsed hunk has one of the three kinds and
    was read from a line of the text that begins with its marker. *)
Theorem unmarked_lines_are_dropped :
  (forall l lines ops ob nb,
      Py.startswith App.hunk_mark l = false ->
      Py.startswith (u "-") l = false -> Py.startswith (u "+") l = false ->
      Py.startswith (u " ") l = false ->
      App.hunk_body (l :: lines) ops ob nb = App.hunk_body lines ops ob nb) /\
  (forall lines ops ob nb,
      App.hunk_body ([] :: lines) ops ob nb = App.hunk_body lines ops ob nb) /\
  (forall body,
      Forall is_body body -> Forall dline_ok body ->
      App.hunk_body (Py.splitlines (Py.join [LF] (render <$> body))) [] [] []
      = (body ≫= op_of, body ≫= old_of, body ≫= new_of, [])) /\
  (forall unified hs h o,
      App.parse_unified_diff unified = Py.Ok hs -> h ∈ hs -> o ∈ App.ops h ->
      App.op o ∈ [App.del; App.add; App.ctx] /\
      marked_line o ∈ Py.splitlines unified).
Proof.
  split_and!.
  - apply hunk_body_unmarked.
  - apply hunk_body_skip_empty.
  - intros body Hb Hok. rewrite splitlines_join_render by done.
    rewrite <- (app_nil_r body) at 1. by rewrite hunk_body_simage.
  - intros unified hs h o Hp Hh Ho. split; [destruct (App.op o); set_solver|].
    rewrite parse_unified_diff_lines in Hp.
    destruct (parse_lines_ops _ _ _ _ Hp Hh) as [Hnil|Hops];
      [by apply elem_of_nil in Hnil | by apply Hops].
Qed.

End ParserFacts.


(** On [small_diff] the one hunk has two operations; the first was read
    from the line [-a]. *)
Lemma unmarked_lines_are_dropped_witness :
  App.op {| App.op := App.del; App.text := u "a" |} ∈ [App.del; App.add; App.ctx] /\
  marked_line {| App.op := App.del; App.text := u "a" |} ∈ Py.splitlines small_diff.
Proof.
  destruct (@unmarked_lines_are_dropped ascii_tables) as (_ & _ & _ & Hops).
  destruct (@App.parse_unified_diff ascii_tables small_diff) as [e|hs] eqn:Hp;
    [vm_compute in Hp; discriminate Hp|].
  apply (Hops small_diff hs
           {| App.old_start := 3; App.old_len := 1; App.new_start := 4; App.new_len := 2;
              App.ops := [{| App.op := App.del; App.text := u "a" |};
                          {| App.op := App.add; App.text := u "b" |}];
              App.old_snippet := u "a"; App.new_snippet := u "b" |}).
  - exact Hp.
  - vm_compute in Hp. injection Hp as <-. apply list_elem_of_here.
  - apply list_elem_of_here.
Defined.

(* ===================================================================== *)
(** * Numeric changes                                                     *)
(* ===================================================================== *)

Section NumericChanges.
Context {U : UnicodeData}.

Lemma assignment_match (t : str) (m : Re.state) :
  Re.match_ App._NUMERIC_ASSIGN_RE t = Some m ->
  exists k v, Re.group m 1 = Some k /\ App.float (Re.group m 2) = Py.Ok v /\
              assignment t = Some (k, v).
Proof.
  intros Hm. destruct (numeric_groups _ _ Hm) as (k & x & Hk & Hx & [v Hv]%float_numeral).
  exists k, v. unfold assignment. rewrite Hm, Hk, Hx, Hv. done.
Qed.

Lemma assignment_no_match (t : str) :
  Re.match_ App._NUMERIC_ASSIGN_RE t = None -> assignment t = None.
Proof. intros Hm. unfold assignment. by rewrite Hm. Qed.

Lemma numeric_add_spec (k : str) (old_ : PyFloat.float) st (a : str) :
  App.numeric_add (Some k) old_ st a
  = Py.Ok (st.1 ++ (pair_with k old_ a ≫= direction_flag), st.2 ++ pair_with k old_ a).
Proof.
  unfold App.numeric_add, pair_with.
  destruct (Re.match_ App._NUMERIC_ASSIGN_RE a) as [ma|] eqn:Hm.
  2:{ rewrite assignment_no_match by done. cbn. rewrite !app_nil_r. by destruct st. }
  destruct (assignment_match a ma Hm) as (k' & v & Hk & Hv & ->). rewrite Hk.
  case_bool_decide as Hkk.
  - injection Hkk as ->. rewrite decide_True by done. rewrite Hv.
    change (mbind ?f (Py.Ok ?x)) with (f x). cbv beta.
    cbn [mbind list_bind direction_flag App.new App.old App.key App.fmt default app].
    f_equal. f_equal. rewrite app_nil_r.
    unfold direction_flag. cbn [App.new App.old App.key].
    destruct (PyFloat.ltb v old_); [done|]. destruct (PyFloat.ltb old_ v); [done|].
    by rewrite app_nil_r.
  - rewrite decide_False by congruence. cbn. rewrite !app_nil_r. by destruct st.
Qed.

Lemma for_each_numeric_add (k : str) (old_ : PyFloat.float) (adds : list str) st :
  App.for_each adds st (App.numeric_add (Some k) old_)
  = Py.Ok (st.1 ++ ((adds ≫= pair_with k old_) ≫= direction_flag),
           st.2 ++ (adds ≫= pair_with k old_)).
Proof.
  revert st; induction adds as [|a adds IH]; intros st.
  { cbn. rewrite !app_nil_r. by destruct st. }
  cbn [App.for_each]. rewrite numeric_add_spec.
  change (mbind ?f (Py.Ok ?x)) with (f x). cbv beta. rewrite IH. cbn [fst snd].
  rewrite !bind_cons, !bind_app, <- !app_assoc. done.
Qed.

Lemma numeric_del_spec (adds : list str) st (d : str) :
  App.numeric_del adds st d
  = Py.Ok (st.1 ++ (pairs_of_del adds d ≫= direction_flag), st.2 ++ pairs_of_del adds d).
Proof.
  unfold App.numeric_del, pairs_of_del.
  destruct (Re.match_ App._NUMERIC_ASSIGN_RE d) as [md|] eqn:Hm.
  2:{ rewrite assignment_no_match by done. cbn. rewrite !app_nil_r. by destruct st. }
  destruct (assignment_match d md Hm) as (k & v & Hk & Hv & ->). rewrite Hk, Hv.
  change (mbind ?f (Py.Ok ?x)) with (f x). cbv beta.
  apply for_each_numeric_add.
Qed.

Lemma for_each_numeric_del (adds dels : list str) st :
  App.for_each dels st (App.numeric_del adds)
  = Py.Ok (st.1 ++ ((dels ≫= pairs_of_del adds) ≫= direction_flag),
           st.2 ++ (dels ≫= pairs_of_del adds)).
Proof.
  revert st; induction dels as [|d dels IH]; intros st.
  { cbn. rewrite !app_nil_r. by destruct st. }
  cbn [App.for_each]. rewrite numeric_del_spec.
  change (mbind ?f (Py.Ok ?x)) with (f x). cbv beta. rewrite IH. cbn [fst snd].
  rewrite !bind_cons, !bind_app, <- !app_assoc. done.
Qed.

Lemma scan_hunk_spec (st : App.heuristics) (h : App.hunk) :
  App.scan_hunk st h = Py.Ok
    {| App.risk_flags := App.risk_flags st ++ hunk_flags h;
       App.numeric_changes := App.numeric_changes st ++ numeric_pairs h;
       App.removed_keywords :=
         App.removed_keywords st
         ++ filter (fun t => App.has_password t) (App.texts_of App.del h);
       App.added_keywords :=
         App.added_keywords st
         ++ filter (fun t => App.has_password t) (App.texts_of App.add h) |}.
Proof.
  unfold App.scan_hunk. rewrite for_each_numeric_del.
  change (mbind ?f (Py.Ok ?x)) with (f x). cbv beta. cbn [fst snd].
  unfold hunk_flags, numeric_pairs. by rewrite <- !app_assoc.
Qed.

Lemma for_each_scan_hunk (hunks : list App.hunk) (st : App.heuristics) :
  exists st',
    App.for_each hunks st App.scan_hunk = Py.Ok st' /\
    App.risk_flags st' = App.risk_flags st ++ (hunks ≫= hunk_flags) /\
    App.numeric_changes st' = App.numeric_changes st ++ (hunks ≫= numeric_pairs).
Proof.
  revert st; induction hunks as [|h hunks IH]; intros st.
  { exists st. cbn. by rewrite !app_nil_r. }
  cbn [App.for_each]. rewrite scan_hunk_spec.
  change (mbind ?f (Py.Ok ?x)) with (f x). cbv beta.
  destruct (IH {| App.risk_flags := App.risk_flags st ++ hunk_flags h;
                  App.numeric_changes := App.numeric_changes st ++ numeric_pairs h;
                  App.removed_keywords :=
                    App.removed_keywords st
                    ++ filter (fun t => App.has_password t) (App.texts_of App.del h);
                  App.added_keywords :=
                    App.added_keywords st
                    ++ filter (fun t => App.has_password t) (App.texts_of App.add h) |})
    as (st' & -> & Hr & Hn).
  exists st'. split; [done|]. rewrite Hr, Hn. cbn [App.risk_flags App.numeric_changes].
  by rewrite !bind_cons, <- !app_assoc.
Qed.

(** C4: [simple_heuristics] returns on every list of hunks; its numeric
    changes are, hunk after hunk, an entry for every deleted line with
    every added line of the hunk that both match the pattern with the
    same identifier; a flag is raised exactly when it is one of the four
    flags of an operation or the [reduced_] or [increased_] flag of an
    entry, none being raised for an entry with equal values; and the
    hunk that turns [max_retries = 5] into [max_retries = 2] gives the
    entry for 5.0 and 2.0 and the flag [reduced_max_retries]. *)
Theorem numeric_changes_are_all_pairs :
  (forall hunks, exists heur,
     App.simple_heuristics hunks = Py.Ok heur /\
     App.numeric_changes heur = hunks ≫= numeric_pairs /\
     (forall flag, flag ∈ App.risk_flags heur <->
        exists h, h ∈ hunks /\
          ((exists o, o ∈ App.ops h /\ flag ∈ App.op_flags o) \/
           (exists c, c ∈ numeric_pairs h /\ flag ∈ direction_flag c)))) /\
  (forall c, direction_flag c =
     if PyFloat.ltb (App.new c) (App.old c) then [u "reduced_" ++ App.key c]
     else if PyFloat.ltb (App.old c) (App.new c) then [u "increased_" ++ App.key c]
     else []) /\
  @App.simple_heuristics ascii_tables [retries_hunk] = Py.Ok
    {| App.risk_flags := [u "reduced_max_retries"];
       App.numeric_changes :=
         [{| App.key := u "max_retries"; App.old := PyFloat.of_int 5;
             App.new := PyFloat.of_int 2 |}];
       App.removed_keywords := []; App.added_keywords := [] |}.
Proof.
  split_and!; [|done|by vm_compute].
  intros hunks. unfold App.simple_heuristics.
  destruct (for_each_scan_hunk hunks
              {| App.risk_flags := []; App.numeric_changes := [];
                 App.removed_keywords := []; App.added_keywords := [] |})
    as (st & -> & Hr & Hn).
  change (mbind ?f (Py.Ok ?x)) with (f x). cbv beta.
  eexists. split; [reflexivity|]. cbn [App.numeric_changes App.risk_flags] in *.
  split; [done|]. intros flag. rewrite merge_sort_Permutation, elem_of_remove_dups, Hr.
  cbn [app]. rewrite list_elem_of_bind. unfold hunk_flags.
  split.
  - intros (h & Hf & Hh). exists h. split; [done|].
    apply elem_of_app in Hf as [Hf|Hf]; apply list_elem_of_bind in Hf as (x & ? & ?);
      [left | right]; eauto.
  - intros (h & Hh & Hf). exists h. split; [|done]. apply elem_of_app.
    destruct Hf as [(o & ? & ?)|(c & ? & ?)]; [left | right];
      apply list_elem_of_bind; eauto.
Qed.

End NumericChanges.

(* ===================================================================== *)
(** * Tokens                                                              *)
(* ===================================================================== *)

Section Tokens.
Context {U : UnicodeData}.

Lemma runs_from_app (p : char -> bool) (cur ds t : str) :
  Forall (fun c => p c = true) ds -> runs_from p cur (ds ++ t) = runs_from p (cur ++ ds) t.
Proof.
  intros Hds; revert cur; induction Hds as [|c ds Hc _ IH]; intros cur.
  - by rewrite app_nil_r.
  - cbn [app runs_from]. rewrite Hc, IH, <- app_assoc. done.
Qed.

Lemma runs_from_end (p : char -> bool) (ds t : str) :
  ds <> [] -> Re.at_word p t = false -> runs_from p ds t = ds :: runs_from p [] t.
Proof.
  intros Hds Ht. destruct t as [|c t]; cbn [runs_from].
  - by destruct ds.
  - simpl in Ht. rewrite Ht. by destruct ds.
Qed.

Lemma longest_prefix (p : char -> bool) (rs : str) :
  exists ds t, rs = ds ++ t /\ Forall (fun c => p c = true) ds /\ Re.at_word p t = false.
Proof.
  induction rs as [|c rs (ds & t & -> & Hds & Ht)]; [by exists [], []|].
  destruct (p c) eqn:Hc.
  - exists (c :: ds), t. split_and!; [done | by constructor | done].
  - exists [], (c :: ds ++ t). split_and!; [done | constructor | done].
Qed.

Lemma findall_from_skip (r : Re.regex) (x t sn : str) :
  Re.findall_from r (length x) sn (x ++ t) = Re.findall_from r 0 (rev x ++ sn) t.
Proof.
  revert sn; induction x as [|c x IH]; intros sn; [done|].
  cbn [length app Re.findall_from]. rewrite IH. cbn [rev]. by rewrite <- app_assoc.
Qed.

Lemma findall_from_runs (p : char -> bool) (sn rs : str) :
  Re.findall_from (Re.Rep p 1) 0 sn rs = runs_from p [] rs.
Proof.
  revert sn; induction rs as [rs IH] using (induction_ltof1 _ (@length N));
    unfold ltof in IH; intros sn.
  destruct rs as [|c rs']; [done|].
  destruct (p c) eqn:Hc.
  - destruct (longest_prefix p rs') as (ds & t & -> & Hds & Ht).
    assert (Forall (fun c => p c = true) (c :: ds)) as Hcds by (by constructor).
    change (c :: ds ++ t) with ((c :: ds) ++ t).
    rewrite (runs_from_app p [] (c :: ds) t Hcds), runs_from_end by done.
    cbn [app]. unfold Re.findall_from at 1. fold Re.findall_from.
    cbn [Re.rmatch Re.seen Re.rest Re.caps].
    pose proof (rep_head p 1 sn (c :: ds) t [] Hcds Ht ltac:(simpl; lia)) as Hh.
    cbn [app] in Hh.
    destruct (Re.rep p 1 sn (c :: ds ++ t) []) as [|m ms]; [done|].
    injection Hh as ->. cbn [Re.rest].
    assert (take (length (c :: ds ++ t) - length t) (c :: ds ++ t) = c :: ds) as ->.
    { replace (length (c :: ds ++ t) - length t)%nat with (length (c :: ds))
        by (simpl; rewrite length_app; lia).
      apply (take_app_length (c :: ds) t). }
    f_equal. cbn [length Nat.pred]. rewrite findall_from_skip.
    apply IH. simpl. rewrite length_app. lia.
  - cbn [runs_from]. rewrite Hc. cbn [app].
    unfold Re.findall_from at 1. fold Re.findall_from.
    cbn [Re.rmatch Re.seen Re.rest Re.caps Re.rep]. rewrite Hc.
    apply IH. simpl. lia.
Qed.

(** [re.findall(r"\w+", s)] gives the maximal runs of word characters. *)
Lemma findall_word_runs (s : str) :
  Re.findall App.word_re s = maximal_runs Re.word s.
Proof. apply findall_from_runs. Qed.

(** C8: the token score of [similarity_scores] is 1.0 when neither text
    has a token, and otherwise the quotient of the number of tokens
    that the two texts share by the number of tokens of either, the
    tokens of a text being the set of the maximal runs of alphanumeric
    characters and underscores of its lowercase; ["foo bar"] and
    ["bar baz"] score 1/3. *)
Theorem token_jaccard_is_set_quotient :
  (forall a b,
     (App.similarity_scores a b).2 =
     if bool_decide (tokens a = ∅ /\ tokens b = ∅) then PyFloat.of_int 1
     else PyFloat.of_ratio false (Z.of_nat (size (tokens a ∩ tokens b)))
                                 (Z.of_nat (size (tokens a ∪ tokens b)))) /\
  (forall c, Re.word c = uc_isalnum c || N.eqb c 95) /\
  (@App.similarity_scores ascii_tables (u "foo bar") (u "bar baz")).2
    = PyFloat.of_ratio false 1 3.
Proof.
  split_and!; [|done|by vm_compute].
  intros a b. unfold App.similarity_scores, tokens. cbn [snd].
  rewrite !findall_word_runs.
  set (A := list_to_set (maximal_runs Re.word (uc_lower a)) : gset str).
  set (B := list_to_set (maximal_runs Re.word (uc_lower b)) : gset str).
  destruct (decide (A = ∅)) as [HA|HA], (decide (B = ∅)) as [HB|HB].
  - rewrite (bool_decide_eq_false_2 (A <> ∅)), (bool_decide_eq_false_2 (B <> ∅)) by tauto.
    by rewrite (bool_decide_eq_true_2 (A = ∅ /\ B = ∅)).
  - rewrite (bool_decide_eq_true_2 (B <> ∅)), orb_true_r by done.
    cbn [orb]. by rewrite (bool_decide_eq_false_2 (A = ∅ /\ B = ∅)) by tauto.
  - rewrite (bool_decide_eq_true_2 (A <> ∅)) by done.
    cbn [orb]. by rewrite (bool_decide_eq_false_2 (A = ∅ /\ B = ∅)) by tauto.
  - rewrite (bool_decide_eq_true_2 (A <> ∅)) by done.
    cbn [orb]. by rewrite (bool_decide_eq_false_2 (A = ∅ /\ B = ∅)) by tauto.
Qed.

End Tokens.

(* ===================================================================== *)
(** * Records on disk                                                     *)
(* ===================================================================== *)

Lemma numeral_char (c : char) :
  (48 <= c <= 57)%N \/ c = 45%N \/ c = 46%N -> c ∈ u "0123456789.e+-".
Proof.
  intros Hc.
  assert (c ∈ [48; 49; 50; 51; 52; 53; 54; 55; 56; 57; 45; 46]%N) as Hc'.
  { assert (c = 48 \/ c = 49 \/ c = 50 \/ c = 51 \/ c = 52 \/ c = 53 \/ c = 54 \/ c = 55
            \/ c = 56 \/ c = 57 \/ c = 45 \/ c = 46)%N as H by lia.
    repeat (destruct H as [->|H]; [set_solver|]). subst. set_solver. }
  revert Hc'. vm_compute u. set_solver.
Qed.

Lemma frac_digits_chars (k : nat) (r den : Z) (c : char) :
  0 <= r < den -> c ∈ frac_digits k r den -> (48 <= c <= 57)%N.
Proof.
  revert r; induction k as [|k IH]; intros r Hr; [by intros ?%elem_of_nil|].
  cbn [frac_digits]. intros [->|Hc]%elem_of_cons.
  - apply ascii_digit_char. split; [apply Z.div_pos; lia|].
    apply Z.lt_succ_r. apply Z.div_lt_upper_bound; lia.
  - apply (IH (10 * r mod den)); [|done]. apply Z.mod_pos_bound. lia.
Qed.

Lemma str_of_int_chars (n : Z) (c : char) :
  c ∈ Py.str_of_int n -> (48 <= c <= 57)%N \/ c = 45%N.
Proof.
  unfold Py.str_of_int. destruct (Z.ltb_spec n 0) as [Hneg|Hpos].
  - intros [->|Hc]%elem_of_cons; [by right|]. left.
    destruct (digits_of_spec (Z.to_nat (Z.log2 (- n))) (- n) []) as (ds & Hds & Hd & _).
    { split; [lia|]. pose proof (Z.log2_spec (- n) ltac:(lia)) as [_ Hl].
      pose proof (Z.log2_nonneg (- n)).
      by replace (Z.of_nat (S (Z.to_nat (Z.log2 (- n))))) with (Z.succ (Z.log2 (- n)))
        by lia. }
    rewrite Hds, app_nil_r in Hc. unfold ascii_digits in Hd. rewrite Forall_forall in Hd. by apply Hd.
  - destruct (str_of_int_nonneg n Hpos) as (Hd & _). left.
    unfold Py.str_of_int in Hd. destruct (Z.ltb_spec n 0); [lia|].
    unfold ascii_digits in Hd. rewrite Forall_forall in Hd. by apply Hd.
Qed.

Lemma literal_chars (l : list N) (c : char) :
  Forall (fun d => (48 <= d <= 57)%N \/ d = 45%N \/ d = 46%N) l -> c ∈ l ->
  (48 <= c <= 57)%N \/ c = 45%N \/ c = 46%N.
Proof. intros Hl Hc. rewrite Forall_forall in Hl. by apply Hl. Qed.

#[export] Instance decimal_floats : FloatRepr.
Proof.
  refine {| float_repr := decimal_repr |}.
  intros x c Hx Hc. apply numeral_char.
  assert (forall s : bool, c ∈ (if s then u "-" else []) -> c = 45%N) as Hsign.
  { intros [|]; [by intros ->%list_elem_of_singleton | by intros ?%elem_of_nil]. }
  assert (forall l : list N, c ∈ l -> l = u "0.0" \/ l = u ".0" \/ l = u "." ->
            (48 <= c <= 57)%N \/ c = 45%N \/ c = 46%N) as Hlit.
  { intros l Hl Hcases. apply (literal_chars l c); [|done].
    destruct Hcases as [->|[->| ->]]; repeat constructor; vm_compute; intuition congruence. }
  destruct x as [s|s| |s m e]; try done; unfold decimal_repr in Hc.
  - apply elem_of_app in Hc as [Hc%Hsign|Hc]; [tauto | eapply Hlit; eauto].
  - apply elem_of_app in Hc as [Hc%Hsign|Hc]; [tauto|].
    destruct (Z.leb_spec 0 e).
    + apply elem_of_app in Hc as [Hc%str_of_int_chars|Hc]; [tauto | eapply Hlit; eauto].
    + apply elem_of_app in Hc as [Hc%str_of_int_chars|Hc]; [tauto|].
      apply elem_of_app in Hc as [Hc|Hc]; [eapply Hlit; eauto|].
      left. apply (frac_digits_chars _ _ _ c) in Hc; [done|].
      apply Z.mod_pos_bound. apply Z.pow_pos_nonneg; lia.
Defined.

Section Jsonl.
Context {F : FloatRepr}.

(** ** No raw newline in what [json.dumps] prints *)












(** ** The writes *)

Lemma next_fault_quiet (n : nat) (w : Io.world) :
  quiet (S n) w ->
  Io.next_fault w = (None, Io.World (Io.files w) (drop 1 (Io.faults w))) /\
  quiet n (Io.World (Io.files w) (drop 1 (Io.faults w))).
Proof.
  unfold quiet, Io.next_fault. destruct w as [fs [|f faults]]; cbn.
  - intros _. split; [done|]. by rewrite take_nil.
  - intros [-> Hq]%Forall_cons_1. by rewrite drop_0.
Qed.


Lemma write_records_quiet (records : list (list (str * Json.value))) path w old :
  quiet (length records) w -> Io.files w !! path = Some old ->
  exists w', Sink.write_records records path w = (Py.Ok tt, w') /\
    Io.files w' = <[path := old ++ mjoin (jsonl_line <$> records)]> (Io.files w) /\
    Io.faults w' = drop (length records) (Io.faults w).
Proof.
  revert w old; induction records as [|r records IH]; intros w old Hq Hold.
  - exists w. cbn. rewrite app_nil_r, insert_id by done. by rewrite drop_0.
  - cbn [length] in Hq. destruct (next_fault_quiet _ _ Hq) as [Hn Hq'].
    cbn [Sink.write_records]. unfold Io.write. rewrite Hn. cbn [Io.files Io.faults].
    rewrite Hold. change (default [] (Some old)) with old.
    unfold Py.Ok at 1. cbv beta iota.
    edestruct (IH (Io.World (<[path := old ++ Json.dumps (Json.JDict r) ++ [LF]]> (Io.files w))
                            (drop 1 (Io.faults w)))) as (w' & -> & Hf & Hfa).
    + exact Hq'.
    + cbn [Io.files]. apply lookup_insert_eq.
    + exists w'. split; [done|]. rewrite Hf, Hfa. cbn [Io.files Io.faults].
      rewrite insert_insert_eq, fmap_cons, drop_drop. cbn [mjoin list_join length].
      unfold jsonl_line. by rewrite <- !app_assoc.
Qed.




End Jsonl.


(* ===================================================================== *)
(** * The normalised lines                                                *)
(* ===================================================================== *)

Lemma lstrip_fixed (s : str) :
  (forall c r, s = c :: r -> Py.isspace c = false) -> Py.lstrip s = s.
Proof. destruct s as [|c r]; [done|]. intros Hs. simpl. by rewrite (Hs c r). Qed.

Lemma lstrip_head (s : str) c r : Py.lstrip s = c :: r -> Py.isspace c = false.
Proof.
  induction s as [|d s IH]; simpl; [done|].
  destruct (Py.isspace d) eqn:Hd; [done|]. by intros [= <- _].
Qed.

Lemma lstrip_lstrip (s : str) : Py.lstrip (Py.lstrip s) = Py.lstrip s.
Proof. apply lstrip_fixed. intros c r. apply lstrip_head. Qed.

(** What [strip] returns begins and ends with no whitespace. *)
Lemma strip_ends (s : str) :
  Py.lstrip (Py.strip s) = Py.strip s /\ Py.lstrip (rev (Py.strip s)) = rev (Py.strip s).
Proof.
  unfold Py.strip. rewrite rev_involutive, lstrip_lstrip. split; [|done].
  apply lstrip_fixed. intros c r Hc.
  destruct (lstrip_suffix (rev (Py.lstrip s))) as [p Hp].
  apply (f_equal (@rev _)) in Hp. rewrite rev_involutive, rev_app_distr, Hc in Hp.
  simpl in Hp. by apply lstrip_head in Hp.
Qed.

Lemma strip_strip (s : str) : Py.strip (Py.strip s) = Py.strip s.
Proof.
  destruct (strip_ends s) as [Hl Hr].
  unfold Py.strip at 1. by rewrite Hl, Hr, rev_involutive.
Qed.

(** The lines of a text made of lines that each end with their newline *)
Lemma splitlines_lines (g : str -> str) (ls : list str) :
  Forall (fun l => break_free (g l)) ls ->
  Py.splitlines (mjoin ((fun l => g l ++ [LF]) <$> ls)) = g <$> ls.
Proof.
  induction 1 as [|l ls Hl _ IH]; [done|].
  rewrite !fmap_cons. change (mjoin (?x :: ?r)) with (x ++ mjoin r).
  rewrite <- app_assoc. cbn [app].
  rewrite splitlines_line by done. by rewrite IH.
Qed.

Lemma to_lines_keep (s : str) :
  App.to_lines s false = (fun l => l ++ [LF]) <$> Py.splitlines s.
Proof.
  unfold App.to_lines. apply Forall_fmap_ext.
  eapply Forall_impl; [apply splitlines_break_free|].
  intros l Hl. cbv beta. by rewrite endswith_LF_break_free.
Qed.

Lemma to_lines_eq (s : str) (sw : bool) :
  App.to_lines s sw
    = (fun l => (if sw then Py.strip l else l) ++ [LF]) <$> Py.splitlines s.
Proof. destruct sw; [done | apply to_lines_keep]. Qed.

(** X1: every normalised line is a text without a line break followed by
    one newline, there is one for each line of the text, and without
    stripping it is the line itself with its newline, so that the test
    for a newline at the end of a line never finds one; with stripping
    the text before the newline begins and ends with no whitespace. *)
Theorem to_lines_one_newline_each (s : str) (sw : bool) :
  App.to_lines s sw
    = (fun l => (if sw then Py.strip l else l) ++ [LF]) <$> Py.splitlines s /\
  length (App.to_lines s sw) = length (Py.splitlines s) /\
  Forall (fun l => exists c, l = c ++ [LF] /\
                     Forall (fun x => Py.is_linebreak x = false) c /\
                     (sw = true -> Py.strip c = c))
         (App.to_lines s sw).
Proof.
  split; [apply to_lines_eq|]. split; [by rewrite to_lines_eq, length_fmap|].
  rewrite to_lines_eq. apply Forall_fmap. eapply Forall_impl; [apply splitlines_break_free|].
  intros l Hl. cbv beta. eexists. split; [reflexivity|]. destruct sw.
  - split; [by apply break_free_strip | intros _; apply strip_strip].
  - split; [exact Hl | done].
Qed.

(** X2: normalising the text made of normalised lines changes nothing
    more: the lines of the joined lines of a text, normalised with or
    without stripping, are the lines of the text, stripped if either of
    the two passes strips. *)
Theorem to_lines_of_joined_lines (s : str) (sw sw' : bool) :
  App.to_lines (mjoin (App.to_lines s sw)) sw' = App.to_lines s (sw || sw').
Proof.
  rewrite !to_lines_eq.
  rewrite (splitlines_lines (fun l => if sw then Py.strip l else l)).
  2:{ eapply Forall_impl; [apply splitlines_break_free|]. intros l Hl. cbv beta.
      destruct sw; [by apply break_free_strip | done]. }
  rewrite <- list_fmap_compose. apply list_fmap_ext. intros i l _. unfold compose.
  destruct sw, sw'; cbv beta iota; cbn [orb]; cbv beta iota; by rewrite ?strip_strip.
Qed.

(* ===================================================================== *)
(** * The hunks of any text                                               *)
(* ===================================================================== *)

Section ParsedHunks.
Context {U : UnicodeData}.


(** One pass of the outer loop: a line without numbers is passed over,
    a header opens a hunk that takes the lines of its body. *)
Lemma parse_step_cases (line : str) (lines : list str) (hunks : list App.hunk) :
  parse_step line lines hunks =
  match header_numbers line with
  | Some n => Py.Ok ((App.hunk_body lines [] [] []).2, hunks ++ [hunk_with n lines])
  | None => Py.Ok (lines, hunks)
  end.
Proof.
  unfold parse_step, header_numbers.
  destruct (Re.match_ App.hunk_header_re line) as [m|] eqn:Hm.
  - rewrite (match_header_mark line m Hm).
    destruct (parse_lines_header line [] [] m Hm)
      as (a & b & c & d & -> & -> & -> & -> & _).
    repeat (change (mbind ?f (Py.Ok ?x)) with (f x); cbv beta).
    unfold hunk_with. cbn [fst snd].
    by destruct (App.hunk_body lines [] [] []) as [[[ops ob] nb] rest].
  - by destruct (Py.startswith App.hunk_mark line).
Qed.

Lemma parse_lines_step (line : str) (lines : list str) (hunks : list App.hunk) :
  parse_lines (line :: lines) hunks =
  match header_numbers line with
  | Some n => parse_lines (App.hunk_body lines [] [] []).2 (hunks ++ [hunk_with n lines])
  | None => parse_lines lines hunks
  end.
Proof.
  rewrite parse_lines_cons, parse_step_cases. by destruct (header_numbers line).
Qed.

Lemma hunk_body_rest_length lines ops ob nb :
  (length (App.hunk_body lines ops ob nb).2 <= length lines)%nat.
Proof.
  destruct (App.hunk_body lines ops ob nb) as [[[o1 o2] o3] rest] eqn:Hb.
  apply hunk_body_length in Hb. done.
Qed.

(** The hunks found are put after those found before. *)
Lemma parse_lines_acc (lines : list str) (hunks : list App.hunk) :
  exists hs, parse_lines lines [] = Py.Ok hs /\ parse_lines lines hunks = Py.Ok (hunks ++ hs).
Proof.
  revert hunks; induction lines as [lines IH] using (induction_ltof1 _ (@length str));
    unfold ltof in IH; intros hunks.
  destruct lines as [|line lines].
  { exists []. rewrite !parse_lines_nil, app_nil_r. done. }
  rewrite !parse_lines_step. destruct (header_numbers line) as [n|].
  - pose proof (hunk_body_rest_length lines [] [] []) as Hlen.
    destruct (IH (App.hunk_body lines [] [] []).2 ltac:(simpl; lia) (hunks ++ [hunk_with n lines]))
      as (hs & Hhs & ->).
    destruct (IH (App.hunk_body lines [] [] []).2 ltac:(simpl; lia) ([] ++ [hunk_with n lines]))
      as (hs' & Hhs' & ->).
    rewrite Hhs in Hhs'. injection Hhs' as <-.
    eexists. split; [reflexivity|]. by rewrite <- app_assoc.
  - apply IH. simpl; lia.
Qed.

(** The parse, hunk by hunk *)
Lemma parse_lines_unfold (line : str) (lines : list str) :
  exists hs,
    parse_lines (match header_numbers line with
                 | Some _ => (App.hunk_body lines [] [] []).2
                 | None => lines
                 end) [] = Py.Ok hs /\
    parse_lines (line :: lines) [] =
      Py.Ok (match header_numbers line with
             | Some n => hunk_with n lines :: hs
             | None => hs
             end).
Proof.
  rewrite parse_lines_step. destruct (header_numbers line) as [n|].
  - destruct (parse_lines_acc (App.hunk_body lines [] [] []).2 ([] ++ [hunk_with n lines]))
      as (hs & Hhs & ->). by exists hs.
  - destruct (parse_lines_acc lines []) as (hs & Hhs & _). by exists hs.
Qed.




(** A property of the hunk of every header holds of every hunk found. *)
Lemma parse_lines_Forall (P : App.hunk -> Prop) :
  (forall line n lines, header_numbers line = Some n -> P (hunk_with n lines)) ->
  forall lines, exists hs, parse_lines lines [] = Py.Ok hs /\ Forall P hs.
Proof.
  intros HP lines.
  induction lines as [lines IH] using (induction_ltof1 _ (@length str)); unfold ltof in IH.
  destruct lines as [|line lines]; [by exists []|].
  destruct (parse_lines_unfold line lines) as (hs & Hhs & ->).
  destruct (header_numbers line) as [n|] eqn:Hn.
  - pose proof (hunk_body_rest_length lines [] [] []) as Hlen.
    destruct (IH (App.hunk_body lines [] [] []).2 ltac:(simpl; lia)) as (hs' & Hhs' & HF).
    rewrite Hhs in Hhs'. injection Hhs' as <-.
    eexists. split; [reflexivity|]. constructor; [by eapply HP | done].
  - destruct (IH lines ltac:(simpl; lia)) as (hs' & Hhs' & HF).
    rewrite Hhs in Hhs'. injection Hhs' as <-. by exists hs.
Qed.




Lemma decimal_value_nonneg (acc : Z) (s : str) (v : Z) :
  (forall c d, uc_decimal c = Some d -> 0 <= d) ->
  0 <= acc -> Py.decimal_value acc s = Some v -> 0 <= v.
Proof.
  intros Hd. revert acc; induction s as [|c s IH]; intros acc Hacc; cbn [Py.decimal_value].
  - by intros [= <-].
  - destruct (uc_decimal c) as [d|] eqn:Hc; [|done].
    apply IH. specialize (Hd c d Hc). lia.
Qed.

Lemma int_nonneg (s : option str) (n : Z) :
  (forall c d, uc_decimal c = Some d -> 0 <= d) -> App.int s = Py.Ok n -> 0 <= n.
Proof.
  intros Hd. unfold App.int. destruct s as [[|c s]|]; [done| |done].
  destruct (Py.decimal_value 0 (c :: s)) as [v|] eqn:Hv; [|done].
  intros [= <-]. by eapply decimal_value_nonneg.
Qed.

(** X5: when no digit of the tables has a negative value, no hunk of a
    parsed text has a negative start or a negative length. *)
Theorem hunk_numbers_not_negative (unified : str) (hs : list App.hunk) (h : App.hunk) :
  (forall c d, uc_decimal c = Some d -> 0 <= d) ->
  App.parse_unified_diff unified = Py.Ok hs -> h ∈ hs ->
  0 <= App.old_start h /\ 0 <= App.old_len h /\
  0 <= App.new_start h /\ 0 <= App.new_len h.
Proof.
  intros Hd Hp Hh. rewrite parse_unified_diff_lines in Hp.
  destruct (parse_lines_Forall
    (fun h => 0 <= App.old_start h /\ 0 <= App.old_len h /\
              0 <= App.new_start h /\ 0 <= App.new_len h)) with (lines := Py.splitlines unified)
    as (hs' & Hp' & HF).
  - intros line n lines. unfold header_numbers, hunk_with.
    cbn [App.old_start App.old_len App.new_start App.new_len].
    destruct (Re.match_ App.hunk_header_re line) as [m|]; [|done].
    destruct (App.int (Re.group m 1)) as [|a] eqn:Ia; [done|].
    destruct (App.int (App.or_one (Re.group m 2))) as [|b] eqn:Ib; [done|].
    destruct (App.int (Re.group m 3)) as [|c] eqn:Ic; [done|].
    destruct (App.int (App.or_one (Re.group m 4))) as [|d] eqn:Id; [done|].
    intros [= <-]. cbn [fst snd]. split_and!; by eapply int_nonneg.
  - rewrite Hp in Hp'. injection Hp' as <-.
    rewrite Forall_forall in HF. by apply HF.
Qed.







End ParsedHunks.

Lemma hunk_numbers_not_negative_witness :
  0 <= App.old_start one_hunk /\ 0 <= App.old_len one_hunk /\
  0 <= App.new_start one_hunk /\ 0 <= App.new_len one_hunk.
Proof.
  apply (hunk_numbers_not_negative (U := ascii_tables) one_hunk_diff [one_hunk] one_hunk).
  - intros c d. cbn [uc_decimal ascii_tables]. unfold ascii_decimal.
    destruct (N.leb_spec 48 c); cbn [andb]; [|done]. case_match; [|done].
    intros [= <-]. lia.
  - vm_compute. reflexivity.
  - apply list_elem_of_here.
Defined.


(* ===================================================================== *)
(** * What the heuristics read                                            *)
(* ===================================================================== *)

Lemma str_leb_refl (s : str) : str_leb s s = true.
Proof.
  induction s as [|c s IH]; [done|]. cbn [str_leb].
  by rewrite N.eqb_refl, IH, orb_true_r.
Qed.

#[local] Instance str_le_trans : Transitive str_le.
Proof.
  unfold str_le. intros s. induction s as [|c s IH]; intros t r; [done|].
  destruct t as [|d t]; [done|]. destruct r as [|e r]; [done|]. cbn [str_leb].
  intros [Hcd|[Hcd Hst]%andb_prop]%orb_prop [Hde|[Hde Htr]%andb_prop]%orb_prop.
  - apply orb_true_intro. left. apply N.ltb_lt. apply N.ltb_lt in Hcd, Hde. lia.
  - apply N.eqb_eq in Hde as <-. by rewrite Hcd.
  - apply N.eqb_eq in Hcd as ->. by rewrite Hde.
  - apply N.eqb_eq in Hcd as ->. apply N.eqb_eq in Hde as ->.
    rewrite N.eqb_refl, (IH t r) by done. apply orb_true_r.
Qed.

#[local] Instance str_le_total : Total str_le.
Proof.
  unfold str_le. intros s. induction s as [|c s IH]; intros t; [by left|].
  destruct t as [|d t]; [by right|]. cbn [str_leb].
  destruct (N.ltb_spec c d) as [|Hcd]; [by left|].
  destruct (N.ltb_spec d c) as [|Hdc]; [by right|].
  assert (c = d) as -> by lia. rewrite N.eqb_refl. cbn [orb andb]. apply IH.
Qed.

#[local] Instance str_le_antisym : AntiSymm (=) str_le.
Proof.
  unfold str_le. intros s. induction s as [|c s IH]; intros t.
  { by destruct t. }
  destruct t as [|d t]; [done|]. cbn [str_leb].
  intros [Hcd|[Hcd Hst]%andb_prop]%orb_prop [Hdc|[Hdc Hts]%andb_prop]%orb_prop.
  - apply N.ltb_lt in Hcd, Hdc. lia.
  - apply N.ltb_lt in Hcd. apply N.eqb_eq in Hdc. lia.
  - apply N.ltb_lt in Hdc. apply N.eqb_eq in Hcd. lia.
  - apply N.eqb_eq in Hcd as ->. f_equal. by apply IH.
Qed.

(** [sorted(set(l))] depends on the elements of [l] only. *)
Lemma sorted_set_ext (l k : list str) :
  (forall x, x ∈ l <-> x ∈ k) ->
  merge_sort str_le (remove_dups l) = merge_sort str_le (remove_dups k).
Proof.
  intros Hlk. apply (StronglySorted_unique str_le).
  - apply (StronglySorted_merge_sort _).
  - apply (StronglySorted_merge_sort _).
  - rewrite !merge_sort_Permutation.
    apply NoDup_Permutation; [apply NoDup_remove_dups..|].
    intros x. by rewrite !elem_of_remove_dups.
Qed.

Section HeuristicsRead.
Context {U : UnicodeData}.

(** The state of the outer loop after some hunks *)
Lemma for_each_scan_hunk_lists (hunks : list App.hunk) (st : App.heuristics) :
  App.for_each hunks st App.scan_hunk = Py.Ok
    {| App.risk_flags := App.risk_flags st ++ (hunks ≫= hunk_flags);
       App.numeric_changes := App.numeric_changes st ++ (hunks ≫= numeric_pairs);
       App.removed_keywords :=
         App.removed_keywords st
         ++ (hunks ≫= fun h => keyword_lines (App.texts_of App.del h));
       App.added_keywords :=
         App.added_keywords st
         ++ (hunks ≫= fun h => keyword_lines (App.texts_of App.add h)) |}.
Proof.
  revert st; induction hunks as [|h hunks IH]; intros st.
  { cbn. rewrite !app_nil_r. by destruct st. }
  cbn [App.for_each]. rewrite scan_hunk_spec.
  change (mbind ?f (Py.Ok ?x)) with (f x). cbv beta. rewrite IH.
  cbn [App.risk_flags App.numeric_changes App.removed_keywords App.added_keywords].
  rewrite !bind_cons, <- !app_assoc. done.
Qed.

Lemma simple_heuristics_lists (hunks : list App.hunk) :
  App.simple_heuristics hunks = Py.Ok
    {| App.risk_flags := merge_sort str_le (remove_dups (hunks ≫= hunk_flags));
       App.numeric_changes := hunks ≫= numeric_pairs;
       App.removed_keywords := hunks ≫= (fun h => keyword_lines (App.texts_of App.del h));
       App.added_keywords := hunks ≫= (fun h => keyword_lines (App.texts_of App.add h)) |}.
Proof. unfold App.simple_heuristics. by rewrite for_each_scan_hunk_lists. Qed.

(** X7: the heuristics of any hunks are computed, and their risk flags
    are in ascending order of code points, none of them twice. *)
Theorem risk_flags_sorted_distinct (hunks : list App.hunk) :
  exists heur,
    App.simple_heuristics hunks = Py.Ok heur /\
    StronglySorted str_le (App.risk_flags heur) /\ NoDup (App.risk_flags heur).
Proof.
  rewrite simple_heuristics_lists. eexists. split; [reflexivity|].
  cbn [App.risk_flags]. split.
  - apply (StronglySorted_merge_sort _).
  - rewrite merge_sort_Permutation. apply NoDup_remove_dups.
Qed.

Lemma bind_through {X Y Z} (c : X -> Y) (F : X -> list Z) (G : Y -> list Z) (l : list X) :
  (forall x, F x = G (c x)) -> l ≫= F = (c <$> l) ≫= G.
Proof.
  intros HF. induction l as [|x l IH]; [done|].
  by rewrite fmap_cons, !bind_cons, HF, IH.
Qed.

Lemma op_flags_ctx (t : str) : App.op_flags {| App.op := App.ctx; App.text := t |} = [].
Proof.
  unfold App.op_flags. cbn [App.op App.text].
  rewrite !(bool_decide_eq_false_2 (App.ctx = App.del)) by done.
  rewrite !(bool_decide_eq_false_2 (App.ctx = App.add)) by done. done.
Qed.

Lemma elem_of_texts_of (k : App.opkind) (h : App.hunk) (t : str) :
  t ∈ App.texts_of k h <-> {| App.op := k; App.text := t |} ∈ App.ops h.
Proof.
  unfold App.texts_of. rewrite list_elem_of_fmap. split.
  - intros ([k' t'] & -> & [Hk Ho]%list_elem_of_filter). cbn in Hk. by subst k'.
  - intros Ho. exists {| App.op := k; App.text := t |}. split; [done|].
    by apply list_elem_of_filter.
Qed.

Lemma elem_of_hunk_flags (h : App.hunk) (x : str) :
  x ∈ hunk_flags h <-> x ∈ flags_of_texts (changed_texts h).
Proof.
  unfold hunk_flags, flags_of_texts, changed_texts. cbn [fst snd].
  rewrite !elem_of_app. change (numeric_pairs h)
    with (App.texts_of App.del h ≫= pairs_of_del (App.texts_of App.add h)).
  rewrite !list_elem_of_bind. split.
  - intros [([k t] & Hx & Ho)|Hn]; [|by right; right].
    destruct k.
    + left. exists t. split; [done|]. by apply elem_of_texts_of.
    + right; left. exists t. split; [done|]. by apply elem_of_texts_of.
    + rewrite op_flags_ctx in Hx. by apply elem_of_nil in Hx.
  - intros [(t & Hx & Ht)|[(t & Hx & Ht)|Hn]]; [| |by right].
    + left. eexists. split; [exact Hx|]. by apply elem_of_texts_of.
    + left. eexists. split; [exact Hx|]. by apply elem_of_texts_of.
Qed.

(** X8: the heuristics of two lists of hunks are the same when the
    hunks have, one by one, the same texts of deleted lines and the same
    texts of added lines: the context lines, the numbers and the
    snippets of the hunks, and the order in which deleted and added
    lines alternate, have no part in them. *)
Theorem heuristics_read_changed_lines (hs1 hs2 : list App.hunk) :
  changed_texts <$> hs1 = changed_texts <$> hs2 ->
  App.simple_heuristics hs1 = App.simple_heuristics hs2.
Proof.
  intros Hc. rewrite !simple_heuristics_lists. f_equal. f_equal.
  - apply sorted_set_ext. intros x.
    rewrite !list_elem_of_bind.
    assert (forall hs : list App.hunk, (exists h, x ∈ hunk_flags h /\ h ∈ hs) <->
                       (exists p, x ∈ flags_of_texts p /\ p ∈ changed_texts <$> hs)) as E.
    { intros hs. split.
      - intros (h & Hx & Hh). exists (changed_texts h).
        split; [by apply elem_of_hunk_flags | by apply list_elem_of_fmap_2].
      - intros (p & Hx & (h & -> & Hh)%list_elem_of_fmap). exists h.
        split; [by apply elem_of_hunk_flags | done]. }
    by rewrite !E, Hc.
  - rewrite !(bind_through changed_texts numeric_pairs (fun p => p.1 ≫= pairs_of_del p.2))
      by done. by rewrite Hc.
  - rewrite !(bind_through changed_texts (fun h => keyword_lines (App.texts_of App.del h))
                (fun p => keyword_lines p.1)) by done. by rewrite Hc.
  - rewrite !(bind_through changed_texts (fun h => keyword_lines (App.texts_of App.add h))
                (fun p => keyword_lines p.2)) by done. by rewrite Hc.
Qed.

(** X9: the heuristics of hunks put one after the other: the numeric
    changes and the two keyword lists are those of the first hunks
    followed by those of the second, and the risk flags are the flags of
    both, sorted, each once. *)
Theorem heuristics_of_appended_hunks (hs1 hs2 : list App.hunk) :
  exists h1 h2 h,
    App.simple_heuristics hs1 = Py.Ok h1 /\
    App.simple_heuristics hs2 = Py.Ok h2 /\
    App.simple_heuristics (hs1 ++ hs2) = Py.Ok h /\
    App.numeric_changes h = App.numeric_changes h1 ++ App.numeric_changes h2 /\
    App.removed_keywords h = App.removed_keywords h1 ++ App.removed_keywords h2 /\
    App.added_keywords h = App.added_keywords h1 ++ App.added_keywords h2 /\
    App.risk_flags h
      = merge_sort str_le (remove_dups (App.risk_flags h1 ++ App.risk_flags h2)).
Proof.
  rewrite !simple_heuristics_lists. eexists _, _, _.
  split; [reflexivity|]. split; [reflexivity|]. split; [reflexivity|].
  cbn [App.numeric_changes App.removed_keywords App.added_keywords App.risk_flags].
  rewrite !bind_app. split_and!; try done.
  apply sorted_set_ext. intros x.
  by rewrite !elem_of_app, !merge_sort_Permutation, !elem_of_remove_dups.
Qed.

End HeuristicsRead.

Lemma heuristics_read_changed_lines_witness :
  @App.simple_heuristics ascii_tables [one_hunk] =
  @App.simple_heuristics ascii_tables [one_hunk_moved].
Proof. apply (heuristics_read_changed_lines (U := ascii_tables)). reflexivity. Defined.

(* ===================================================================== *)
(** * The ends of the scale of the scores                                 *)
(* ===================================================================== *)

Section Scores.
Context {U : UnicodeData}.

Lemma token_score_eq (a b : str) :
  (App.similarity_scores a b).2 =
  if bool_decide (token_set a ≠ ∅) || bool_decide (token_set b ≠ ∅)
  then PyFloat.of_ratio false (Z.of_nat (size (token_set a ∩ token_set b)))
                              (Z.of_nat (size (token_set a ∪ token_set b)))
  else PyFloat.of_int 1.
Proof. done. Qed.

(** X10: the token score of two texts does not depend on which of them
    is the left one. *)
Theorem token_score_symmetric (a b : str) :
  (App.similarity_scores a b).2 = (App.similarity_scores b a).2.
Proof.
  rewrite !token_score_eq.
  rewrite (comm_L (∩) (token_set a)), (comm_L (∪) (token_set a)).
  by rewrite orb_comm.
Qed.

(** X11: two texts with the same set of tokens have the token score
    1.0, whatever the order, the number and the case of their words and
    whatever stands between them; two texts with no token in common, one
    of them with a token, have the token score 0.0. *)
Theorem token_score_extremes :
  (forall a b, token_set a = token_set b ->
     (App.similarity_scores a b).2 = PyFloat.of_int 1) /\
  (forall a b, token_set a ## token_set b ->
     token_set a ≠ ∅ \/ token_set b ≠ ∅ ->
     (App.similarity_scores a b).2 = PyFloat.of_int 0).
Proof.
  split; intros a b; rewrite token_score_eq.
  - intros <-. destruct (decide (token_set a = ∅)) as [HA|HA].
    + by rewrite !(bool_decide_eq_false_2 (token_set a ≠ ∅)) by tauto.
    + rewrite (bool_decide_eq_true_2 (token_set a ≠ ∅)) by done. cbn [orb].
      rewrite (idemp_L (∩)), (idemp_L (∪)). apply of_ratio_self.
      assert (size (token_set a) ≠ 0)%nat by (by intros ?%size_empty_iff%leibniz_equiv).
      lia.
  - intros Hd Hne.
    assert (bool_decide (token_set a ≠ ∅) || bool_decide (token_set b ≠ ∅) = true) as ->.
    { destruct Hne; [rewrite (bool_decide_eq_true_2 (token_set a ≠ ∅)) by done; done|].
      rewrite (bool_decide_eq_true_2 (token_set b ≠ ∅)) by done. apply orb_true_r. }
    assert (token_set a ∩ token_set b = ∅) as -> by (apply leibniz_equiv; set_solver).
    by rewrite size_empty.
Qed.

End Scores.

Section NothingInCommon.
Context `{Countable A}.



End NothingInCommon.

Section ScoresOfRecord.
Context {U : UnicodeData}.


End ScoresOfRecord.


(* ===================================================================== *)
(** * When the diff is the sentinel                                       *)
(* ===================================================================== *)

Section DifferentSequences.
Context `{Countable A}.








End DifferentSequences.

Section Sentinel.
Context {U : UnicodeData}.




(** X14: for a context count that is not negative, two texts with the
    same lines, their line ends apart, give a record with the sentinel,
    no hunk and empty heuristics; with stripping it is enough that the
    lines are the same once stripped. *)
Theorem same_lines_make_no_difference env (a b ln rn : str) (n : Z) (sw : bool) :
  0 <= n ->
  (fun l => if sw then Py.strip l else l) <$> Py.splitlines a
    = (fun l => if sw then Py.strip l else l) <$> Py.splitlines b ->
  exists r,
    App.make_change_record env a b ln rn n sw = Py.Ok r /\
    App.unified_diff r = App.no_differences /\ App.hunks r = [] /\
    App.rec_heuristics r = {| App.risk_flags := []; App.numeric_changes := [];
                              App.removed_keywords := []; App.added_keywords := [] |}.
Proof.
  intros Hn Hl.
  assert (App.to_lines a sw = App.to_lines b sw) as Heq.
  { assert (forall s, App.to_lines s sw
                       = (fun c => c ++ [LF])
                           <$> ((fun l => if sw then Py.strip l else l) <$> Py.splitlines s)) as E.
    { intros s. by rewrite to_lines_eq, <- list_fmap_compose. }
    by rewrite !E, Hl. }
  destruct (make_change_record_fields env a b ln rn n sw) as (hs & heur & Hp & Hh & ->).
  eexists. split; [reflexivity|].
  cbn [App.unified_diff App.hunks App.rec_heuristics].
  rewrite Heq, unified_diff_text_same, parse_no_differences in Hp by done.
  injection Hp as <-. rewrite Heq, unified_diff_text_same by done.
  split; [done|]. split; [done|]. by injection Hh as <-.
Qed.

End Sentinel.


Lemma same_lines_make_no_difference_witness :
  exists r,
    App.make_change_record env0 crlf_text lf_text (u "l") (u "r") 3 true = Py.Ok r /\
    App.unified_diff r = App.no_differences /\ App.hunks r = [] /\
    App.rec_heuristics r = {| App.risk_flags := []; App.numeric_changes := [];
                              App.removed_keywords := []; App.added_keywords := [] |}.
Proof.
  apply (same_lines_make_no_difference (U := ascii_tables)); [lia|]. vm_compute. reflexivity.
Defined.

(* ===================================================================== *)
(** * What [save_jsonl] leaves in the files                               *)
(* ===================================================================== *)

Section Appending.
Context {F : FloatRepr}.






Lemma save_jsonl_quiet (records : list (list (str * Json.value))) path w :
  quiet (length records + 2) w ->
  exists w', Sink.save_jsonl records path w = (Py.Ok tt, w') /\
    Io.files w' = <[path := default [] (Io.files w !! path)
                            ++ mjoin (jsonl_line <$> records)]> (Io.files w) /\
    Io.faults w' = drop (length records + 2) (Io.faults w).
Proof.
  intros Hq.
  replace (length records + 2)%nat with (S (length records + 1)) in Hq by lia.
  destruct (next_fault_quiet _ _ Hq) as [Hn Hq1].
  unfold Sink.save_jsonl, Io.open_append. rewrite Hn. cbn [Io.files Io.faults].
  set (w1 := Io.World _ _).
  assert (quiet (length records) w1 /\ quiet 1 (Io.World (Io.files w1)
            (drop (length records) (Io.faults w1)))) as [Hq2 Hq3].
  { unfold quiet in *. cbn [Io.faults] in *.
    rewrite <- (take_take_drop _ (length records) 1) in Hq1.
    by apply Forall_app in Hq1 as [? ?]. }
  destruct (write_records_quiet records path w1 (default [] (Io.files w !! path)) Hq2)
    as (w2 & -> & Hf2 & Hfa2); [apply lookup_insert_eq|].
  assert (quiet 1 w2) as Hq4.
  { unfold quiet in *. by rewrite Hfa2. }
  destruct (next_fault_quiet _ _ Hq4) as [Hn2 _].
  unfold Io.close. rewrite Hn2. eexists. split; [reflexivity|].
  cbn [Io.files Io.faults]. rewrite Hf2, Hfa2. unfold w1. cbn [Io.files Io.faults].
  rewrite insert_insert_eq, !drop_drop. split; [done|]. f_equal. lia.
Qed.

(** X17: saving records in two calls leaves the files as saving them
    all in one call does, when no call fails. *)
Theorem save_jsonl_in_two_calls (r1 r2 : list (list (str * Json.value)))
    (path : str) (w : Io.world) :
  quiet (length r1 + length r2 + 4) w ->
  exists w1 w2 w12,
    Sink.save_jsonl r1 path w = (Py.Ok tt, w1) /\
    Sink.save_jsonl r2 path w1 = (Py.Ok tt, w2) /\
    Sink.save_jsonl (r1 ++ r2) path w = (Py.Ok tt, w12) /\
    Io.files w12 = Io.files w2.
Proof.
  intros Hq.
  assert (forall n m l, (n + m <= length r1 + length r2 + 4)%nat ->
            Io.faults l = drop n (Io.faults w) -> quiet m l) as Hsub.
  { intros n m l Hnm Hl. unfold quiet in *. rewrite Hl, take_drop_commute.
    apply Forall_drop.
    replace (n + m)%nat with (min (n + m) (length r1 + length r2 + 4)) by lia.
    rewrite <- take_take. by apply Forall_take. }
  destruct (save_jsonl_quiet r1 path w) as (w1 & H1 & Hf1 & Hfa1).
  { apply (Hsub 0%nat); [lia | by rewrite drop_0]. }
  destruct (save_jsonl_quiet r2 path w1) as (w2 & H2 & Hf2 & Hfa2).
  { apply (Hsub (length r1 + 2)%nat); [lia | done]. }
  destruct (save_jsonl_quiet (r1 ++ r2) path w) as (w12 & H12 & Hf12 & Hfa12).
  { rewrite length_app. apply (Hsub 0%nat); [lia | by rewrite drop_0]. }
  exists w1, w2, w12. split; [done|]. split; [done|]. split; [done|].
  rewrite Hf12, Hf2, Hf1, lookup_insert_eq, insert_insert_eq.
  cbn [default]. by rewrite fmap_app, join_app, ?app_assoc.
Qed.

End Appending.


Lemma save_jsonl_in_two_calls_witness :
  exists w1 w2 w12,
    Sink.save_jsonl (F := decimal_floats) (take 1 two_records) (u "out.jsonl") empty_world
      = (Py.Ok tt, w1) /\
    Sink.save_jsonl (drop 1 two_records) (u "out.jsonl") w1 = (Py.Ok tt, w2) /\
    Sink.save_jsonl (take 1 two_records ++ drop 1 two_records) (u "out.jsonl") empty_world
      = (Py.Ok tt, w12) /\
    Io.files w12 = Io.files w2.
Proof.
  apply (save_jsonl_in_two_calls (F := decimal_floats)). unfold quiet. cbn. constructor.
Defined.

(* ===================================================================== *)
(** * Reading back what was written                                       *)
(* ===================================================================== *)

(** The comparisons of a goal, decided by arithmetic *)
Ltac decide_bounds :=
  repeat match goal with
         | |- context [N.eqb ?a ?b] => destruct (N.eqb_spec a b); try lia
         | |- context [(?a <? ?b)%N] => destruct (N.ltb_spec a b); try lia
         | |- context [(?a <=? ?b)%N] => destruct (N.leb_spec a b); try lia
         end.

(** Quotient and remainder by 64, as equations *)
Lemma div_mod_64 (c : N) : (c = 64 * (c / 64) + c mod 64 /\ c mod 64 < 64)%N.
Proof. split; [apply N.div_mod' | by apply N.mod_lt]. Qed.

(** A comparison that arithmetic decides *)
Ltac bool_lia := unfold Codec.cont; decide_bounds; reflexivity.

(** The test of the conditional at the head of the goal, decided *)
Ltac step_if :=
  match goal with
  | |- (if ?c then _ else _) = _ =>
      first [ assert (c = true) as -> by bool_lia
            | assert (c = false) as -> by bool_lia ];
      cbv beta iota
  end.

(** The bytes of a character are read back as the character. *)
Lemma utf8_chars_bytes (c : char) (bs r : list N) :
  Codec.utf8_bytes c = Some bs ->
  Codec.utf8_chars (bs ++ r) = cons c <$> Codec.utf8_chars r.
Proof.
  unfold Codec.utf8_bytes.
  destruct (div_mod_64 c) as [E1 L1]. destruct (div_mod_64 (c / 64)) as [E2 L2].
  destruct (div_mod_64 (c / 64 / 64)) as [E3 L3].
  assert (c / 4096 = c / 64 / 64)%N as -> by (by rewrite N.Div0.div_div).
  assert (c / 262144 = c / 64 / 64 / 64)%N as -> by (by rewrite !N.Div0.div_div).
  assert (forall v, v = c ->
            cons v <$> Codec.utf8_chars r = cons c <$> Codec.utf8_chars r) as Hv
    by (by intros v ->).
  set (m1 := (c mod 64)%N) in *. set (q1 := (c / 64)%N) in *.
  set (m2 := (q1 mod 64)%N) in *. set (q2 := (q1 / 64)%N) in *.
  set (m3 := (q2 mod 64)%N) in *. set (q3 := (q2 / 64)%N) in *.
  clearbody m1 q1 m2 q2 m3 q3.
  destruct (N.ltb_spec c 128).
  { intros [= <-]. cbn [app]. set (r0 := r). cbn [Codec.utf8_chars]. by step_if. }
  destruct (N.ltb_spec c 2048).
  { intros [= <-]. cbn [app]. set (r0 := _ :: r). cbn [Codec.utf8_chars]. subst r0.
    cbv beta iota. do 3 step_if. apply Hv. lia. }
  destruct (N.ltb_spec c 65536).
  { destruct (N.leb_spec 55296 c), (N.leb_spec c 57343); cbn [andb]; try done; try lia.
    all: intros [= <-]; cbn [app]; set (r0 := _ :: _ :: r); cbn [Codec.utf8_chars]; subst r0.
    all: cbv beta iota; do 4 step_if; apply Hv; lia. }
  destruct (N.ltb_spec c 1114112); [|done].
  intros [= <-]. cbn [app]. set (r0 := _ :: _ :: _ :: r). cbn [Codec.utf8_chars]. subst r0.
  cbv beta iota. do 5 step_if. apply Hv. lia.
Qed.

Lemma utf8_chars_encoded (s : str) (bss : list (list N)) :
  mapM Codec.utf8_bytes s = Some bss -> Codec.utf8_chars (mjoin bss) = Some s.
Proof.
  intros Hm%mapM_Some. induction Hm as [|c bs s bss Hc _ IH]; [done|].
  change (mjoin (bs :: bss)) with (bs ++ mjoin bss).
  by rewrite (utf8_chars_bytes c bs _ Hc), IH.
Qed.

Lemma values_of_N (ns : list N) (b : list Byte.byte) :
  mapM Byte.of_N ns = Some b -> Codec.values b = ns.
Proof.
  intros Hm%mapM_Some. unfold Codec.values.
  induction Hm as [|n y ns b Hn _ IH]; [done|].
  rewrite fmap_cons, IH. f_equal. by apply Byte.to_of_N.
Qed.

(** A character that is not a surrogate and not above U+10FFFF has
    bytes, each of them below 256. *)
Lemma utf8_bytes_scalar (c : char) :
  (c < 1114112)%N -> ~ (55296 <= c <= 57343)%N ->
  exists bs, Codec.utf8_bytes c = Some bs /\ Forall (fun x => (x <= 255)%N) bs.
Proof.
  intros Hc Hs. unfold Codec.utf8_bytes.
  destruct (div_mod_64 c) as [E1 L1]. destruct (div_mod_64 (c / 64)) as [E2 L2].
  destruct (div_mod_64 (c / 64 / 64)) as [E3 L3].
  assert (c / 4096 = c / 64 / 64)%N as -> by (by rewrite N.Div0.div_div).
  assert (c / 262144 = c / 64 / 64 / 64)%N as -> by (by rewrite !N.Div0.div_div).
  set (m1 := (c mod 64)%N) in *. set (q1 := (c / 64)%N) in *.
  set (m2 := (q1 mod 64)%N) in *. set (q2 := (q1 / 64)%N) in *.
  set (m3 := (q2 mod 64)%N) in *. set (q3 := (q2 / 64)%N) in *.
  clearbody m1 q1 m2 q2 m3 q3.
  destruct (N.ltb_spec c 128); [eexists; split; [done|]; repeat constructor; cbv beta; lia|].
  destruct (N.ltb_spec c 2048); [eexists; split; [done|]; repeat constructor; cbv beta; lia|].
  destruct (N.ltb_spec c 65536).
  { destruct (N.leb_spec 55296 c), (N.leb_spec c 57343); cbn [andb]; try lia.
    all: eexists; split; [done|]; repeat constructor; cbv beta; lia. }
  destruct (N.ltb_spec c 1114112); [|lia].
  eexists; split; [done|]; repeat constructor; cbv beta; lia.
Qed.

Lemma of_N_byte (ns : list N) :
  Forall (fun x => (x <= 255)%N) ns -> is_Some (mapM Byte.of_N ns).
Proof.
  intros Hns. apply mapM_is_Some. eapply Forall_impl; [exact Hns|].
  intros x Hx. cbv beta in Hx. cbn. pose proof (Byte.to_of_N_option_map x) as Hm.
  destruct (N.leb_spec x 255); [|lia]. by destruct (Byte.of_N x).
Qed.

(** X18: a text without surrogates, encoded in UTF-8, is read back as
    it was: [read_bytes_as_text] of its bytes is the text. *)
Theorem utf8_text_read_back (p : Codec.platform) (s : str) :
  Forall (fun c => (c < 1114112)%N /\ ~ (55296 <= c <= 57343)%N) s ->
  exists b, Codec.encode_utf8 s = Some b /\ Upload.read_bytes_as_text p b = s.
Proof.
  intros Hs. unfold Codec.encode_utf8.
  assert (exists bss, mapM Codec.utf8_bytes s = Some bss /\
                      Forall (fun x => (x <= 255)%N) (mjoin bss)) as (bss & Hm & Hb).
  { induction Hs as [|c s [Hc Hsur] _ (bss & Hm & Hb)]; [by exists []|].
    destruct (utf8_bytes_scalar c Hc Hsur) as (bs & Hbs & Hle).
    exists (bs :: bss). cbn [mapM]. rewrite Hbs, Hm. split; [done|].
    by apply Forall_app. }
  rewrite Hm. cbn [mbind option_bind].
  destruct (of_N_byte _ Hb) as [b Hbytes]. exists b. split; [done|].
  unfold Upload.read_bytes_as_text, Upload.first_decoding, Codec.decode, Codec.decode_utf8.
  by rewrite (values_of_N _ _ Hbytes), (utf8_chars_encoded s bss Hm).
Qed.

Lemma units_length (little : bool) (bs ws : list N) :
  Codec.units little bs = Some ws -> length bs = (2 * length ws)%nat.
Proof.
  revert ws; induction bs as [bs IH] using (induction_ltof1 _ (@length N));
    unfold ltof in IH; intros ws.
  destruct bs as [|x [|y r]]; cbn [Codec.units]; [by intros [= <-] | done |].
  destruct (Codec.units little r) as [ws'|] eqn:Hr; [|done].
  intros [= <-]. cbn [length]. rewrite (IH r ltac:(simpl; lia) ws' Hr). lia.
Qed.

Lemma units_even (little : bool) (bs : list N) :
  Nat.even (length bs) = true -> is_Some (Codec.units little bs).
Proof.
  induction bs as [bs IH] using (induction_ltof1 _ (@length N)); unfold ltof in IH.
  destruct bs as [|x [|y r]]; cbn [Codec.units length]; [done | done |].
  intros Hr. destruct (IH r ltac:(simpl; lia)) as [ws ->]; [exact Hr | done].
Qed.

Lemma units_odd (little : bool) (bs : list N) :
  Nat.odd (length bs) = true -> Codec.units little bs = None.
Proof.
  intros Ho. destruct (Codec.units little bs) as [ws|] eqn:Hu; [|done].
  apply units_length in Hu. rewrite Hu, Nat.odd_mul in Ho. done.
Qed.

Lemma decode_utf16_odd (little : bool) (b : list Byte.byte) :
  Nat.odd (length b) = true -> Codec.decode_utf16 little b = None.
Proof.
  intros Ho. unfold Codec.decode_utf16.
  assert (Nat.odd (length (Codec.values b)) = true) as Hv
    by (unfold Codec.values; by rewrite length_fmap).
  cbv zeta. destruct (Codec.values b) as [|x [|y r]].
  - discriminate Hv.
  - cbn [take]. by rewrite !bool_decide_eq_false_2.
  - cbn [take drop]. assert (Nat.odd (length r) = true) as Hr by exact Hv.
    repeat case_match; by rewrite units_odd.
Qed.

(** X19: bytes that are not UTF-8 and whose number is odd are read as
    Latin-1, a character for each byte. *)
Theorem odd_length_read_as_latin1 (p : Codec.platform) (b : list Byte.byte) :
  Codec.decode_utf8 b = None -> Nat.odd (length b) = true ->
  Upload.read_bytes_as_text p b = Codec.values b.
Proof.
  intros H8 Ho. unfold Upload.read_bytes_as_text, Upload.first_decoding, Codec.decode.
  by rewrite H8, decode_utf16_odd.
Qed.

Lemma utf16_chars_plain (ws : list N) :
  Forall (fun w => Codec.high_surrogate w = false /\ Codec.low_surrogate w = false) ws ->
  Codec.utf16_chars ws = Some ws.
Proof.
  induction 1 as [|w ws [Hh Hl] _ IH]; [done|].
  cbn [Codec.utf16_chars]. by rewrite Hh, Hl, IH.
Qed.

(** X20: bytes that are not UTF-8, in even number and without a byte
    order mark, are read as UTF-16 in the byte order of the machine and
    never as Latin-1 when their 16-bit units hold no surrogate: the
    text has one character for every two bytes. *)
Theorem even_length_read_as_utf16 (p : Codec.platform) (b : list Byte.byte) :
  Codec.decode_utf8 b = None -> Nat.even (length b) = true ->
  take 2 (Codec.values b) <> [255; 254]%N -> take 2 (Codec.values b) <> [254; 255]%N ->
  exists ws,
    Codec.units (Codec.little_endian p) (Codec.values b) = Some ws /\
    (Forall (fun w => Codec.high_surrogate w = false /\ Codec.low_surrogate w = false) ws ->
     Upload.read_bytes_as_text p b = ws).
Proof.
  intros H8 He Hle Hbe.
  destruct (units_even (Codec.little_endian p) (Codec.values b)) as [ws Hws].
  { unfold Codec.values. by rewrite length_fmap. }
  exists ws. split; [done|]. intros Hplain.
  unfold Upload.read_bytes_as_text, Upload.first_decoding, Codec.decode.
  rewrite H8. unfold Codec.decode_utf16.
  assert (Codec.units (Codec.little_endian p) (Codec.values b) ≫= Codec.utf16_chars
          = Some ws) as Hd.
  { rewrite Hws. cbn [mbind option_bind]. by apply utf16_chars_plain. }
  cbv zeta. rewrite !bool_decide_eq_false_2 by done. by rewrite Hd.
Qed.

Lemma utf8_text_read_back_witness :
  exists b, Codec.encode_utf8 accented_text = Some b /\
            Upload.read_bytes_as_text this_machine b = accented_text.
Proof.
  apply utf8_text_read_back. unfold accented_text.
  repeat constructor; cbv beta; lia.
Defined.

Lemma odd_length_read_as_latin1_witness :
  Upload.read_bytes_as_text this_machine one_latin1_byte = Codec.values one_latin1_byte.
Proof. apply odd_length_read_as_latin1; reflexivity. Defined.

Lemma even_length_read_as_utf16_witness :
  exists ws,
    Codec.units (Codec.little_endian this_machine) (Codec.values two_latin1_bytes) = Some ws /\
    (Forall (fun w => Codec.high_surrogate w = false /\ Codec.low_surrogate w = false) ws ->
     Upload.read_bytes_as_text this_machine two_latin1_bytes = ws).
Proof. apply even_length_read_as_utf16; try reflexivity; by vm_compute. Defined.

(* ===================================================================== *)
(** * The fixed flags and the keyword lines                               *)
(* ===================================================================== *)

Section FixedFlags.
Context {U : UnicodeData}.

(** The flag of a direction is none of the four fixed flags. *)
Lemma direction_flag_other (c : App.numeric_change) (x : str) :
  x ∈ direction_flag c ->
  x <> u "removed_try_block" /\ x <> u "removed_assert" /\
  x <> u "removed_logging" /\ x <> u "todo_added".
Proof.
  unfold direction_flag.
  destruct (PyFloat.ltb (App.new c) (App.old c));
    [|destruct (PyFloat.ltb (App.old c) (App.new c))].
  3: by intros ?%elem_of_nil.
  all: intros ->%list_elem_of_singleton.
  all: split_and!; intros E; apply (f_equal (take 3)) in E; vm_compute in E; discriminate E.
Qed.

(** The flags of one operation, flag by flag *)
Lemma elem_of_op_flags (o : App.operation) (x : str) :
  x ∈ App.op_flags o <->
  (x = u "removed_try_block" /\ App.op o = App.del /\
   Py.contains (u "try:") (App.text o) = true) \/
  (x = u "removed_assert" /\ App.op o = App.del /\
   Py.contains (u "assert ") (App.text o) = true) \/
  (x = u "removed_logging" /\ App.op o = App.del /\
   is_Some (Re.search App.logging_re (App.text o))) \/
  (x = u "todo_added" /\ App.op o = App.add /\
   is_Some (Re.search App.todo_re (uc_lower (App.text o)))).
Proof.
  unfold App.op_flags. rewrite !elem_of_app.
  assert (forall (b : bool) (f : str), x ∈ (if b then [f] else []) <-> x = f /\ b = true) as E.
  { intros b f. destruct b; [rewrite list_elem_of_singleton | rewrite elem_of_nil]; naive_solver. }
  rewrite !E, !andb_true_iff, !bool_decide_eq_true. tauto.
Qed.

(** X21: each of the four fixed flags is raised exactly when a line of
    its kind passes its test: [removed_try_block] when a deleted line
    holds [try:], [removed_assert] when a deleted line holds [assert]
    and a blank, [removed_logging] when a deleted line has the word
    [log] or [logger], [todo_added] when the lowercase of an added line
    has the word [todo] or [fixme]. *)
Theorem fixed_flags_raised_exactly (hunks : list App.hunk) :
  exists heur,
    App.simple_heuristics hunks = Py.Ok heur /\
    (u "removed_try_block" ∈ App.risk_flags heur <->
     exists h t, h ∈ hunks /\ t ∈ App.texts_of App.del h /\
                 Py.contains (u "try:") t = true) /\
    (u "removed_assert" ∈ App.risk_flags heur <->
     exists h t, h ∈ hunks /\ t ∈ App.texts_of App.del h /\
                 Py.contains (u "assert ") t = true) /\
    (u "removed_logging" ∈ App.risk_flags heur <->
     exists h t, h ∈ hunks /\ t ∈ App.texts_of App.del h /\
                 is_Some (Re.search App.logging_re t)) /\
    (u "todo_added" ∈ App.risk_flags heur <->
     exists h t, h ∈ hunks /\ t ∈ App.texts_of App.add h /\
                 is_Some (Re.search App.todo_re (uc_lower t))).
Proof.
  rewrite simple_heuristics_lists. eexists. split; [reflexivity|].
  cbn [App.risk_flags].
  assert (forall x,
    x = u "removed_try_block" \/ x = u "removed_assert" \/
    x = u "removed_logging" \/ x = u "todo_added" ->
    x ∈ merge_sort str_le (remove_dups (hunks ≫= hunk_flags)) <->
    exists h o, h ∈ hunks /\ o ∈ App.ops h /\ x ∈ App.op_flags o) as E.
  { intros x Hx. rewrite merge_sort_Permutation, elem_of_remove_dups, list_elem_of_bind.
    unfold hunk_flags. split.
    - intros (h & [Ho|Hd]%elem_of_app & Hh).
      + apply list_elem_of_bind in Ho as (o & ? & ?). by exists h, o.
      + apply list_elem_of_bind in Hd as (c & Hc & _).
        apply direction_flag_other in Hc. naive_solver.
    - intros (h & o & Hh & Ho & Hf). exists h. split; [|done].
      apply elem_of_app. left. apply list_elem_of_bind. by exists o. }
  assert (forall k (P : str -> Prop),
    (exists h o, h ∈ hunks /\ o ∈ App.ops h /\ App.op o = k /\ P (App.text o)) <->
    (exists h t, h ∈ hunks /\ t ∈ App.texts_of k h /\ P t)) as T.
  { intros k P. split.
    - intros (h & [k' t] & Hh & Ho & Hk & HP). cbn in Hk, HP. subst k'.
      exists h, t. split; [done|]. split; [by apply elem_of_texts_of | done].
    - intros (h & t & Hh & Ht%elem_of_texts_of & HP). by exists h, {| App.op := k; App.text := t |}. }
  split_and!.
  - rewrite E by tauto. rewrite <- (T App.del (fun t => Py.contains (u "try:") t = true)).
    split.
    + intros (h & o & Hh & Ho & Hf). exists h, o.
      apply elem_of_op_flags in Hf as [(_ & ? & ?)|[(Hx & _)|[(Hx & _)|(Hx & _)]]];
        [done|discriminate Hx..].
    + intros (h & o & Hh & Ho & Hk & Hc). exists h, o. split; [done|]. split; [done|].
      apply elem_of_op_flags. by left.
  - rewrite E by tauto. rewrite <- (T App.del (fun t => Py.contains (u "assert ") t = true)).
    split.
    + intros (h & o & Hh & Ho & Hf). exists h, o.
      apply elem_of_op_flags in Hf as [(Hx & _)|[(_ & ? & ?)|[(Hx & _)|(Hx & _)]]];
        [discriminate Hx|done|discriminate Hx..].
    + intros (h & o & Hh & Ho & Hk & Hc). exists h, o. split; [done|]. split; [done|].
      apply elem_of_op_flags. right. by left.
  - rewrite E by tauto.
    rewrite <- (T App.del (fun t => is_Some (Re.search App.logging_re t))).
    split.
    + intros (h & o & Hh & Ho & Hf). exists h, o.
      apply elem_of_op_flags in Hf as [(Hx & _)|[(Hx & _)|[(_ & ? & ?)|(Hx & _)]]];
        [discriminate Hx..|done|discriminate Hx].
    + intros (h & o & Hh & Ho & Hk & Hc). exists h, o. split; [done|]. split; [done|].
      apply elem_of_op_flags. right. right. by left.
  - rewrite E by tauto.
    rewrite <- (T App.add (fun t => is_Some (Re.search App.todo_re (uc_lower t)))).
    split.
    + intros (h & o & Hh & Ho & Hf). exists h, o.
      apply elem_of_op_flags in Hf as [(Hx & _)|[(Hx & _)|[(Hx & _)|(_ & ? & ?)]]];
        [discriminate Hx..|done].
    + intros (h & o & Hh & Ho & Hk & Hc). exists h, o. split; [done|]. split; [done|].
      apply elem_of_op_flags. right. right. by right.
Qed.

(** X22: the removed keywords are the texts of the deleted lines whose
    lowercase holds [password], hunk after hunk and in the order of the
    lines, a line that comes twice being listed twice; the added
    keywords are those of the added lines. *)
Theorem keyword_lists_in_order (hunks : list App.hunk) :
  exists heur,
    App.simple_heuristics hunks = Py.Ok heur /\
    App.removed_keywords heur
      = filter (fun t => Py.contains (u "password") (uc_lower t) = true)
               (hunks ≫= App.texts_of App.del) /\
    App.added_keywords heur
      = filter (fun t => Py.contains (u "password") (uc_lower t) = true)
               (hunks ≫= App.texts_of App.add).
Proof.
  rewrite simple_heuristics_lists. eexists. split; [reflexivity|].
  cbn [App.removed_keywords App.added_keywords].
  assert (forall k, hunks ≫= (fun h => keyword_lines (App.texts_of k h))
                    = filter (fun t => Py.contains (u "password") (uc_lower t) = true)
                             (hunks ≫= App.texts_of k)) as E.
  { intros k. induction hunks as [|h hs IH]; [done|].
    rewrite !bind_cons, filter_app, IH. f_equal.
    unfold keyword_lines, App.has_password. apply list_filter_iff. intros t.
    by destruct (Py.contains (u "password") (uc_lower t)). }
  by rewrite !E.
Qed.

End FixedFlags.

(* ===================================================================== *)
(** * The hunks of a record and the file names                            *)
(* ===================================================================== *)

Section HunksOfRecord.
Context {U : UnicodeData}.

Lemma hunk_of_counts (a b : list str) g :
  good_group a b g ->
  Forall (header_counts (Z.of_nat (length a)) (Z.of_nat (length b))) (hunk_of a b g).
Proof.
  intros Hg. pose proof Hg as (Hne & Hv & Hct).
  destruct (head_last_nonempty g Hne) as (c0 & cl & Hh & Hl).
  unfold hunk_of. rewrite Hh, Hl. apply Forall_singleton.
  destruct (group_sides a b g c0 cl Hv Hct Hh Hl) as ((Hi & Hi2 & Hj & Hj2) & Ho & Hn).
  unfold header_counts, side_texts. cbn [App.old_snippet App.new_snippet App.ops
    App.old_start App.old_len App.new_start App.new_len].
  rewrite side_texts_old, side_texts_new, Ho, Hn, !length_fmap, !slice_length by done.
  unfold range_start.
  destruct (Z.eqb_spec ((op_end cl).1 - (op_start c0).1) 0),
           (Z.eqb_spec ((op_end cl).2 - (op_start c0).2) 0); lia.
Qed.

Lemma record_hunks env (a b ln rn : str) (n : Z) (sw : bool) :
  0 <= n ->
  Forall (fun l => Py.startswith App.hunk_mark l = false) (file_lines ln rn) ->
  exists heur,
    App.simple_heuristics
      (difflib.get_grouped_opcodes (difflib.new (App.to_lines a sw) (App.to_lines b sw)) n
         ≫= hunk_of (App.to_lines a sw) (App.to_lines b sw)) = Py.Ok heur /\
    App.make_change_record env a b ln rn n sw = Py.Ok
      {| App.id := App.strftime_now env ++ u "_" ++ take 6 (App.uuid4_hex env);
         App.rec_source := {| App.left_name := ln; App.right_name := rn |};
         App.rec_stats :=
           {| App.lines_left := Z.of_nat (length (App.to_lines a sw));
              App.lines_right := Z.of_nat (length (App.to_lines b sw));
              App.char_similarity := PyFloat.round (App.similarity_scores a b).1.1 4;
              App.line_similarity := PyFloat.round (App.similarity_scores a b).1.2 4;
              App.token_jaccard := PyFloat.round (App.similarity_scores a b).2 4;
              App.percent_different_estimate :=
                PyFloat.round
                  (PyFloat.mul (PyFloat.sub (PyFloat.of_int 1)
                                            (App.similarity_scores a b).1.1)
                               (PyFloat.of_int 100)) 2 |};
         App.unified_diff :=
           App.unified_diff_text (App.to_lines a sw) (App.to_lines b sw) ln rn n;
         App.hunks :=
           difflib.get_grouped_opcodes
             (difflib.new (App.to_lines a sw) (App.to_lines b sw)) n
             ≫= hunk_of (App.to_lines a sw) (App.to_lines b sw);
         App.rec_heuristics := heur |}.
Proof.
  intros Hn Hnames. apply make_change_record_eq.
  apply parse_unified_diff_text; try done; apply to_lines_lines.
Qed.

(** X23: for a context count that is not negative and file names no
    line of which begins with the mark of a header, the header of every
    hunk of the record agrees with its body: the old length is the
    number of context and delete operations, the new length that of
    context and add operations, and the lines that the starts and the
    lengths name are lines of the two sides. *)
Theorem hunk_headers_count_operations env (a b ln rn : str) (n : Z) (sw : bool) :
  0 <= n ->
  Forall (fun l => Py.startswith App.hunk_mark l = false) (file_lines ln rn) ->
  exists r,
    App.make_change_record env a b ln rn n sw = Py.Ok r /\
    Forall (header_counts (App.lines_left (App.rec_stats r))
                          (App.lines_right (App.rec_stats r))) (App.hunks r).
Proof.
  intros Hn Hnames. destruct (record_hunks env a b ln rn n sw Hn Hnames) as (heur & _ & ->).
  eexists. split; [reflexivity|].
  cbn [App.hunks App.rec_stats App.lines_left App.lines_right].
  pose proof (get_grouped_opcodes_ok (App.to_lines a sw) (App.to_lines b sw) n Hn) as Hgs.
  revert Hgs. generalize (difflib.get_grouped_opcodes
    (difflib.new (App.to_lines a sw) (App.to_lines b sw)) n).
  intros gs Hgs. induction Hgs as [|g gs Hg _ IH]; [constructor|].
  rewrite bind_cons. apply Forall_app. split; [by apply hunk_of_counts | done].
Qed.

(** X24: the file names only label the diff: for a context count that
    is not negative, two runs on the same texts with other file names,
    no line of which begins with the mark of a header, give the same
    hunks, the same heuristics and the same statistics. *)
Theorem file_names_only_label env env' (a b ln rn ln' rn' : str) (n : Z) (sw : bool) :
  0 <= n ->
  Forall (fun l => Py.startswith App.hunk_mark l = false) (file_lines ln rn) ->
  Forall (fun l => Py.startswith App.hunk_mark l = false) (file_lines ln' rn') ->
  exists r r',
    App.make_change_record env a b ln rn n sw = Py.Ok r /\
    App.make_change_record env' a b ln' rn' n sw = Py.Ok r' /\
    App.hunks r = App.hunks r' /\
    App.rec_heuristics r = App.rec_heuristics r' /\
    App.rec_stats r = App.rec_stats r'.
Proof.
  intros Hn H1 H2.
  destruct (record_hunks env a b ln rn n sw Hn H1) as (heur & Hh & ->).
  destruct (record_hunks env' a b ln' rn' n sw Hn H2) as (heur' & Hh' & ->).
  rewrite Hh in Hh'. injection Hh' as <-.
  eexists _, _. split; [reflexivity|]. split; [reflexivity|]. done.
Qed.

End HunksOfRecord.

Lemma hunk_headers_count_operations_witness :
  exists r,
    App.make_change_record env0 crlf_text lf_text (u "l") (u "r") 1 false = Py.Ok r /\
    Forall (header_counts (App.lines_left (App.rec_stats r))
                          (App.lines_right (App.rec_stats r))) (App.hunks r).
Proof.
  apply (hunk_headers_count_operations (U := ascii_tables)); [lia|].
  vm_compute. repeat constructor.
Defined.

Lemma file_names_only_label_witness :
  exists r r',
    App.make_change_record env0 crlf_text lf_text (u "l") (u "r") 1 false = Py.Ok r /\
    App.make_change_record env0 crlf_text lf_text (u "old.py") (u "new.py") 1 false
      = Py.Ok r' /\
    App.hunks r = App.hunks r' /\
    App.rec_heuristics r = App.rec_heuristics r' /\
    App.rec_stats r = App.rec_stats r'.
Proof.
  apply (file_names_only_label (U := ascii_tables)); [lia| |];
    vm_compute; repeat constructor.
Defined.

(* ===================================================================== *)
(** * The order of the hunks                                              *)
(* ===================================================================== *)

Section OrderedGroups.
Context `{Countable A}.

Lemma valid_span (a b : list A) g c0 cl :
  Forall (valid_op a b) g -> contig g -> head g = Some c0 -> last g = Some cl ->
  (op_start c0).1 <= (op_end cl).1 /\ (op_start c0).2 <= (op_end cl).2.
Proof.
  intros Hv. revert c0. induction Hv as [|c g Hc Hv IH]; intros c0 Hct Hh Hl; [done|].
  injection Hh as <-. destruct g as [|c2 g].
  - injection Hl as <-. destruct c as [[[[tg i1] i2] j1] j2]. cbn in *. lia.
  - rewrite last_cons_cons in Hl. cbn [contig] in Hct. destruct Hct as [He Hct].
    destruct (IH c2 Hct eq_refl Hl) as [? ?].
    destruct c as [[[[tg i1] i2] j1] j2]. cbn in Hc. rewrite <- He in *. cbn in *. lia.
Qed.

Lemma ends_before_mono (p q : Z * Z) g :
  p.1 <= q.1 -> p.2 <= q.2 -> ends_before p g -> ends_before q g.
Proof. intros ? ? Hg c Hc. destruct (Hg c Hc). lia. Qed.

(** The groups that the loop yields are in order, and all of them end
    before the group that is being filled starts. *)
Lemma group_loop_ordered (a b : list A) (n : Z) codes group groups :
  0 <= n ->
  Forall (valid_op a b) (group ++ codes) -> contig (group ++ codes) ->
  (group = [] -> groups = []) ->
  StronglySorted group_before groups ->
  (forall c0, head group = Some c0 -> Forall (ends_before (op_start c0)) groups) ->
  StronglySorted group_before (foldl (difflib.group_step n) (group, groups) codes).2 /\
  (forall c0, head (foldl (difflib.group_step n) (group, groups) codes).1 = Some c0 ->
     Forall (ends_before (op_start c0)) (foldl (difflib.group_step n) (group, groups) codes).2).
Proof.
  intros Hn. revert group groups; induction codes as [|c codes IH];
    intros group groups Hv Hc Hnil Hss He.
  { cbn. done. }
  destruct c as [[[[tg i1] i2] j1] j2]. cbn [foldl].
  assert (forall g, g ∈ groups -> exists c0, head group = Some c0 /\
            ends_before (op_start c0) g /\
            (op_start c0).1 <= i1 /\ (op_start c0).2 <= j1) as Hprev.
  { intros g Hg. destruct group as [|c0 group'] eqn:Eg.
    { rewrite (Hnil eq_refl) in Hg. by apply elem_of_nil in Hg. }
    exists c0. split; [done|]. split.
    { specialize (He c0 eq_refl). rewrite Forall_forall in He. by apply He. }
    rewrite <- Eg in *. apply Forall_app in Hv as [Hv1 _].
    apply contig_app in Hc as (Hc1 & _ & Hj).
    destruct (last group) as [cl|] eqn:El; [|apply last_None in El; by rewrite Eg in El].
    destruct (valid_span a b group c0 cl Hv1 Hc1) as [? ?]; [by rewrite Eg | done |].
    specialize (Hj cl _ eq_refl eq_refl). rewrite Hj in *. cbn in *. lia. }
  destruct (bool_decide (tg = difflib.equal) && (n + n <? i2 - i1)) eqn:Hsplit.
  - replace (difflib.group_step n (group, groups) (tg, i1, i2, j1, j2)) with
      ([(tg, Z.max i1 (i2 - n), i2, Z.max j1 (j2 - n), j2)],
       groups ++ [group ++ [(tg, i1, Z.min i2 (i1 + n), j1, Z.min j2 (j1 + n))]])
      by (unfold difflib.group_step; by rewrite Hsplit).
    apply andb_true_iff in Hsplit as [->%bool_decide_eq_true Hlong%Z.ltb_lt].
    apply Forall_app in Hv as [Hv1 Hv2]. apply Forall_cons in Hv2 as [Hvc Hv2].
    apply contig_app in Hc as (Hc1 & Hc2 & Hj). apply contig_cons in Hc2 as [Hh Hc2].
    pose proof Hvc as (Hi1 & Hi2 & Hj1 & Hj2 & Hlen & _).
    apply IH.
    + apply Forall_cons. split; [by apply valid_op_tail | done].
    + simpl. apply contig_cons. split; [|done]. intros c2 Hc2'. by rewrite <- (Hh _ Hc2').
    + done.
    + apply StronglySorted_app_2; [|done|repeat constructor].
      intros g g' Hg ->%list_elem_of_singleton c' Hc'.
      destruct (Hprev g Hg) as (c0 & Hc0 & Hb & _).
      destruct group as [|c0' group']; [done|]. cbn in Hc', Hc0. by simplify_eq.
    + intros c0 [= <-]. apply Forall_app. split.
      * apply Forall_forall. intros g Hg.
        destruct (Hprev g Hg) as (c0 & _ & Hb & ? & ?).
        unfold op_start in *. cbn [fst snd] in *.
        eapply ends_before_mono; [| |exact Hb]; cbn [fst snd]; lia.
      * apply Forall_singleton. intros c. rewrite last_snoc. intros [= <-]. cbn.
        lia.
  - replace (difflib.group_step n (group, groups) (tg, i1, i2, j1, j2)) with
      (group ++ [(tg, i1, i2, j1, j2)], groups)
      by (unfold difflib.group_step; by rewrite Hsplit).
    apply IH; [by rewrite <- app_assoc | by rewrite <- app_assoc | by destruct group | done |].
    intros c0 Hc0. destruct group as [|c0' group'].
    + rewrite (Hnil eq_refl). constructor.
    + apply He. by cbn in *.
Qed.

(** The groups of opcodes are in order, with a gap between them. *)
Lemma get_grouped_opcodes_ordered (a b : list A) (n : Z) :
  0 <= n ->
  StronglySorted group_before (difflib.get_grouped_opcodes (difflib.new a b) n).
Proof.
  intros Hn. unfold difflib.get_grouped_opcodes.
  destruct (get_opcodes_ok a b) as [Hv Hc].
  destruct (difflib.get_opcodes (difflib.new a b)) as [|c0 codes0] eqn:Hcodes.
  { destruct (Z.eq_dec n 0) as [->|]; [repeat constructor|].
    unfold difflib.fix_first, difflib.fix_last. simpl.
    replace (Z.max 0 (1 - n)) with 0 by lia. simpl.
    replace (Z.min 1 (0 + n)) with 1 by lia. simpl.
    destruct (Z.ltb_spec (n + n) (1 - 0)); [lia|]. simpl. constructor. }
  destruct (fix_first_ok a b n (c0 :: codes0) Hn Hv Hc) as [Hv1 Hc1].
  destruct (fix_last_ok a b n _ Hn Hv1 Hc1) as [Hv2 Hc2].
  cbv zeta.
  set (codes := difflib.fix_last n (difflib.fix_first n (c0 :: codes0))) in *.
  destruct (group_loop_ordered a b n codes [] [] Hn Hv2 Hc2) as [Hss He];
    [done | constructor | done |].
  destruct (foldl (difflib.group_step n) ([], []) codes) as [group groups].
  cbn [fst snd] in *.
  assert (group <> [] -> StronglySorted group_before (groups ++ [group])) as Hfin.
  { intros Hne. apply StronglySorted_app_2; [|done|repeat constructor].
    intros g g' Hg ->%list_elem_of_singleton c' Hc'.
    specialize (He c' Hc'). rewrite Forall_forall in He. by apply He. }
  destruct group as [|[[[[tg ?] ?] ?] ?] [|c' group']]; [done| |];
    destruct tg; try (by apply Hfin); done.
Qed.

End OrderedGroups.

Section OrderedHunks.
Context {U : UnicodeData}.

Lemma hunks_of_ordered (a b : list str) gs :
  Forall (good_group a b) gs -> StronglySorted group_before gs ->
  StronglySorted hunk_before (gs ≫= hunk_of a b).
Proof.
  intros Hgs Hss. induction Hss as [|g gs Hss IH Hg]; [constructor|].
  apply Forall_cons in Hgs as [Hgood Hgs]. specialize (IH Hgs).
  pose proof Hgood as (Hne & Hv & Hct).
  destruct (head_last_nonempty g Hne) as (c0 & cl & Hh & Hl).
  destruct (valid_span a b g c0 cl Hv Hct Hh Hl) as [Hs1 Hs2].
  rewrite bind_cons. unfold hunk_of at 1. rewrite Hh, Hl.
  apply StronglySorted_cons. split; [|exact IH].
  apply Forall_bind. rewrite Forall_forall in Hg, Hgs. apply Forall_forall.
  intros g' Hg'. specialize (Hg g' Hg'). pose proof (Hgs g' Hg') as (Hne' & Hv' & Hct').
  destruct (head_last_nonempty g' Hne') as (c0' & cl' & Hh' & Hl').
  destruct (valid_span a b g' c0' cl' Hv' Hct' Hh' Hl') as [Hs1' Hs2'].
  destruct (Hg c0' Hh' cl Hl) as [Hlt1 Hlt2].
  unfold compose, hunk_of. rewrite Hh', Hl'. apply Forall_singleton.
  unfold hunk_before, range_start.
  cbn [App.old_start App.old_len App.new_start App.new_len].
  repeat case_match; lia.
Qed.

(** X25: for a context count that is not negative and file names no
    line of which begins with the mark of a header, the hunks of the
    record are in the order of the lines and do not overlap: the lines
    that a hunk names, on either side, come before the start of every
    later hunk. *)
Theorem hunks_in_order env (a b ln rn : str) (n : Z) (sw : bool) :
  0 <= n ->
  Forall (fun l => Py.startswith App.hunk_mark l = false) (file_lines ln rn) ->
  exists r,
    App.make_change_record env a b ln rn n sw = Py.Ok r /\
    StronglySorted hunk_before (App.hunks r).
Proof.
  intros Hn Hnames. destruct (record_hunks env a b ln rn n sw Hn Hnames) as (heur & _ & ->).
  eexists. split; [reflexivity|]. cbn [App.hunks].
  apply hunks_of_ordered; [by apply get_grouped_opcodes_ok | by apply get_grouped_opcodes_ordered].
Qed.

End OrderedHunks.

Lemma hunks_in_order_witness :
  exists r,
    App.make_change_record env0 first_and_last_left first_and_last_right
                           (u "l") (u "r") 1 false = Py.Ok r /\
    StronglySorted hunk_before (App.hunks r).
Proof.
  apply (hunks_in_order (U := ascii_tables)); [lia|]. vm_compute. repeat constructor.
Defined.
